(** * Text-to-SQL over LookML: grounding, planning and SQL assembly

    A shallow embedding of the deterministic core of the repository
    ([src/lookml/models.py], [src/grounding/field_mapper.py],
    [src/grounding/index.py], [src/generator/planner.py],
    [src/generator/sql_builder.py]) together with the properties of it that
    the specification states.

    Conventions of the embedding.
    - A Python [str] is a [string]; a character is a code point in 0..255
      (the Latin-1 range), classified the way CPython classifies it.
    - A Python [int] is a [Z]; [Optional[T]] is [option T].
    - A Python [dict] keeps insertion order: it is an association list
      ([Dict.t]) whose operations keep the position of an existing key.
    - A relevance score is a float in the source, only ever built from the
      constants 1.0, 2.0 and 3.0 by addition: it is counted exactly in [nat].
    - CPython is the one of version 3.11, with its default limit of 4300
      digits on the conversions between [int] and [str].
    - Logging has no effect on results and is left out, but for one
      message whose text cannot always be built
      ([_determine_required_joins]).
    - A position in a list, and the length of one, has far fewer digits
      than that limit; its conversion to [str] is total. *)

From Stdlib Require Import String Ascii List ZArith Lia Bool Arith.
From Stdlib Require Import Permutation Sorted DecimalString DecimalPos.
Import ListNotations.

Local Open Scope list_scope.
Local Open Scope string_scope.
Local Open Scope nat_scope.

(* ================================================================== *)
(** * Characters and strings, as CPython treats them *)
(* ================================================================== *)

Module Chars.

Definition code (c : ascii) : nat := nat_of_ascii c.

Definition between (lo hi : nat) (c : ascii) : bool :=
  (lo <=? code c) && (code c <=? hi).

(** [str.isspace] / the regex class [\s] on a [str] pattern. *)
Definition is_space (c : ascii) : bool :=
  between 9 13 c || between 28 32 c
  || (code c =? 133) || (code c =? 160).

(** Regex class [\d] on a [str] pattern: the decimal digits. *)
Definition is_digit (c : ascii) : bool := between 48 57 c.

Definition is_upper_az (c : ascii) : bool := between 65 90 c.
Definition is_lower_az (c : ascii) : bool := between 97 122 c.

(** Regex class [[a-zA-Z]]. *)
Definition is_alpha_az (c : ascii) : bool := is_upper_az c || is_lower_az c.

(** Regex class [[a-zA-Z_]]. *)
Definition is_ident_start (c : ascii) : bool :=
  is_alpha_az c || (code c =? 95).

(** Regex class [\w] on a [str] pattern: alphanumeric (in the Unicode
    sense) or underscore. *)
Definition is_word (c : ascii) : bool :=
  is_alpha_az c || is_digit c || (code c =? 95)
  || (code c =? 170) || (code c =? 178) || (code c =? 179)
  || (code c =? 181) || (code c =? 185) || (code c =? 186)
  || between 188 190 c || between 192 214 c
  || between 216 246 c || between 248 255 c.

(** [str.lower] on one character. *)
Definition lower (c : ascii) : ascii :=
  if is_upper_az c then ascii_of_nat (code c + 32)
  else if between 192 222 c && negb (code c =? 215)
       then ascii_of_nat (code c + 32)
  else c.

Definition backslash : ascii := ascii_of_nat 92.
Definition newline : ascii := ascii_of_nat 10.
Definition dquote : ascii := ascii_of_nat 34.
Definition squote : ascii := ascii_of_nat 39.
Definition backtick : ascii := ascii_of_nat 96.

End Chars.

Module Str.

Fixpoint map (f : ascii -> ascii) (s : string) : string :=
  match s with
  | EmptyString => EmptyString
  | String c s' => String (f c) (map f s')
  end.

Fixpoint existsb (p : ascii -> bool) (s : string) : bool :=
  match s with
  | EmptyString => false
  | String c s' => p c || existsb p s'
  end.

Fixpoint forallb (p : ascii -> bool) (s : string) : bool :=
  match s with
  | EmptyString => true
  | String c s' => p c && forallb p s'
  end.

(** [s.lower()] *)
Definition lower (s : string) : string := map Chars.lower s.

(** [len(s) == 0] *)
Definition is_empty (s : string) : bool :=
  match s with EmptyString => true | _ => false end.

(** [sub in s] *)
Fixpoint contains (sub s : string) : bool :=
  prefix sub s
  || match s with
     | EmptyString => false
     | String _ s' => contains sub s'
     end.

(** [s.startswith(p)] *)
Definition startswith (p s : string) : bool := prefix p s.

Fixpoint lstrip_by (p : ascii -> bool) (s : string) : string :=
  match s with
  | EmptyString => EmptyString
  | String c s' => if p c then lstrip_by p s' else s
  end.

(** Drop the trailing characters that satisfy [p]. *)
Fixpoint rstrip_by (p : ascii -> bool) (s : string) : string :=
  match s with
  | EmptyString => EmptyString
  | String c s' =>
      match rstrip_by p s' with
      | EmptyString => if p c then EmptyString else String c EmptyString
      | r => String c r
      end
  end.

Definition strip_by (p : ascii -> bool) (s : string) : string :=
  rstrip_by p (lstrip_by p s).

(** [s.strip()] *)
Definition strip (s : string) : string := strip_by Chars.is_space s.

(** [s.replace(a, b)] for single characters [a], [b]. *)
Definition replace_char (a b : ascii) (s : string) : string :=
  map (fun c => if Ascii.eqb c a then b else c) s.

(** The text after the last occurrence of [sep], or the whole text when
    there is none: [s.split(sep)[-1]]. *)
Fixpoint after_last (sep : ascii) (s : string) : string :=
  match s with
  | EmptyString => EmptyString
  | String c s' =>
      if existsb (Ascii.eqb sep) s then
        (if existsb (Ascii.eqb sep) s' then after_last sep s' else s')
      else s
  end.

(** The text after the first occurrence of [sep]: [s.split(sep, 1)[1]];
    [None] where Python raises [IndexError]. *)
Fixpoint after_first (sep : ascii) (s : string) : option string :=
  match s with
  | EmptyString => None
  | String c s' => if Ascii.eqb c sep then Some s' else after_first sep s'
  end.

(** [sep.join(parts)] *)
Definition join (sep : string) (parts : list string) : string :=
  String.concat sep parts.

Fixpoint drop (n : nat) (s : string) : string :=
  match n, s with
  | O, _ => s
  | S n', String _ s' => drop n' s'
  | S _, EmptyString => EmptyString
  end.

Definition take (n : nat) (s : string) : string := substring 0 n s.

(** [str(n)] for an [int]. *)
Definition of_Z (n : Z) : string := NilEmpty.string_of_int (Z.to_int n).

Definition digit_value (c : ascii) : Z := Z.of_nat (Chars.code c - 48).

Fixpoint to_Z_acc (s : string) (acc : Z) : Z :=
  match s with
  | EmptyString => acc
  | String c s' => to_Z_acc s' (10 * acc + digit_value c)
  end.

(** [int(s)] for a string of decimal digits. *)
Definition to_Z (s : string) : Z := to_Z_acc s 0.

End Str.

(** Truth value of an [Optional[str]]: neither [None] nor empty. *)
Definition truthy (o : option string) : bool :=
  match o with
  | Some s => negb (Str.is_empty s)
  | None => false
  end.

(** [o or ''] *)
Definition or_empty (o : option string) : string :=
  match o with
  | Some s => s
  | None => EmptyString
  end.

(* ================================================================== *)
(** * The fragment of Python's [re] that the program uses *)
(* ================================================================== *)

(** A backtracking matcher in continuation-passing style, with the
    priorities of Python's engine: a quantifier is greedy and gives
    characters back one at a time, an optional part is tried before it is
    skipped, and [search] takes the leftmost start position. *)
Module Re.

Inductive regex : Type :=
| Eps                                  (* the empty pattern *)
| Chr (p : ascii -> bool)              (* one character of a class *)
| Seq (r1 r2 : regex)                  (* r1 r2 *)
| Opt (r : regex)                      (* r?  and (?:r)? *)
| Many (p : ascii -> bool)             (* [class]* *)
| Grp (i : nat) (r : regex)            (* capturing group number i *)
| WordB                                (* \b *)
| Bol                                  (* ^ (no MULTILINE flag) *)
| Eol.                                 (* $ (no MULTILINE flag) *)

(** Position of the matcher: the character before it, the text after it,
    the number of characters consumed since the start of the match and
    the groups captured so far. *)
Record cursor : Type := Cursor {
  prev : option ascii;
  rest : string;
  taken : nat;
  caps : list (nat * string)
}.

Definition start (pv : option ascii) (s : string) : cursor :=
  Cursor pv s 0 [].

Definition word_before (pv : option ascii) : bool :=
  match pv with Some c => Chars.is_word c | None => false end.

Definition word_after (s : string) : bool :=
  match s with String c _ => Chars.is_word c | EmptyString => false end.

(** [\b]: exactly one side of the position is a word character. *)
Definition at_boundary (pv : option ascii) (s : string) : bool :=
  xorb (word_before pv) (word_after s).

(** [$]: at the end, or just before a newline that ends the text. *)
Definition at_end (s : string) : bool :=
  match s with
  | EmptyString => true
  | String c EmptyString => Ascii.eqb c Chars.newline
  | _ => false
  end.

Fixpoint many (p : ascii -> bool) (s : string) (pv : option ascii)
    (n : nat) (k : option ascii -> string -> nat -> option cursor)
    : option cursor :=
  match s with
  | String a s' =>
      if p a then
        match many p s' (Some a) (S n) k with
        | Some r => Some r
        | None => k pv s n
        end
      else k pv s n
  | EmptyString => k pv s n
  end.

Fixpoint exec (r : regex) (c : cursor) (k : cursor -> option cursor)
    : option cursor :=
  match r with
  | Eps => k c
  | Chr p =>
      match rest c with
      | String a s' =>
          if p a then k (Cursor (Some a) s' (S (taken c)) (caps c))
          else None
      | EmptyString => None
      end
  | Seq r1 r2 => exec r1 c (fun c' => exec r2 c' k)
  | Opt r1 =>
      match exec r1 c k with
      | Some res => Some res
      | None => k c
      end
  | Many p =>
      many p (rest c) (prev c) (taken c)
           (fun pv s n => k (Cursor pv s n (caps c)))
  | Grp i r1 =>
      exec r1 c (fun c' =>
        k (Cursor (prev c') (rest c') (taken c')
             ((i, Str.take (taken c' - taken c) (rest c)) :: caps c')))
  | WordB => if at_boundary (prev c) (rest c) then k c else None
  | Bol => match prev c with None => k c | Some _ => None end
  | Eol => if at_end (rest c) then k c else None
  end.

(** A match at the current position. *)
Definition match_here (r : regex) (pv : option ascii) (s : string)
    : option cursor :=
  exec r (start pv s) Some.

(** Group [i] of a match; [None] when the group took no part in it. *)
Fixpoint group_in (i : nat) (cs : list (nat * string)) : option string :=
  match cs with
  | [] => None
  | (j, t) :: cs' => if i =? j then Some t else group_in i cs'
  end.

Definition group (i : nat) (m : cursor) : option string :=
  group_in i (caps m).

(** A match found by [re.search]: the text before it, the matched text
    and the groups. *)
Record found : Type := Found {
  f_start : nat;
  f_text : string;
  f_caps : list (nat * string)
}.

Definition fgroup (i : nat) (m : found) : option string :=
  group_in i (f_caps m).

Fixpoint search_from (r : regex) (pv : option ascii) (s : string)
    (i : nat) : option found :=
  match match_here r pv s with
  | Some c => Some (Found i (Str.take (taken c) s) (caps c))
  | None =>
      match s with
      | String a s' => search_from r (Some a) s' (S i)
      | EmptyString => None
      end
  end.

(** [re.search(r, s)] *)
Definition search (r : regex) (s : string) : option found :=
  search_from r None s 0.

(** [re.match(r, s)] *)
Definition match_start (r : regex) (s : string) : option found :=
  match match_here r None s with
  | Some c => Some (Found 0 (Str.take (taken c) s) (caps c))
  | None => None
  end.

(** The scan shared by [re.sub] and [re.findall]: the leftmost match is
    taken, then the scan goes on after it.  [skip] counts the characters
    of the last match that are still to be passed over.  No pattern of
    the program matches the empty string; if one did, the scan would
    report the empty match and move on by one character. *)
Fixpoint sub_from (r : regex) (f : found -> string) (pv : option ascii)
    (s : string) (skip : nat) : string :=
  match skip with
  | S k =>
      match s with
      | String a s' => sub_from r f (Some a) s' k
      | EmptyString => EmptyString
      end
  | O =>
      match match_here r pv s with
      | Some c =>
          let m := Found 0 (Str.take (taken c) s) (caps c) in
          match s with
          | String a s' =>
              match taken c with
              | O => f m ++ String a (sub_from r f (Some a) s' 0)
              | S k => f m ++ sub_from r f (Some a) s' k
              end
          | EmptyString => f m
          end
      | None =>
          match s with
          | String a s' => String a (sub_from r f (Some a) s' 0)
          | EmptyString => EmptyString
          end
      end
  end.

(** [re.sub(r, f, s)] with a function [f] as replacement. *)
Definition sub (r : regex) (f : found -> string) (s : string) : string :=
  sub_from r f None s 0.

Fixpoint findall_from (r : regex) (pv : option ascii) (s : string)
    (skip : nat) : list string :=
  match skip with
  | S k =>
      match s with
      | String a s' => findall_from r (Some a) s' k
      | EmptyString => []
      end
  | O =>
      match match_here r pv s with
      | Some c =>
          let t := Str.take (taken c) s in
          match s with
          | String a s' =>
              match taken c with
              | O => t :: findall_from r (Some a) s' 0
              | S k => t :: findall_from r (Some a) s' k
              end
          | EmptyString => [t]
          end
      | None =>
          match s with
          | String a s' => findall_from r (Some a) s' 0
          | EmptyString => []
          end
      end
  end.

(** [re.findall(r, s)] for a pattern without groups. *)
Definition findall (r : regex) (s : string) : list string :=
  findall_from r None s 0.

(** Pattern builders. *)
Definition chr (a : ascii) : regex := Chr (Ascii.eqb a).

(** A literal character under [re.IGNORECASE]. *)
Definition chr_ci (a : ascii) : regex :=
  Chr (fun c => Ascii.eqb (Chars.lower c) (Chars.lower a)).

Fixpoint lit (s : string) : regex :=
  match s with
  | EmptyString => Eps
  | String a s' => Seq (chr a) (lit s')
  end.

Fixpoint lit_ci (s : string) : regex :=
  match s with
  | EmptyString => Eps
  | String a s' => Seq (chr_ci a) (lit_ci s')
  end.

(** [[class]+] *)
Definition plus (p : ascii -> bool) : regex := Seq (Chr p) (Many p).

Fixpoint seqs (rs : list regex) : regex :=
  match rs with
  | [] => Eps
  | [r] => r
  | r :: rs' => Seq r (seqs rs')
  end.

End Re.

(* ================================================================== *)
(** * Python dictionaries and sets *)
(* ================================================================== *)

(** A [dict] with [str] keys.  Iteration follows insertion order, and
    assigning to a key that is present replaces the value in place. *)
Module Dict.

Definition t (V : Type) : Type := list (string * V).

Section Ops.
Context {V : Type}.

Definition empty : t V := [].

(** [d.get(k)] *)
Fixpoint get (k : string) (d : t V) : option V :=
  match d with
  | [] => None
  | (k', v) :: d' => if String.eqb k k' then Some v else get k d'
  end.

(** [k in d] *)
Definition mem (k : string) (d : t V) : bool :=
  match get k d with Some _ => true | None => false end.

(** [d[k] = v] *)
Fixpoint set (k : string) (v : V) (d : t V) : t V :=
  match d with
  | [] => [(k, v)]
  | (k', v') :: d' =>
      if String.eqb k k' then (k', v) :: d' else (k', v') :: set k v d'
  end.

(** [d.update(other)] *)
Definition update (d other : t V) : t V :=
  fold_left (fun acc kv => set (fst kv) (snd kv) acc) other d.

Definition keys (d : t V) : list string := List.map fst d.
Definition values (d : t V) : list V := List.map snd d.
Definition items (d : t V) : list (string * V) := d.

End Ops.

End Dict.

(** A [set] of [str]: its members, each once.  The order of the list is the
    order of insertion and has no meaning for the program; the order in
    which Python iterates over a set is a parameter wherever the program
    depends on it. *)
Module PySet.

Definition t : Type := list string.

Definition empty : t := [].

Definition mem (x : string) (s : t) : bool :=
  List.existsb (String.eqb x) s.

(** [s.add(x)] *)
Definition add (x : string) (s : t) : t :=
  if mem x s then s else (s ++ [x])%list.

(** [set(l)] *)
Definition of_list (l : list string) : t :=
  fold_left (fun acc x => add x acc) l empty.

(** [len(s)] *)
Definition size (s : t) : nat := List.length s.

End PySet.

(** [l[:k]] for a Python [int] [k]: a negative [k] counts from the end. *)
Definition slice_to {A : Type} (k : Z) (l : list A) : list A :=
  if (k <? 0)%Z
  then firstn (Z.to_nat (Z.of_nat (List.length l) + k)) l
  else firstn (Z.to_nat k) l.

(* ================================================================== *)
(** * LookML structures ([src/lookml/models.py]) *)
(* ================================================================== *)

Record LookMLDimension : Type := {
  dim_name : string;
  dim_type : option string;
  dim_sql : option string;
  dim_description : option string;
  dim_hidden : bool;
  dim_primary_key : bool;
  dim_timeframes : list string
}.

Record LookMLMeasure : Type := {
  mea_name : string;
  mea_type : option string;
  mea_sql : option string;
  mea_description : option string;
  mea_hidden : bool
}.

Record LookMLView : Type := {
  view_name_of : string;
  sql_table_name : option string;
  dimensions : Dict.t LookMLDimension;
  measures : Dict.t LookMLMeasure;
  view_primary_key : option string
}.

Record LookMLJoin : Type := {
  join_view_name : string;
  join_type : string;
  join_sql_on : option string;
  join_relationship : option string;
  join_required : bool
}.

Record LookMLExplore : Type := {
  explore_name_of : string;
  from_view : string;
  explore_view_name : option string;
  joins : list LookMLJoin;
  explore_hidden : bool
}.

(** [LookMLExplore.base_view_name]: [self.view_name or self.from_view] *)
Definition base_view_name (e : LookMLExplore) : string :=
  if truthy (explore_view_name e)
  then or_empty (explore_view_name e)
  else from_view e.

Record LookMLModel : Type := {
  model_name : string;
  model_connection : option string;
  model_include : list string;
  model_views : Dict.t LookMLView;
  model_explores : Dict.t LookMLExplore
}.

Record LookMLProject : Type := {
  models : Dict.t LookMLModel;
  views : Dict.t LookMLView
}.

(** [LookMLProject.get_all_views]: the standalone views, then the views of
    every model, each written over what is already there. *)
Definition get_all_views (p : LookMLProject) : Dict.t LookMLView :=
  fold_left (fun all_views model => Dict.update all_views (model_views model))
            (Dict.values (models p))
            (Dict.update Dict.empty (views p)).

(** [LookMLProject.get_all_explores]: the explores of every model under
    the key [model.name + "." + explore_name]. *)
Definition get_all_explores (p : LookMLProject) : Dict.t LookMLExplore :=
  fold_left
    (fun all_explores model =>
       fold_left
         (fun acc kv =>
            Dict.set (model_name model ++ "." ++ fst kv) (snd kv) acc)
         (Dict.items (model_explores model))
         all_explores)
    (Dict.values (models p))
    Dict.empty.

(* ================================================================== *)
(** * Results of calls that can raise *)
(* ================================================================== *)

(** The exceptions that the program can raise.  [ReError] is [re.error]
    and [IndexError] is the one that [re.sub] raises for a replacement
    text naming a group that the pattern does not have; their messages
    are left out. *)
Inductive exn : Type :=
| ValueError (msg : string)
| KeyError (key : string)
| ReError
| IndexError.

Inductive outcome (A : Type) : Type :=
| Ok (a : A)
| Raise (e : exn).

Arguments Ok {A} a.
Arguments Raise {A} e.

Definition is_ok {A : Type} (o : outcome A) : bool :=
  match o with Ok _ => true | Raise _ => false end.

Definition bind_outcome {A B : Type} (o : outcome A) (f : A -> outcome B)
    : outcome B :=
  match o with
  | Ok a => f a
  | Raise e => Raise e
  end.

(** The calls of [f] on the items of [l], from left to right, up to the
    first one that raises. *)
Fixpoint map_outcome {A B : Type} (f : A -> outcome B) (l : list A)
    : outcome (list B) :=
  match l with
  | [] => Ok []
  | x :: l' =>
      bind_outcome (f x) (fun y =>
      bind_outcome (map_outcome f l') (fun ys => Ok (y :: ys)))
  end.

(* ================================================================== *)
(** * Conversions between [int] and [str] *)
(* ================================================================== *)

(** CPython converts between an [int] and its decimal digits only up to
    [sys.get_int_max_str_digits()] digits, 4300 unless the interpreter is
    configured otherwise, and raises [ValueError] beyond. *)
Module PyInt.

Definition max_str_digits : nat := 4300.

Definition too_many_digits (digits : string) : string :=
  "Exceeds the limit (4300 digits) for integer string conversion: "
  ++ "value has " ++ Str.of_Z (Z.of_nat (String.length digits))
  ++ " digits; use sys.set_int_max_str_digits() to increase the limit".

Definition too_long_to_print : string :=
  "Exceeds the limit (4300 digits) for integer string conversion; "
  ++ "use sys.set_int_max_str_digits() to increase the limit".

(** [int(s)] for a string [s] of decimal digits. *)
Definition of_digits (s : string) : outcome Z :=
  if max_str_digits <? String.length s
  then Raise (ValueError (too_many_digits s))
  else Ok (Str.to_Z s).

(** [str(n)], also [n] in an f-string; the sign is no digit. *)
Definition to_str (n : Z) : outcome string :=
  if max_str_digits <? String.length (Str.of_Z (Z.abs n))
  then Raise (ValueError too_long_to_print)
  else Ok (Str.of_Z n).

End PyInt.

(* ================================================================== *)
(** * Replacement templates of [re.sub] *)
(* ================================================================== *)

(** [re.sub(pattern, repl, string)] with a text [repl], for a pattern
    without groups, as CPython 3.11 runs it.  A text without a backslash
    is the replacement itself.  Any other text is first compiled as a
    template ([re._parser.parse_template]), also when the pattern matches
    nowhere: an escape such as [\n] stands for its character, [\g<0>] for
    the matched text, and a text that is no template raises [re.error],
    or [IndexError] for a reference to a group name. *)
Module Template.

(** The tokens of [re._parser.Tokenizer]: a character, or a backslash
    with the character after it.  A backslash at the very end is no token;
    the tokenizer raises when it comes to it. *)
Inductive token : Type :=
| Chr (c : ascii)
| Esc (c : ascii)
| Dangling.

Fixpoint tokens (source : string) : list token :=
  match source with
  | EmptyString => []
  | String c rest =>
      if Ascii.eqb c Chars.backslash then
        match rest with
        | EmptyString => [Dangling]
        | String d rest' => Esc d :: tokens rest'
        end
      else Chr c :: tokens rest
  end.

(** [Tokenizer.__next]: the tokenizer reads one token ahead, so taking a
    token reads the one after it, the head of [ts]. *)
Definition lexed (ts : list token) : outcome unit :=
  match ts with
  | Dangling :: _ => Raise ReError
  | _ => Ok tt
  end.

(** [s.next in charset] *)
Definition next_in (charset : ascii -> bool) (ts : list token) : bool :=
  match ts with
  | Chr c :: _ => charset c
  | _ => false
  end.

Definition is_octal (c : ascii) : bool := Chars.between 48 55 c.

Definition digit (c : ascii) : nat := Chars.code c - 48.

Definition chr (n : nat) : string := String (ascii_of_nat n) EmptyString.

(** A piece of a compiled template: a literal text, or the place of the
    text that the pattern matched (group 0, the only group there is). *)
Inductive piece : Type :=
| Literal (text : string)
| Whole.

(** [Tokenizer.getuntil(">", "group name")] on the tokens [ts], [n] tokens
    having been taken before: the name, and the number of tokens taken. *)
Fixpoint getuntil (ts : list token) (result : string) (n : nat)
    : outcome (string * nat) :=
  match ts with
  | [] => Raise ReError
  | c :: ts' =>
      bind_outcome (lexed ts') (fun _ =>
        match c with
        | Chr a =>
            if Ascii.eqb a ">" then
              if Str.is_empty result then Raise ReError
              else Ok (result, S n)
            else getuntil ts' (result ++ String a EmptyString) (S n)
        | Esc a =>
            getuntil ts'
              (result ++ String Chars.backslash (String a EmptyString))
              (S n)
        | Dangling => Raise ReError
        end)
  end.

(** [str.isidentifier] *)
Definition is_xid_start (c : ascii) : bool :=
  Chars.is_alpha_az c
  || (Chars.code c =? 170) || (Chars.code c =? 181) || (Chars.code c =? 186)
  || Chars.between 192 214 c || Chars.between 216 246 c
  || Chars.between 248 255 c.

Definition is_xid_continue (c : ascii) : bool :=
  is_xid_start c || Chars.is_digit c || (Chars.code c =? 95)
  || (Chars.code c =? 183).

Definition isidentifier (name : string) : bool :=
  match name with
  | EmptyString => false
  | String c rest =>
      (is_xid_start c || (Chars.code c =? 95))
      && Str.forallb is_xid_continue rest
  end.

(** The white space that [int] skips around a number. *)
Definition is_int_space (c : ascii) : bool :=
  Chars.between 9 13 c || (Chars.code c =? 32)
  || (Chars.code c =? 133) || (Chars.code c =? 160).

Definition unsigned (s : string) : string :=
  match s with
  | String c rest =>
      if Ascii.eqb c "+" || Ascii.eqb c "-" then rest else s
  | EmptyString => s
  end.

(** The digits of a number written with single underscores between
    digits; [None] for any other text. *)
Fixpoint grouped_digits (s : string) (after_digit : bool)
    : option string :=
  match s with
  | EmptyString => if after_digit then Some EmptyString else None
  | String c rest =>
      if Chars.is_digit c then
        option_map (String c) (grouped_digits rest true)
      else if Ascii.eqb c "_" && after_digit then
        match rest with
        | EmptyString => None
        | String d _ =>
            if Chars.is_digit d then grouped_digits rest false else None
        end
      else None
  end.

(** [int(name) == 0], [False] also where [int(name)] raises: white space
    around, a sign, and at most [PyInt.max_str_digits] digits, all of
    them zeros. *)
Definition names_group_zero (name : string) : bool :=
  match grouped_digits
          (unsigned (Str.strip_by is_int_space name)) false with
  | Some digits =>
      (String.length digits <=? PyInt.max_str_digits)
      && Str.forallb (Ascii.eqb "0") digits
  | None => false
  end.

(** [ESCAPES] *)
Definition escape (c : ascii) : option nat :=
  if Ascii.eqb c "a" then Some 7
  else if Ascii.eqb c "b" then Some 8
  else if Ascii.eqb c "f" then Some 12
  else if Ascii.eqb c "n" then Some 10
  else if Ascii.eqb c "r" then Some 13
  else if Ascii.eqb c "t" then Some 9
  else if Ascii.eqb c "v" then Some 11
  else if Ascii.eqb c Chars.backslash then Some 92
  else None.

(** One turn of the loop of [parse_template] for a pattern without
    groups: [this] has just been taken and [ts] are the tokens after it.
    The result is the piece that the turn adds and the number of tokens
    of [ts] that it takes.  A reference to a group other than 0 is to a
    group that the pattern does not have. *)
Definition turn (this : token) (ts : list token) : outcome (piece * nat) :=
  bind_outcome (lexed ts) (fun _ =>
    match this with
    | Chr c => Ok (Literal (String c EmptyString), 0)
    | Dangling => Raise ReError
    | Esc c =>
        if Ascii.eqb c "g" then
          match ts with
          | Chr a :: ts1 =>
              if Ascii.eqb a "<" then
                bind_outcome (lexed ts1) (fun _ =>
                bind_outcome (getuntil ts1 EmptyString 1) (fun name_n =>
                  let name := fst name_n in
                  if isidentifier name then Raise IndexError
                  else if names_group_zero name then Ok (Whole, snd name_n)
                  else Raise ReError))
              else Raise ReError
          | _ => Raise ReError
          end
        else if Ascii.eqb c "0" then
          match ts with
          | Chr d1 :: ts1 =>
              if is_octal d1 then
                bind_outcome (lexed ts1) (fun _ =>
                  match ts1 with
                  | Chr d2 :: ts2 =>
                      if is_octal d2 then
                        bind_outcome (lexed ts2) (fun _ =>
                          Ok (Literal (chr (8 * digit d1 + digit d2)), 2))
                      else Ok (Literal (chr (digit d1)), 1)
                  | _ => Ok (Literal (chr (digit d1)), 1)
                  end)
              else Ok (Literal (chr 0), 0)
          | _ => Ok (Literal (chr 0), 0)
          end
        else if Chars.is_digit c then
          match ts with
          | Chr d1 :: ts1 =>
              if Chars.is_digit d1 then
                bind_outcome (lexed ts1) (fun _ =>
                  if is_octal c && is_octal d1 && next_in is_octal ts1 then
                    match ts1 with
                    | Chr d2 :: ts2 =>
                        bind_outcome (lexed ts2) (fun _ =>
                          let value :=
                            64 * digit c + 8 * digit d1 + digit d2 in
                          if 255 <? value then Raise ReError
                          else Ok (Literal (chr value), 2))
                    | _ => Raise ReError
                    end
                  else Raise ReError)
              else Raise ReError
          | _ => Raise ReError
          end
        else
          match escape c with
          | Some code => Ok (Literal (chr code), 0)
          | None =>
              if Chars.is_alpha_az c then Raise ReError
              else Ok (Literal (String Chars.backslash (String c EmptyString)),
                       0)
          end
    end).

(** The loop of [parse_template]; the first [taken] tokens of [ts] have
    been taken by the turn before. *)
Fixpoint turns (ts : list token) (taken : nat) : outcome (list piece) :=
  match ts with
  | [] => Ok []
  | this :: ts' =>
      match taken with
      | S taken' => turns ts' taken'
      | O =>
          bind_outcome (turn this ts') (fun piece_n =>
          bind_outcome (turns ts' (snd piece_n)) (fun pieces =>
            Ok (fst piece_n :: pieces)))
      end
  end.

(** [parse_template(source, pattern)] *)
Definition parse_template (source : string) : outcome (list piece) :=
  let ts := tokens source in
  bind_outcome (lexed ts) (fun _ => turns ts 0).

(** [expand_template(template, match)] *)
Fixpoint expand_template (template : list piece) (matched : string)
    : string :=
  match template with
  | [] => EmptyString
  | Literal text :: template' => text ++ expand_template template' matched
  | Whole :: template' => matched ++ expand_template template' matched
  end.

(** [re.sub(pattern, repl, string)] for a text [repl]. *)
Definition sub (pattern : Re.regex) (repl : string) (s : string)
    : outcome string :=
  if Str.existsb (Ascii.eqb Chars.backslash) repl then
    bind_outcome (parse_template repl) (fun template =>
      Ok (Re.sub pattern
            (fun mt => expand_template template (Re.f_text mt)) s))
  else Ok (Re.sub pattern (fun _ => repl) s).

End Template.

(* ================================================================== *)
(** * Expression resolver ([src/grounding/field_mapper.py]) *)
(* ================================================================== *)

Module FieldMapper.

(** The state of a [FieldMapper]: [self.table_aliases]. *)
Record t : Type := { table_aliases : Dict.t string }.

(** [FieldMapper()] *)
Definition init : t := {| table_aliases := Dict.empty |}.

(** The pattern [\$\{TABLE\}]. *)
Definition table_pattern : Re.regex := Re.lit "${TABLE}".

Definition not_dot_brace (c : ascii) : bool :=
  negb (Ascii.eqb c "." || Ascii.eqb c "}").

Definition not_brace (c : ascii) : bool := negb (Ascii.eqb c "}").

(** The pattern [\$\{(?:([^.}]+)\.)?([^}]+)\}]. *)
Definition field_pattern : Re.regex :=
  Re.seqs [ Re.lit "${";
            Re.Opt (Re.Seq (Re.Grp 1 (Re.plus not_dot_brace)) (Re.chr "."));
            Re.Grp 2 (Re.plus not_brace);
            Re.chr "}" ].

(** [self.table_aliases.get(table_name, table_name)] *)
Definition table_ref (m : t) (table_name : string) : string :=
  match Dict.get table_name (table_aliases m) with
  | Some a => a
  | None => table_name
  end.

(** Whether [re.sub] compiles the replacement text [s] as a template. *)
Definition has_backslash (s : string) : bool :=
  Str.existsb (Ascii.eqb Chars.backslash) s.

(** [_resolve_table_references] *)
Definition _resolve_table_references (m : t) (expression table_name : string)
    : outcome string :=
  let ref := table_ref m table_name in
  Template.sub table_pattern ref expression.

(** [replace_field_ref], the replacement function of
    [_resolve_field_references]. *)
Definition replace_field_ref (current_view : string)
    (field_mappings : Dict.t string) (mt : Re.found) : string :=
  let view_name :=
    if truthy (Re.fgroup 1 mt) then or_empty (Re.fgroup 1 mt)
    else current_view in
  let field_name := or_empty (Re.fgroup 2 mt) in
  let field_key := view_name ++ "." ++ field_name in
  match Dict.get field_key field_mappings with
  | Some sql => sql
  | None =>
      match Dict.get field_name field_mappings with
      | Some sql => sql
      | None => Re.f_text mt
      end
  end.

(** [_resolve_field_references] *)
Definition _resolve_field_references (expression current_view : string)
    (field_mappings : Dict.t string) : string :=
  Re.sub field_pattern (replace_field_ref current_view field_mappings)
         expression.

(** [resolve_lookml_expression] *)
Definition resolve_lookml_expression (m : t)
    (expression table_name view_name : string)
    (field_mappings : Dict.t string) : outcome string :=
  if Str.is_empty expression then Ok expression
  else
    bind_outcome (_resolve_table_references m expression table_name)
      (fun resolved =>
         Ok (_resolve_field_references resolved view_name field_mappings)).

(** [set_table_alias] *)
Definition set_table_alias (table_name alias : string) (m : t) : t :=
  {| table_aliases := Dict.set table_name alias (table_aliases m) |}.

(** [clear_aliases] *)
Definition clear_aliases (m : t) : t := {| table_aliases := Dict.empty |}.

(** The pattern [^\$\{TABLE\}\.[\w_]+$]. *)
Definition simple_pattern : Re.regex :=
  Re.seqs [ Re.Bol; Re.lit "${TABLE}"; Re.chr ".";
            Re.plus (fun c => Chars.is_word c || Ascii.eqb c "_");
            Re.Eol ].

(** [is_simple_column_reference] *)
Definition is_simple_column_reference (expression : string) : bool :=
  match Re.match_start simple_pattern (Str.strip expression) with
  | Some _ => true
  | None => false
  end.

(** [extract_column_name] *)
Definition extract_column_name (expression : string) : option string :=
  if is_simple_column_reference expression
  then Str.after_first "." expression
  else None.

End FieldMapper.

(* ================================================================== *)
(** * Grounding index ([src/grounding/index.py]) *)
(* ================================================================== *)

(** Column and table metadata as the metadata loader returns them
    ([src/bigquery/metadata_loader.py]). *)
Record ColumnMetadata : Type := {
  col_table_name : string;
  col_column_name : string;
  col_data_type : string;
  col_description : option string;
  col_field_path : option string
}.

Record TableMetadata : Type := {
  tm_table_name : string;
  tm_columns : Dict.t ColumnMetadata;
  tm_row_count : option Z
}.

Record FieldInfo : Type := {
  name : string;
  field_type : string;
  lookml_type : option string;
  sql_expression : option string;
  lookml_description : option string;
  bigquery_description : option string;
  bigquery_data_type : option string;
  view_name : string;
  table_name : option string;
  hidden : bool
}.

(** [FieldInfo.qualified_name] *)
Definition qualified_name (f : FieldInfo) : string :=
  view_name f ++ "." ++ name f.

Definition opt_eqb (a b : option string) : bool :=
  match a, b with
  | Some x, Some y => String.eqb x y
  | None, None => true
  | _, _ => false
  end.

(** Equality of two [FieldInfo] values, as the dataclass defines [==]. *)
Definition FieldInfo_eqb (a b : FieldInfo) : bool :=
  String.eqb (name a) (name b)
  && String.eqb (field_type a) (field_type b)
  && opt_eqb (lookml_type a) (lookml_type b)
  && opt_eqb (sql_expression a) (sql_expression b)
  && opt_eqb (lookml_description a) (lookml_description b)
  && opt_eqb (bigquery_description a) (bigquery_description b)
  && opt_eqb (bigquery_data_type a) (bigquery_data_type b)
  && String.eqb (view_name a) (view_name b)
  && opt_eqb (table_name a) (table_name b)
  && Bool.eqb (hidden a) (hidden b).

Record ExploreInfo : Type := {
  ei_name : string;
  base_view : string;
  available_fields : Dict.t FieldInfo;
  join_graph : Dict.t string;
  join_conditions : Dict.t string
}.

(** A stable sort by decreasing key: [sorted(l, key=key, reverse=True)]. *)
Section SortDesc.
Context {A : Type} (key : A -> nat).

Fixpoint insert_desc (x : A) (l : list A) : list A :=
  match l with
  | [] => [x]
  | y :: l' =>
      if key x <? key y then y :: insert_desc x l' else x :: y :: l'
  end.

Definition sorted_desc (l : list A) : list A :=
  fold_right insert_desc [] l.
End SortDesc.

Module GroundingIndex.

(** The state of a [GroundingIndex] once built. *)
Record t : Type := {
  lookml_project : LookMLProject;
  explores : Dict.t ExploreInfo;
  field_glossary : Dict.t (list FieldInfo)
}.

(** The bare table name of a view: quotes stripped, last dotted part. *)
Definition bare_table_name (sql_table : string) : string :=
  let table :=
    Str.strip_by (fun c => Ascii.eqb c Chars.backtick
                           || Ascii.eqb c Chars.dquote) sql_table in
  if Str.existsb (Ascii.eqb ".") table
  then Str.after_last "." table
  else table.

(** [_extract_referenced_tables] *)
Definition _extract_referenced_tables (p : LookMLProject) : PySet.t :=
  fold_left
    (fun tables view =>
       if truthy (sql_table_name view)
       then PySet.add (bare_table_name (or_empty (sql_table_name view)))
                      tables
       else tables)
    (Dict.values (get_all_views p))
    PySet.empty.

(** [_get_table_metadata_for_view] *)
Definition _get_table_metadata_for_view (view : LookMLView)
    (table_metadata : Dict.t TableMetadata) : option TableMetadata :=
  if truthy (sql_table_name view)
  then Dict.get (bare_table_name (or_empty (sql_table_name view)))
                table_metadata
  else None.

(** The column of the physical table behind a dimension, if any. *)
Definition bq_column_of (table_metadata : option TableMetadata)
    (dimension : LookMLDimension) : option ColumnMetadata :=
  match table_metadata with
  | Some tm =>
      if truthy (dim_sql dimension) then
        match FieldMapper.extract_column_name (or_empty (dim_sql dimension))
        with
        | Some column_name =>
            if Str.is_empty column_name then None
            else Dict.get column_name (tm_columns tm)
        | None => None
        end
      else None
  | None => None
  end.

Definition dimension_field (view : LookMLView)
    (table_metadata : option TableMetadata)
    (dim_key : string) (dimension : LookMLDimension) : FieldInfo :=
  let bq_column := bq_column_of table_metadata dimension in
  {| name := dim_key;
     field_type := "dimension";
     lookml_type := dim_type dimension;
     sql_expression := dim_sql dimension;
     lookml_description := dim_description dimension;
     bigquery_description :=
       match bq_column with
       | Some col => col_description col
       | None => None
       end;
     bigquery_data_type :=
       match bq_column with
       | Some col => Some (col_data_type col)
       | None => None
       end;
     view_name := view_name_of view;
     table_name := sql_table_name view;
     hidden := dim_hidden dimension |}.

Definition measure_field (view : LookMLView)
    (measure_key : string) (measure : LookMLMeasure) : FieldInfo :=
  {| name := measure_key;
     field_type := "measure";
     lookml_type := mea_type measure;
     sql_expression := mea_sql measure;
     lookml_description := mea_description measure;
     bigquery_description := None;
     bigquery_data_type := None;
     view_name := view_name_of view;
     table_name := sql_table_name view;
     hidden := mea_hidden measure |}.

(** [_process_view_fields]: the dimensions, then the measures; hidden
    ones are skipped. *)
Definition _process_view_fields (view : LookMLView)
    (table_metadata : option TableMetadata) : Dict.t FieldInfo :=
  let with_dimensions :=
    fold_left
      (fun fields kv =>
         if dim_hidden (snd kv) then fields
         else
           let fi := dimension_field view table_metadata (fst kv) (snd kv) in
           Dict.set (qualified_name fi) fi fields)
      (Dict.items (dimensions view))
      Dict.empty in
  fold_left
    (fun fields kv =>
       if mea_hidden (snd kv) then fields
       else
         let fi := measure_field view (fst kv) (snd kv) in
         Dict.set (qualified_name fi) fi fields)
    (Dict.items (measures view))
    with_dimensions.

(** The body of the loop of [_build_explores] for one explore. *)
Definition build_explore_info (all_views : Dict.t LookMLView)
    (table_metadata : Dict.t TableMetadata)
    (explore_name : string) (explore : LookMLExplore) : ExploreInfo :=
  let from_base :=
    match Dict.get (base_view_name explore) all_views with
    | Some base =>
        Dict.update Dict.empty
          (_process_view_fields base
             (_get_table_metadata_for_view base table_metadata))
    | None => Dict.empty
    end in
  let '(fields, graph, conditions) :=
    fold_left
      (fun acc join =>
         let '(fields, graph, conditions) := acc in
         match Dict.get (join_view_name join) all_views with
         | Some join_view =>
             (Dict.update fields
                (_process_view_fields join_view
                   (_get_table_metadata_for_view join_view table_metadata)),
              Dict.set (join_view_name join) (join_type join) graph,
              if truthy (join_sql_on join)
              then Dict.set (join_view_name join)
                            (or_empty (join_sql_on join)) conditions
              else conditions)
         | None => acc
         end)
      (joins explore)
      (from_base, Dict.empty, Dict.empty) in
  {| ei_name := explore_name;
     base_view := base_view_name explore;
     available_fields := fields;
     join_graph := graph;
     join_conditions := conditions |}.

(** [_build_explores] *)
Definition _build_explores (p : LookMLProject)
    (table_metadata : Dict.t TableMetadata) : Dict.t ExploreInfo :=
  let all_views := get_all_views p in
  fold_left
    (fun explores kv =>
       Dict.set (fst kv)
         (build_explore_info all_views table_metadata (fst kv) (snd kv))
         explores)
    (Dict.items (get_all_explores p))
    Dict.empty.

(** The pattern [\b[a-zA-Z]{3,}\b]. *)
Definition keyword_pattern : Re.regex :=
  Re.seqs [ Re.WordB; Re.Chr Chars.is_alpha_az; Re.Chr Chars.is_alpha_az;
            Re.Chr Chars.is_alpha_az; Re.Many Chars.is_alpha_az; Re.WordB ].

Definition keyword_stop_words : list string :=
  [ "the"; "and"; "for"; "are"; "but"; "not"; "you"; "all"; "can"; "had";
    "her"; "was"; "one"; "our"; "out"; "day"; "get"; "has"; "him"; "his";
    "how"; "man"; "new"; "now"; "old"; "see"; "two"; "way"; "who"; "boy";
    "did"; "its"; "let"; "put"; "say"; "she"; "too"; "use" ].

Definition in_list (x : string) (l : list string) : bool :=
  List.existsb (String.eqb x) l.

(** [_extract_keywords] *)
Definition _extract_keywords (text : string) : list string :=
  List.filter (fun word => negb (in_list word keyword_stop_words))
              (Re.findall keyword_pattern (Str.lower text)).

(** [_add_to_glossary] *)
Definition _add_to_glossary (term : string) (field_info : FieldInfo)
    (glossary : Dict.t (list FieldInfo)) : Dict.t (list FieldInfo) :=
  let term := Str.strip (Str.lower term) in
  if 2 <? String.length term then
    let present :=
      match Dict.get term glossary with
      | Some fs => fs
      | None => []
      end in
    if List.existsb (FieldInfo_eqb field_info) present
    then glossary
    else Dict.set term (present ++ [field_info])%list glossary
  else glossary.

Definition add_words (words : list string) (field_info : FieldInfo)
    (glossary : Dict.t (list FieldInfo)) : Dict.t (list FieldInfo) :=
  fold_left (fun g word => _add_to_glossary word field_info g) words glossary.

(** [_build_field_glossary] *)
Definition _build_field_glossary (explores : Dict.t ExploreInfo)
    : Dict.t (list FieldInfo) :=
  fold_left
    (fun glossary explore_info =>
       fold_left
         (fun g field_info =>
            let g1 := _add_to_glossary (Str.lower (name field_info))
                                       field_info g in
            let g2 :=
              if truthy (lookml_description field_info)
              then add_words
                     (_extract_keywords
                        (or_empty (lookml_description field_info)))
                     field_info g1
              else g1 in
            if truthy (bigquery_description field_info)
            then add_words
                   (_extract_keywords
                      (or_empty (bigquery_description field_info)))
                   field_info g2
            else g2)
         (Dict.values (available_fields explore_info))
         glossary)
    (Dict.values explores)
    Dict.empty.

(** [GroundingIndex(project, loader)]: [_build_index].  The metadata
    loader is outside the core; [load] stands for its
    [load_metadata_for_tables]. *)
Definition build (p : LookMLProject)
    (load : PySet.t -> Dict.t TableMetadata) : t :=
  let table_metadata := load (_extract_referenced_tables p) in
  let explores := _build_explores p table_metadata in
  {| lookml_project := p;
     explores := explores;
     field_glossary := _build_field_glossary explores |}.

(** [get_explore_by_name] *)
Definition get_explore_by_name (idx : t) (explore_name : string)
    : option ExploreInfo :=
  Dict.get explore_name (explores idx).

End GroundingIndex.

(** Retrieval over a built index ([find_relevant_explores],
    [find_relevant_fields]). *)
Module Retrieval.
Import GroundingIndex.

(** The loop over [query_terms] inside [find_relevant_explores], for one
    explore, starting from [score]. *)
Definition score_explore (idx : t) (query_terms : list string)
    (explore_info : ExploreInfo) (score : nat) : nat :=
  fold_left
    (fun score term =>
       let term_lower := Str.lower term in
       (* Direct field name matches *)
       let score :=
         fold_left
           (fun score field_name =>
              if Str.contains term_lower (Str.lower field_name)
              then score + 2 else score)
           (Dict.keys (available_fields explore_info))
           score in
       (* Glossary matches *)
       match Dict.get term_lower (field_glossary idx) with
       | Some matching_fields =>
           fold_left
             (fun score field_info =>
                if Dict.mem (qualified_name field_info)
                            (available_fields explore_info)
                then score + 1 else score)
             matching_fields
             score
       | None => score
       end)
    query_terms
    score.

(** The dictionary [explore_scores] at the end of the outer loop. *)
Definition explore_scores (idx : t) (query_terms : list string)
    : Dict.t nat :=
  fold_left
    (fun scores kv =>
       let score := score_explore idx query_terms (snd kv) 0 in
       if 0 <? score then Dict.set (fst kv) score scores else scores)
    (Dict.items (explores idx))
    Dict.empty.

(** [find_relevant_explores] *)
Definition find_relevant_explores (idx : t) (query_terms : list string)
    : list (string * nat) :=
  sorted_desc snd (Dict.items (explore_scores idx query_terms)).

(** [field_scores[q] = field_scores.get(q, 0) + w] *)
Definition bump (q : string) (w : nat) (scores : Dict.t nat) : Dict.t nat :=
  Dict.set q (match Dict.get q scores with Some s => s | None => 0 end + w)
           scores.

(** The dictionary [field_scores] at the end of the loop over the terms. *)
Definition field_scores (idx : t) (explore_info : ExploreInfo)
    (query_terms : list string) : Dict.t nat :=
  fold_left
    (fun scores term =>
       let term_lower := Str.lower term in
       (* Check direct field name matches *)
       let scores :=
         fold_left
           (fun scores kv =>
              let field_info := snd kv in
              if Str.contains term_lower (Str.lower (name field_info))
              then bump (qualified_name field_info) 3 scores else scores)
           (Dict.items (available_fields explore_info))
           scores in
       (* Check glossary matches *)
       match Dict.get term_lower (field_glossary idx) with
       | Some matching_fields =>
           fold_left
             (fun scores field_info =>
                if Dict.mem (qualified_name field_info)
                            (available_fields explore_info)
                then bump (qualified_name field_info) 1 scores else scores)
             matching_fields
             scores
       | None => scores
       end)
    query_terms
    Dict.empty.

(** [find_relevant_fields]; [explore_info.available_fields[field_name]]
    raises [KeyError] on a name that is not a key. *)
Definition find_relevant_fields (idx : t) (explore_name : string)
    (query_terms : list string) : outcome (list (FieldInfo * nat)) :=
  match Dict.get explore_name (explores idx) with
  | None => Ok []
  | Some explore_info =>
      bind_outcome
        (map_outcome
           (fun kv =>
              match Dict.get (fst kv) (available_fields explore_info) with
              | Some field_info => Ok (field_info, snd kv)
              | None => Raise (KeyError (fst kv))
              end)
           (Dict.items (field_scores idx explore_info query_terms)))
        (fun result => Ok (sorted_desc snd result))
  end.

End Retrieval.

(* ================================================================== *)
(** * Query planner ([src/generator/planner.py]) *)
(* ================================================================== *)

Record QueryPlan : Type := {
  explore_name : string;
  selected_fields : list FieldInfo;
  required_joins : PySet.t;
  filters : list string;
  limit : option Z;
  has_aggregation : bool;
  llm_generated_sql : option string;
  llm_response : option string   (* opaque to the core *)
}.

Module QueryPlanner.
Import GroundingIndex Retrieval.

Record t : Type := {
  grounding_index : GroundingIndex.t;
  max_joins : Z
}.

(** The pattern [\b[a-zA-Z_]\w*\b]. *)
Definition term_pattern : Re.regex :=
  Re.seqs [ Re.WordB; Re.Chr Chars.is_ident_start; Re.Many Chars.is_word;
            Re.WordB ].

Definition stop_words : list string :=
  [ "the"; "and"; "or"; "but"; "in"; "on"; "at"; "to"; "for"; "of"; "with";
    "by"; "from"; "up"; "about"; "into"; "over"; "after"; "what"; "when";
    "where"; "how"; "show"; "get"; "find"; "list"; "give"; "me"; "i";
    "want"; "need"; "can"; "you"; "please" ].

(** [_extract_query_terms] *)
Definition _extract_query_terms (query : string) : list string :=
  List.filter
    (fun term => negb (in_list term stop_words) && (2 <? String.length term))
    (Re.findall term_pattern (Str.lower query)).

(** The pattern [\b<word>\s+(\d+)] for [word] one of limit, top, first. *)
Definition limit_pattern (word : string) : Re.regex :=
  Re.seqs [ Re.WordB; Re.lit word; Re.plus Chars.is_space;
            Re.Grp 1 (Re.plus Chars.is_digit) ].

Definition limit_patterns : list Re.regex :=
  [ limit_pattern "limit"; limit_pattern "top"; limit_pattern "first" ].

(** The loop of [_extract_limit] over the patterns that are left. *)
Fixpoint first_limit (patterns : list Re.regex) (text : string)
    : outcome (option Z) :=
  match patterns with
  | [] => Ok None
  | pattern :: patterns' =>
      match Re.search pattern text with
      | Some mt =>
          bind_outcome (PyInt.of_digits (or_empty (Re.fgroup 1 mt)))
            (fun n => Ok (Some n))
      | None => first_limit patterns' text
      end
  end.

(** [_extract_limit] *)
Definition _extract_limit (query : string) : outcome (option Z) :=
  first_limit limit_patterns (Str.lower query).

(** [_select_explore] *)
Definition _select_explore (p : t) (query_terms : list string)
    : option string :=
  match find_relevant_explores (grounding_index p) query_terms with
  | [] =>
      match Dict.keys (explores (grounding_index p)) with
      | [] => None
      | first :: _ => Some first
      end
  | (best, _) :: _ => Some best
  end.

Definition is_measure (f : FieldInfo) : bool :=
  String.eqb (field_type f) "measure".

Definition is_dimension (f : FieldInfo) : bool :=
  String.eqb (field_type f) "dimension".

(** The first available dimension that is not hidden, appended to
    [selected]: the inner loop of [_select_fields] with its [break]. *)
Fixpoint append_first_dimension (available : list FieldInfo)
    (selected : list FieldInfo) : list FieldInfo :=
  match available with
  | [] => selected
  | field :: available' =>
      if is_dimension field && negb (hidden field)
      then (selected ++ [field])%list
      else append_first_dimension available' selected
  end.

(** [_select_fields] *)
Definition _select_fields (p : t) (explore_name : string)
    (query_terms : list string) (full_query : string)
    : outcome (list FieldInfo) :=
  bind_outcome
    (find_relevant_fields (grounding_index p) explore_name query_terms)
    (fun relevant_fields =>
       match relevant_fields with
       | [] =>
           (* Fallback: select some basic fields *)
           match get_explore_by_name (grounding_index p) explore_name with
           | Some explore_info =>
               Ok (firstn 5
                     (List.filter (fun f => negb (hidden f))
                        (Dict.values (available_fields explore_info))))
           | None => Ok []
           end
       | _ =>
           let selected :=
             List.map fst
               (List.filter (fun fs => 1 <=? snd fs) relevant_fields) in
           let measures := List.filter is_measure selected in
           let dimensions := List.filter is_dimension selected in
           let selected :=
             match measures, dimensions with
             | _ :: _, [] =>
                 match get_explore_by_name (grounding_index p) explore_name
                 with
                 | Some explore_info =>
                     append_first_dimension
                       (Dict.values (available_fields explore_info))
                       selected
                 | None => selected
                 end
             | _, _ => selected
             end in
           Ok (firstn 10 selected)
       end).

Section WithSetOrder.

(** [list(s)] for a set [s]: Python iterates over a set in an order of
    its own. *)
Variable set_order : PySet.t -> list string.

(** [_determine_required_joins].  The warning about too many joins is
    logged with a message that holds [self.max_joins] in digits. *)
Definition _determine_required_joins (p : t) (explore_name : string)
    (selected_fields : list FieldInfo) : outcome PySet.t :=
  match get_explore_by_name (grounding_index p) explore_name with
  | None => Ok PySet.empty
  | Some explore_info =>
      let required_views :=
        fold_left
          (fun required field =>
             if negb (String.eqb (view_name field) (base_view explore_info))
             then PySet.add (view_name field) required
             else required)
          selected_fields
          PySet.empty in
      if (max_joins p <? Z.of_nat (PySet.size required_views))%Z
      then
        bind_outcome (PyInt.to_str (max_joins p)) (fun _ =>
          Ok (PySet.of_list
                (slice_to (max_joins p) (set_order required_views))))
      else Ok required_views
  end.

Definition is_time_field (f : FieldInfo) : bool :=
  opt_eqb (lookml_type f) (Some "time")
  || opt_eqb (lookml_type f) (Some "date").

(** The four time patterns with their filter texts, [{field}] already
    replaced by [field]. *)
Definition time_patterns (field : string)
    : list (Re.regex * (Re.found -> string)) :=
  [ (Re.seqs [ Re.lit "last"; Re.plus Chars.is_space;
               Re.Grp 1 (Re.plus Chars.is_digit); Re.plus Chars.is_space;
               Re.lit "day"; Re.Opt (Re.chr "s") ],
     fun m => "DATE_DIFF(CURRENT_DATE(), DATE(" ++ field ++ "), DAY) <= "
              ++ or_empty (Re.fgroup 1 m));
    (Re.seqs [ Re.lit "last"; Re.plus Chars.is_space;
               Re.Grp 1 (Re.plus Chars.is_digit); Re.plus Chars.is_space;
               Re.lit "month"; Re.Opt (Re.chr "s") ],
     fun m => "DATE_DIFF(CURRENT_DATE(), DATE(" ++ field ++ "), MONTH) <= "
              ++ or_empty (Re.fgroup 1 m));
    (Re.seqs [ Re.lit "this"; Re.plus Chars.is_space; Re.lit "year" ],
     fun _ => "EXTRACT(YEAR FROM " ++ field
              ++ ") = EXTRACT(YEAR FROM CURRENT_DATE())");
    (Re.seqs [ Re.lit "this"; Re.plus Chars.is_space; Re.lit "month" ],
     fun _ => "DATE_TRUNC(DATE(" ++ field
              ++ "), MONTH) = DATE_TRUNC(CURRENT_DATE(), MONTH)") ].

Fixpoint first_time_filter
    (patterns : list (Re.regex * (Re.found -> string))) (text : string)
    : list string :=
  match patterns with
  | [] => []
  | (pattern, filter_func) :: patterns' =>
      match Re.search pattern text with
      | Some mt => [filter_func mt]
      | None => first_time_filter patterns' text
      end
  end.

(** [_extract_basic_filters] *)
Definition _extract_basic_filters (query : string)
    (selected_fields : list FieldInfo) : list string :=
  match List.filter is_time_field selected_fields with
  | [] => []
  | time_field :: _ =>
      first_time_filter
        (time_patterns (view_name time_field ++ "." ++ name time_field))
        (Str.lower query)
  end.

(** [plan_query]; [None] is Python's [None]. *)
Definition plan_query (p : t) (query : string) (default_limit : Z)
    : outcome (option QueryPlan) :=
  let query_terms := _extract_query_terms query in
  bind_outcome (_extract_limit query) (fun extracted =>
  let limit :=
    match extracted with
    | Some n => if (n =? 0)%Z then default_limit else n
    | None => default_limit
    end in
  match _select_explore p query_terms with
  | None => Ok None
  | Some explore_name =>
      if Str.is_empty explore_name then Ok None
      else
        bind_outcome (_select_fields p explore_name query_terms query)
          (fun selected_fields =>
             match selected_fields with
             | [] => Ok None
             | _ =>
                 bind_outcome
                   (_determine_required_joins p explore_name
                                              selected_fields)
                   (fun required_joins =>
                      Ok (Some
                        {| explore_name := explore_name;
                           selected_fields := selected_fields;
                           required_joins := required_joins;
                           filters :=
                             _extract_basic_filters query selected_fields;
                           limit := Some limit;
                           has_aggregation :=
                             List.existsb is_measure selected_fields;
                           llm_generated_sql := None;
                           llm_response := None |}))
             end)
  end).

End WithSetOrder.

End QueryPlanner.

(* ================================================================== *)
(** * SQL compiler ([src/generator/sql_builder.py]) *)
(* ================================================================== *)

(** Computations of the builder: they read and write the table aliases of
    its [FieldMapper] and may raise. *)
Module Build.

Definition M (A : Type) : Type :=
  FieldMapper.t -> outcome A * FieldMapper.t.

Definition ret {A : Type} (a : A) : M A := fun m => (Ok a, m).

Definition raise {A : Type} (e : exn) : M A := fun m => (Raise e, m).

Definition bind {A B : Type} (c : M A) (f : A -> M B) : M B :=
  fun m =>
    match c m with
    | (Ok a, m') => f a m'
    | (Raise e, m') => (Raise e, m')
    end.

(** A call that has nothing to do with the mapper. *)
Definition lift {A : Type} (o : outcome A) : M A := fun m => (o, m).

(** A call that only reads the mapper. *)
Definition read {A : Type} (f : FieldMapper.t -> outcome A) : M A :=
  fun m => (f m, m).

(** A call that only changes the mapper. *)
Definition write (f : FieldMapper.t -> FieldMapper.t) : M unit :=
  fun m => (Ok tt, f m).

(** A loop over [l] that collects the results. *)
Fixpoint for_each {A B : Type} (f : A -> M B) (l : list A) : M (list B) :=
  match l with
  | [] => ret []
  | x :: l' =>
      bind (f x) (fun y => bind (for_each f l') (fun ys => ret (y :: ys)))
  end.

End Build.

Declare Scope build_scope.
Delimit Scope build_scope with build.
Notation "x <- c ;; k" := (Build.bind c (fun x => k))
  (at level 61, c at next level, right associativity) : build_scope.
Notation "c ;;; k" := (Build.bind c (fun _ => k))
  (at level 61, right associativity) : build_scope.

Module SQLBuilder.
Import GroundingIndex.
Local Open Scope build_scope.

(** [_get_table_alias] *)
Definition _get_table_alias (view_name : string) : string :=
  Str.replace_char "-" "_" (Str.lower view_name).

(** [_clean_table_name] *)
Definition _clean_table_name (table_name : string) : string :=
  let cleaned :=
    Str.strip_by (fun c => Ascii.eqb c Chars.backtick
                           || Ascii.eqb c Chars.dquote
                           || Ascii.eqb c Chars.squote) table_name in
  if Str.existsb (Ascii.eqb ".") cleaned
     && negb (Str.startswith "`" cleaned)
  then "`" ++ cleaned ++ "`"
  else cleaned.

(** [_convert_join_type] *)
Definition _convert_join_type (lookml_join_type : string) : string :=
  match Dict.get lookml_join_type
          [ ("left_outer", "LEFT"); ("right_outer", "RIGHT");
            ("full_outer", "FULL OUTER"); ("inner", "INNER");
            ("cross", "CROSS") ]
  with
  | Some sql_type => sql_type
  | None => "LEFT"
  end.

(** One item of the SELECT list. *)
Definition select_item (field : FieldInfo) : Build.M string :=
  if truthy (sql_expression field) then
    resolved_sql <-
      Build.read (fun m =>
        FieldMapper.resolve_lookml_expression m
          (or_empty (sql_expression field))
          (or_empty (table_name field))
          (view_name field)
          Dict.empty) ;;
    Build.ret ("  " ++ resolved_sql ++ " AS " ++ name field)
  else
    let table_alias := _get_table_alias (view_name field) in
    Build.ret ("  " ++ table_alias ++ "." ++ name field ++ " AS "
               ++ name field).

(** [_build_select_clause] *)
Definition _build_select_clause (selected_fields : list FieldInfo)
    : Build.M string :=
  select_items <- Build.for_each select_item selected_fields ;;
  Build.ret (Str.join ("," ++ String Chars.newline "") select_items).

(** The body of the loop of [_build_join_clauses] for one declared join:
    the clause it appends, if any. *)
Definition join_clause (all_views : Dict.t LookMLView)
    (required_joins : PySet.t) (join : LookMLJoin)
    : Build.M (option string) :=
  if PySet.mem (join_view_name join) required_joins then
    match Dict.get (join_view_name join) all_views with
    | Some join_view =>
        if truthy (sql_table_name join_view) then
          let join_table :=
            _clean_table_name (or_empty (sql_table_name join_view)) in
          let join_alias := _get_table_alias (join_view_name join) in
          Build.write (FieldMapper.set_table_alias join_table join_alias) ;;;
          let clause :=
            _convert_join_type (join_type join) ++ " JOIN " ++ join_table
            ++ " AS " ++ join_alias in
          if truthy (join_sql_on join) then
            resolved_condition <-
              Build.read (fun m =>
                FieldMapper.resolve_lookml_expression m
                  (or_empty (join_sql_on join))
                  join_table
                  (join_view_name join)
                  Dict.empty) ;;
            Build.ret (Some (clause ++ " ON " ++ resolved_condition))
          else Build.ret (Some clause)
        else Build.ret None       (* warning, then [continue] *)
    | None => Build.ret None      (* warning, then [continue] *)
    end
  else Build.ret None.

Definition present {A : Type} (l : list (option A)) : list A :=
  flat_map (fun o => match o with Some a => [a] | None => [] end) l.

(** [_build_join_clauses] *)
Definition _build_join_clauses (idx : GroundingIndex.t)
    (explore_info : ExploreInfo) (required_joins : PySet.t)
    : Build.M (list string) :=
  let all_views := get_all_views (lookml_project idx) in
  match Dict.get (ei_name explore_info)
                 (get_all_explores (lookml_project idx)) with
  | None => Build.ret []
  | Some explore =>
      clauses <- Build.for_each (join_clause all_views required_joins)
                                (joins explore) ;;
      Build.ret (present clauses)
  end.

(** [_build_from_clause] *)
Definition _build_from_clause (idx : GroundingIndex.t)
    (explore_info : ExploreInfo) (required_joins : PySet.t)
    : Build.M string :=
  let base_view_name := base_view explore_info in
  let error :=
    ValueError ("Base view " ++ base_view_name
                ++ " not found or missing sql_table_name") in
  match Dict.get base_view_name (get_all_views (lookml_project idx)) with
  | None => Build.raise error
  | Some base =>
      if negb (truthy (sql_table_name base)) then Build.raise error
      else
        let base_table :=
          _clean_table_name (or_empty (sql_table_name base)) in
        let base_alias := _get_table_alias base_view_name in
        Build.write (FieldMapper.set_table_alias base_table base_alias) ;;;
        let from_clause := base_table ++ " AS " ++ base_alias in
        match required_joins with
        | [] => Build.ret from_clause
        | _ =>
            join_clauses <-
              _build_join_clauses idx explore_info required_joins ;;
            match join_clauses with
            | [] => Build.ret from_clause
            | _ =>
                Build.ret
                  (from_clause ++ String Chars.newline ""
                   ++ Str.join (String Chars.newline "") join_clauses)
            end
        end
  end.

(** [_build_where_clause] *)
Definition _build_where_clause (filters : list string)
    : Build.M (option string) :=
  match filters with
  | [] => Build.ret None
  | _ =>
      resolved_filters <-
        Build.for_each
          (fun filter_expr =>
             Build.read (fun m =>
               FieldMapper.resolve_lookml_expression m filter_expr "" ""
                                                     Dict.empty))
          filters ;;
      Build.ret (Some (Str.join " AND " resolved_filters))
  end.

(** The positions, counted from [i], of the fields that are not
    measures. *)
Fixpoint group_by_fields (i : nat) (selected_fields : list FieldInfo)
    : list string :=
  match selected_fields with
  | [] => []
  | field :: fields' =>
      if negb (String.eqb (field_type field) "measure")
      then Str.of_Z (Z.of_nat i) :: group_by_fields (S i) fields'
      else group_by_fields (S i) fields'
  end.

(** [_build_group_by_clause] *)
Definition _build_group_by_clause (selected_fields : list FieldInfo)
    (has_aggregation : bool) : option string :=
  if negb has_aggregation then None
  else
    match group_by_fields 1 selected_fields with
    | [] => None
    | positions => Some (Str.join ", " positions)
    end.

(** [_build_limit_clause] *)
Definition _build_limit_clause (limit : option Z) : outcome (option string) :=
  match limit with
  | Some n =>
      if (n =? 0)%Z then Ok None
      else
        bind_outcome (PyInt.to_str n) (fun digits =>
          Ok (Some ("LIMIT " ++ digits)))
  | None => Ok None
  end.

Definition optional_part (keyword : string) (clause : option string)
    : list string :=
  if truthy clause then [keyword ++ or_empty clause] else [].

(** [build_sql] *)
Definition build_sql (idx : GroundingIndex.t) (plan : QueryPlan)
    : Build.M string :=
  if truthy (llm_generated_sql plan)
  then Build.ret (Str.strip (or_empty (llm_generated_sql plan)))
  else
    match get_explore_by_name idx (explore_name plan) with
    | None =>
        Build.raise (ValueError ("Explore not found: " ++ explore_name plan))
    | Some explore_info =>
        Build.write FieldMapper.clear_aliases ;;;
        select_clause <- _build_select_clause (selected_fields plan) ;;
        from_clause <-
          _build_from_clause idx explore_info (required_joins plan) ;;
        where_clause <- _build_where_clause (filters plan) ;;
        let group_by_clause :=
          _build_group_by_clause (selected_fields plan)
                                 (has_aggregation plan) in
        limit_clause <- Build.lift (_build_limit_clause (limit plan)) ;;
        let select_part :=
          "SELECT" ++ String Chars.newline "" ++ select_clause in
        let from_part := "FROM " ++ from_clause in
        let sql_parts :=
          ([ select_part; from_part ]
           ++ optional_part "WHERE " where_clause
           ++ optional_part "GROUP BY " group_by_clause
           ++ optional_part "" limit_clause)%list in
        Build.ret (Str.join (String Chars.newline "") sql_parts)
    end.

(** The pattern [\bLIMIT\s+\d+\b] under [re.IGNORECASE]. *)
Definition limit_clause_pattern : Re.regex :=
  Re.seqs [ Re.WordB; Re.lit_ci "LIMIT"; Re.plus Chars.is_space;
            Re.plus Chars.is_digit; Re.WordB ].

Definition has_limit (sql : string) : bool :=
  match Re.search limit_clause_pattern sql with
  | Some _ => true
  | None => false
  end.

(** [enforce_limit] *)
Definition enforce_limit (sql : string) (default_limit : Z)
    : outcome string :=
  if has_limit sql then Ok sql
  else
    bind_outcome (PyInt.to_str default_limit) (fun digits =>
      Ok (sql ++ String Chars.newline "" ++ "LIMIT " ++ digits)).

End SQLBuilder.

(* ================================================================== *)
(** * Notions used to state the properties *)
(* ================================================================== *)

(** ** Texts *)

Definition first_char (s : string) : option ascii :=
  match s with String c _ => Some c | EmptyString => None end.

Fixpoint last_char (s : string) : option ascii :=
  match s with
  | EmptyString => None
  | String c EmptyString => Some c
  | String _ s' => last_char s'
  end.

Definition holds_at (p : ascii -> bool) (o : option ascii) : bool :=
  match o with Some c => p c | None => false end.

Definition starts_with (p : ascii -> bool) (s : string) : bool :=
  holds_at p (first_char s).

(** The character before the position reached by reading [s] from a
    position that has [pv] before it. *)
Fixpoint last_or (pv : option ascii) (s : string) : option ascii :=
  match s with
  | EmptyString => pv
  | String c s' => last_or (Some c) s'
  end.

(** The length of the longest prefix of [s] made of the class [p]. *)
Fixpoint span_len (p : ascii -> bool) (s : string) : nat :=
  match s with
  | String a s' => if p a then S (span_len p s') else 0
  | EmptyString => 0
  end.

(** The matcher reaches [c'] from [c] by reading the text [x]. *)
Definition reads (c : Re.cursor) (x : string) (c' : Re.cursor) : Prop :=
  Re.rest c = x ++ Re.rest c'
  /\ Re.taken c' = Re.taken c + String.length x
  /\ Re.prev c' = last_or (Re.prev c) x.


(** ** Table placeholders *)



(** The exceptions by which [re.sub] rejects a replacement text. *)
Definition template_error (e : exn) : Prop := e = ReError \/ e = IndexError.

(** ** Request phrases and LIMIT clauses *)

(** [post], which comes after [pre], starts with the word, white space and
    the digits [ds]; [ds] is all the digits there are, and [pre] does not
    end in a word character. *)
Definition phrase_at (word pre post ds : string) : Prop :=
  exists ws rest,
    post = word ++ ws ++ ds ++ rest
    /\ Re.word_before (last_char pre) = false
    /\ ws <> "" /\ Str.forallb Chars.is_space ws = true
    /\ ds <> "" /\ Str.forallb Chars.is_digit ds = true
    /\ starts_with Chars.is_digit rest = false.

(** [ds] are the digits of the leftmost such phrase in [text]. *)
Definition first_phrase (word text ds : string) : Prop :=
  exists pre post,
    text = pre ++ post
    /\ phrase_at word pre post ds
    /\ forall pre' post' ds',
         text = pre' ++ post' ->
         String.length pre' < String.length pre ->
         ~ phrase_at word pre' post' ds'.

Definition no_phrase (word text : string) : Prop :=
  forall pre post ds, text = pre ++ post -> ~ phrase_at word pre post ds.

(** The number that a request text asks for: the digits of the leftmost
    phrase of the first of the words limit, top, first that has one. *)
Inductive requested_limit (text : string) : Z -> Prop :=
| requested_by_limit (ds : string) :
    first_phrase "limit" text ds -> requested_limit text (Str.to_Z ds)
| requested_by_top (ds : string) :
    no_phrase "limit" text ->
    first_phrase "top" text ds -> requested_limit text (Str.to_Z ds)
| requested_by_first (ds : string) :
    no_phrase "limit" text -> no_phrase "top" text ->
    first_phrase "first" text ds -> requested_limit text (Str.to_Z ds).

Definition no_requested_limit (text : string) : Prop :=
  no_phrase "limit" text /\ no_phrase "top" text /\ no_phrase "first" text.

(** The digits in which a request text writes the number that it asks
    for. *)
Inductive requested_digits (text : string) : string -> Prop :=
| digits_by_limit (ds : string) :
    first_phrase "limit" text ds -> requested_digits text ds
| digits_by_top (ds : string) :
    no_phrase "limit" text ->
    first_phrase "top" text ds -> requested_digits text ds
| digits_by_first (ds : string) :
    no_phrase "limit" text -> no_phrase "top" text ->
    first_phrase "first" text ds -> requested_digits text ds.

(** What [int] makes of the digits that the request holds. *)
Definition converted (text : string) (r : outcome (option Z)) : Prop :=
  match r with
  | Ok (Some n) =>
      exists ds,
        requested_digits text ds
        /\ String.length ds <= PyInt.max_str_digits
        /\ n = Str.to_Z ds
  | Ok None => no_requested_limit text
  | Raise e =>
      exists ds,
        requested_digits text ds
        /\ PyInt.max_str_digits < String.length ds
        /\ e = ValueError (PyInt.too_many_digits ds)
  end.

(** [post], which comes after [pre], starts with a LIMIT clause: the word
    in any case, white space and digits, with a word boundary on either
    side. *)
Definition limit_clause_at (pre post : string) : Prop :=
  exists kw ws ds rest,
    post = kw ++ ws ++ ds ++ rest
    /\ Str.lower kw = "limit"
    /\ Re.word_before (last_char pre) = false
    /\ ws <> "" /\ Str.forallb Chars.is_space ws = true
    /\ ds <> "" /\ Str.forallb Chars.is_digit ds = true
    /\ Re.word_after rest = false.

Definition has_limit_clause (sql : string) : Prop :=
  exists pre post, sql = pre ++ post /\ limit_clause_at pre post.

(** ** Views, joins and flattening *)

(** A view that can be joined: it is defined and names a physical table. *)
Definition has_table (all_views : Dict.t LookMLView) (v : string) : bool :=
  match Dict.get v all_views with
  | Some view => truthy (sql_table_name view)
  | None => false
  end.

(** The set [s] without [v]. *)
Definition without (v : string) (s : PySet.t) : PySet.t :=
  List.filter (fun x => negb (String.eqb x v)) s.

Definition without_join (v : string) (plan : QueryPlan) : QueryPlan :=
  {| explore_name := explore_name plan;
     selected_fields := selected_fields plan;
     required_joins := without v (required_joins plan);
     filters := filters plan;
     limit := limit plan;
     has_aggregation := has_aggregation plan;
     llm_generated_sql := llm_generated_sql plan;
     llm_response := llm_response plan |}.

(** The value of [k] in a stack of dictionaries written one over the
    other, the last one on top. *)
Fixpoint lookup_last {V : Type} (k : string) (layers : list (Dict.t V))
    : option V :=
  match layers with
  | [] => None
  | layer :: layers' =>
      match lookup_last k layers' with
      | Some v => Some v
      | None => Dict.get k (rev layer)
      end
  end.

(** The explores of a model under the keys that [get_all_explores] gives
    them. *)
Definition qualified_explores (model : LookMLModel) : Dict.t LookMLExplore :=
  List.map (fun kv => (model_name model ++ "." ++ fst kv, snd kv))
           (Dict.items (model_explores model)).

(** ** Scores *)

(** The keys of the available fields that contain the term. *)
Definition name_hits (term : string) (ei : ExploreInfo) : nat :=
  List.length
    (filter (fun field_name =>
               Str.contains (Str.lower term) (Str.lower field_name))
            (Dict.keys (available_fields ei))).

(** The glossary entries of the term that are fields of the explore. *)
Definition glossary_hits (idx : GroundingIndex.t) (term : string)
    (ei : ExploreInfo) : nat :=
  match Dict.get (Str.lower term) (GroundingIndex.field_glossary idx) with
  | Some matching_fields =>
      List.length
        (filter (fun fi => Dict.mem (qualified_name fi) (available_fields ei))
                matching_fields)
  | None => 0
  end.

(** The score of an explore in closed form. *)
Definition relevance (idx : GroundingIndex.t) (terms : list string)
    (ei : ExploreInfo) : nat :=
  list_sum
    (List.map (fun term => 2 * name_hits term ei + glossary_hits idx term ei)
              terms).

(** The score as the specification words it: for each term, 2 if the term
    matches any available field name, and 1 per glossary match that
    belongs to the explore. *)
Definition spec_relevance (idx : GroundingIndex.t) (terms : list string)
    (ei : ExploreInfo) : nat :=
  list_sum
    (List.map
       (fun term =>
          (if List.existsb
                (fun field_name =>
                   Str.contains (Str.lower term) (Str.lower field_name))
                (Dict.keys (available_fields ei))
           then 2 else 0)
          + glossary_hits idx term ei)
       terms).

(** [find_relevant_explores] as the specification words it: the explores
    with that score, sorted by decreasing score. *)
Definition spec_find_relevant_explores (idx : GroundingIndex.t)
    (terms : list string) : list (string * nat) :=
  sorted_desc snd
    (List.map (fun kv => (fst kv, spec_relevance idx terms (snd kv)))
              (GroundingIndex.explores idx)).

(** Decreasing order of the keys. *)
Definition desc {A : Type} (key : A -> nat) (a b : A) : Prop :=
  key b <= key a.

(* ================================================================== *)
(** * Projects used as examples *)
(* ================================================================== *)

Module Fixtures.

Definition dimension (n : string) (ty : string) (pk : bool) : LookMLDimension :=
  {| dim_name := n; dim_type := Some ty; dim_sql := Some ("${TABLE}." ++ n);
     dim_description := None; dim_hidden := false; dim_primary_key := pk;
     dim_timeframes := [] |}.

Definition measure (n ty sql : string) : LookMLMeasure :=
  {| mea_name := n; mea_type := Some ty; mea_sql := Some sql;
     mea_description := None; mea_hidden := false |}.

Definition no_metadata : PySet.t -> Dict.t TableMetadata := fun _ => [].

(** One view [users] and one explore [users] without joins. *)
Definition users_view : LookMLView :=
  {| view_name_of := "users";
     sql_table_name := Some "users";
     dimensions := [ ("id", dimension "id" "number" true);
                     ("name", dimension "name" "string" false) ];
     measures := [ ("count", measure "count" "count" "COUNT(${TABLE}.id)") ];
     view_primary_key := Some "id" |}.

Definition users_explore : LookMLExplore :=
  {| explore_name_of := "users"; from_view := "users";
     explore_view_name := None; joins := []; explore_hidden := false |}.

Definition users_project (model : string) : LookMLProject :=
  {| models :=
       [ (model,
          {| model_name := model; model_connection := None;
             model_include := []; model_views := [];
             model_explores := [ ("users", users_explore) ] |}) ];
     views := [ ("users", users_view) ] |}.

Definition users_index : GroundingIndex.t :=
  GroundingIndex.build (users_project "shop") no_metadata.

Definition count_field : FieldInfo :=
  {| name := "count"; field_type := "measure"; lookml_type := Some "count";
     sql_expression := Some "COUNT(${TABLE}.id)";
     lookml_description := None; bigquery_description := None;
     bigquery_data_type := None; view_name := "users";
     table_name := Some "users"; hidden := false |}.

Definition count_plan (model : string) (aggregation : bool) : QueryPlan :=
  {| explore_name := model ++ ".users";
     selected_fields := [count_field];
     required_joins := PySet.empty;
     filters := [];
     limit := Some 100%Z;
     has_aggregation := aggregation;
     llm_generated_sql := None;
     llm_response := None |}.

Definition lines (l : list string) : string :=
  Str.join (String Chars.newline "") l.

(** A shop: [users] joined to [orders] and to [payments]; the view
    [payments] names no physical table. *)
Definition orders_view : LookMLView :=
  {| view_name_of := "orders";
     sql_table_name := Some "shop.orders";
     dimensions := [ ("order_id", dimension "order_id" "number" true);
                     ("status", dimension "status" "string" false) ];
     measures := [ ("revenue", measure "revenue" "sum" "SUM(${TABLE}.amount)") ];
     view_primary_key := Some "order_id" |}.

Definition payments_view : LookMLView :=
  {| view_name_of := "payments";
     sql_table_name := None;
     dimensions := [ ("method", dimension "method" "string" false) ];
     measures := [ ("paid", measure "paid" "sum" "SUM(${TABLE}.paid)") ];
     view_primary_key := None |}.

Definition join_to (v : string) (on : string) : LookMLJoin :=
  {| join_view_name := v; join_type := "left_outer"; join_sql_on := Some on;
     join_relationship := Some "one_to_many"; join_required := false |}.

Definition shop_explore : LookMLExplore :=
  {| explore_name_of := "users"; from_view := "users";
     explore_view_name := None;
     joins := [ join_to "orders" "${users.id} = ${orders.user_id}";
                join_to "payments" "${users.id} = ${payments.user_id}" ];
     explore_hidden := false |}.

Definition shop_project : LookMLProject :=
  {| models :=
       [ ("shop",
          {| model_name := "shop"; model_connection := None;
             model_include := []; model_views := [];
             model_explores := [ ("users", shop_explore) ] |}) ];
     views := [ ("users", users_view); ("orders", orders_view);
                ("payments", payments_view) ] |}.

Definition shop_index : GroundingIndex.t :=
  GroundingIndex.build shop_project no_metadata.

Definition shop_planner (max_joins : Z) : QueryPlanner.t :=
  {| QueryPlanner.grounding_index := shop_index;
     QueryPlanner.max_joins := max_joins |}.

Definition insertion_order : PySet.t -> list string := fun s => s.

(** A view with ten measures whose names share a word. *)
Definition totals : list string :=
  [ "total_amount"; "total_tax"; "total_discount"; "total_shipping";
    "total_items"; "total_refunds"; "total_cost"; "total_profit";
    "total_fees"; "total_tips" ].

Definition sales_view : LookMLView :=
  {| view_name_of := "sales";
     sql_table_name := Some "sales";
     dimensions := [ ("region", dimension "region" "string" false) ];
     measures :=
       List.map (fun n => (n, measure n "sum" ("SUM(${TABLE}." ++ n ++ ")")))
                totals;
     view_primary_key := None |}.

Definition sales_project : LookMLProject :=
  {| models :=
       [ ("shop",
          {| model_name := "shop"; model_connection := None;
             model_include := []; model_views := [];
             model_explores :=
               [ ("sales",
                  {| explore_name_of := "sales"; from_view := "sales";
                     explore_view_name := None; joins := [];
                     explore_hidden := false |}) ] |}) ];
     views := [ ("sales", sales_view) ] |}.

Definition sales_planner : QueryPlanner.t :=
  {| QueryPlanner.grounding_index :=
       GroundingIndex.build sales_project no_metadata;
     QueryPlanner.max_joins := 10 |}.

(** A standalone view and a view inside a model under one name. *)
Definition users_in_model : LookMLView :=
  {| view_name_of := "users";
     sql_table_name := Some "legacy.users";
     dimensions := [ ("id", dimension "id" "number" true) ];
     measures := [];
     view_primary_key := Some "id" |}.

Definition colliding_project : LookMLProject :=
  {| models :=
       [ ("shop",
          {| model_name := "shop"; model_connection := None;
             model_include := [];
             model_views := [ ("users", users_in_model) ];
             model_explores := [ ("users", users_explore) ] |}) ];
     views := [ ("users", users_view) ] |}.

(** A plan over the shop that needs both joins. *)
Definition two_joins_plan : QueryPlan :=
  {| explore_name := "shop.users";
     selected_fields := [count_field];
     required_joins := ["orders"; "payments"];
     filters := [];
     limit := Some 100%Z;
     has_aggregation := true;
     llm_generated_sql := None;
     llm_response := None |}.

(** A plan that carries its SQL, and whose other fields are of no use. *)
Definition prebuilt_plan : QueryPlan :=
  {| explore_name := "no such explore";
     selected_fields := [];
     required_joins := ["orders"];
     filters := ["${TABLE}.x > 1"];
     limit := None;
     has_aggregation := true;
     llm_generated_sql := Some "  SELECT 1 FROM t  ";
     llm_response := None |}.

Definition empty_index : GroundingIndex.t :=
  {| GroundingIndex.lookml_project := {| models := []; views := [] |};
     GroundingIndex.explores := [];
     GroundingIndex.field_glossary := [] |}.

(** The SQL that the specification gives for the count of users, and the
    SQL that the builder returns. *)
Definition claimed_count_sql : string :=
  lines [ "SELECT"; "  COUNT(u.id) AS count"; "FROM users AS u";
          "GROUP BY "; "LIMIT 100" ].

Definition actual_count_sql : string :=
  lines [ "SELECT"; "  COUNT(users.id) AS count"; "FROM users AS users";
          "LIMIT 100" ].

Definition shop_sql : string :=
  lines [ "SELECT";
          "  SUM(shop.orders.amount) AS revenue,";
          "  SUM(.paid) AS paid,";
          "  shop.orders.status AS status";
          "FROM users AS users";
          "LEFT JOIN `shop.orders` AS orders ON ${users.id} = ${orders.user_id}";
          "GROUP BY 3";
          "LIMIT 100" ].

End Fixtures.

(* ================================================================== *)
(** * Further parts of the program *)
(* ================================================================== *)

(** [LookMLView.get_all_fields] ([src/lookml/models.py]) and
    [FieldMapper.extract_referenced_fields]
    ([src/grounding/field_mapper.py]). *)

(** A value of the dictionary that [LookMLView.get_all_fields] returns: a
    dimension or a measure. *)
Inductive LookMLField : Type :=
| DimensionField (d : LookMLDimension)
| MeasureField (m : LookMLMeasure).

(** [LookMLView.get_all_fields]: the dimensions, then the measures written
    over them. *)
Definition get_all_fields (v : LookMLView) : Dict.t LookMLField :=
  let fields := Dict.empty in
  let fields :=
    Dict.update fields
      (List.map (fun kv => (fst kv, DimensionField (snd kv)))
                (Dict.items (dimensions v))) in
  Dict.update fields
    (List.map (fun kv => (fst kv, MeasureField (snd kv)))
              (Dict.items (measures v))).

(** [re.finditer(r, s)]: the matches that the scan of [re.sub] and
    [re.findall] passes over, from left to right. *)
Fixpoint finditer_from (r : Re.regex) (pv : option ascii) (s : string)
    (skip : nat) : list Re.found :=
  match skip with
  | S k =>
      match s with
      | String a s' => finditer_from r (Some a) s' k
      | EmptyString => []
      end
  | O =>
      match Re.match_here r pv s with
      | Some c =>
          let m := Re.Found 0 (Str.take (Re.taken c) s) (Re.caps c) in
          match s with
          | String a s' =>
              match Re.taken c with
              | O => m :: finditer_from r (Some a) s' 0
              | S k => m :: finditer_from r (Some a) s' k
              end
          | EmptyString => [m]
          end
      | None =>
          match s with
          | String a s' => finditer_from r (Some a) s' 0
          | EmptyString => []
          end
      end
  end.

Definition finditer (r : Re.regex) (s : string) : list Re.found :=
  finditer_from r None s 0.

(** [FieldMapper.extract_referenced_fields] *)
Definition extract_referenced_fields (expression : string) : PySet.t :=
  fold_left
    (fun references mt =>
       let view_name := Re.fgroup 1 mt in
       let field_name := or_empty (Re.fgroup 2 mt) in
       if truthy view_name
       then PySet.add (or_empty view_name ++ "." ++ field_name) references
       else PySet.add field_name references)
    (finditer FieldMapper.field_pattern expression)
    PySet.empty.

(* ================================================================== *)
(** * Notions used to state further properties *)
(* ================================================================== *)

(** The keys of the fields are their qualified names, and no field is
    hidden. *)
Definition well_keyed (fields : Dict.t FieldInfo) : Prop :=
  forall k f, In (k, f) fields -> k = qualified_name f /\ hidden f = false.

(** Every explore of the index has well keyed fields. *)
Definition index_well_keyed (idx : GroundingIndex.t) : Prop :=
  forall k ei,
    In (k, ei) (GroundingIndex.explores idx) ->
    well_keyed (available_fields ei).

(** Every scored name is a key of the available fields, with a score of
    at least one. *)
Definition scores_ok (ei : ExploreInfo) (scores : Dict.t nat) : Prop :=
  forall q s,
    In (q, s) scores ->
    Dict.get q (available_fields ei) <> None /\ 1 <= s.

(** The glossary lists the field under the term. *)
Definition glossary_has (g : Dict.t (list FieldInfo)) (term : string)
    (f : FieldInfo) : Prop :=
  exists fs,
    Dict.get term g = Some fs /\ List.existsb (FieldInfo_eqb f) fs = true.

(** Every entry of the glossary is a term in lower case of more than two
    characters with at least one field, none listed twice, all of them
    from [fields]. *)
Definition glossary_ok (fields : FieldInfo -> Prop)
    (g : Dict.t (list FieldInfo)) : Prop :=
  forall term fs,
    In (term, fs) g ->
    2 < String.length term
    /\ Str.lower term = term
    /\ fs <> []
    /\ NoDup fs
    /\ Forall fields fs.

(** The body of the inner loop of [_build_field_glossary]. *)
Definition index_field (g : Dict.t (list FieldInfo)) (field_info : FieldInfo)
    : Dict.t (list FieldInfo) :=
  let g1 := GroundingIndex._add_to_glossary (Str.lower (name field_info)) field_info g in
  let g2 :=
    if truthy (lookml_description field_info)
    then GroundingIndex.add_words
           (GroundingIndex._extract_keywords (or_empty (lookml_description field_info)))
           field_info g1
    else g1 in
  if truthy (bigquery_description field_info)
  then GroundingIndex.add_words
         (GroundingIndex._extract_keywords (or_empty (bigquery_description field_info)))
         field_info g2
  else g2.

(* ================================================================== *)
(** * Further examples *)
(* ================================================================== *)

Module Examples.

Definition revenue_field : FieldInfo :=
  {| name := "revenue"; field_type := "measure"; lookml_type := Some "sum";
     sql_expression := Some "SUM(${TABLE}.amount)";
     lookml_description := None; bigquery_description := None;
     bigquery_data_type := None; view_name := "orders";
     table_name := Some "shop.orders"; hidden := false |}.

End Examples.

(** A project whose only explore rests on a view without a table. *)
Module Broken.

Definition payments_project : LookMLProject :=
  {| models :=
       [ ("shop",
          {| model_name := "shop"; model_connection := None;
             model_include := []; model_views := [];
             model_explores :=
               [ ("payments",
                  {| explore_name_of := "payments"; from_view := "payments";
                     explore_view_name := None; joins := [];
                     explore_hidden := false |}) ] |}) ];
     views := [ ("payments", Fixtures.payments_view) ] |}.

Definition payments_planner : QueryPlanner.t :=
  {| QueryPlanner.grounding_index :=
       GroundingIndex.build payments_project Fixtures.no_metadata;
     QueryPlanner.max_joins := 10 |}.

End Broken.

(* ================================================================== *)
(** * Facts about texts and characters *)
(* ================================================================== *)

Module CharFacts.

Ltac by_cases c :=
  destruct c as [[] [] [] [] [] [] [] []]; vm_compute; congruence.

Lemma digit_not_space (c : ascii) :
  Chars.is_digit c = true -> Chars.is_space c = false.
Proof. by_cases c. Qed.

Lemma digit_is_word (c : ascii) :
  Chars.is_digit c = true -> Chars.is_word c = true.
Proof. by_cases c. Qed.

Lemma lower_l_is_word (c : ascii) :
  Chars.lower c = "l"%char -> Chars.is_word c = true.
Proof. by_cases c. Qed.

End CharFacts.

Module StrFacts.

Lemma append_empty_r (s : string) : s ++ "" = s.
Proof. induction s as [|c s IH]; simpl; [reflexivity | now rewrite IH]. Qed.

Lemma append_assoc (a b c : string) : (a ++ b) ++ c = a ++ (b ++ c).
Proof. induction a as [|x a IH]; simpl; [reflexivity | now rewrite IH]. Qed.

Lemma length_append (a b : string) :
  String.length (a ++ b) = String.length a + String.length b.
Proof. induction a as [|x a IH]; simpl; [reflexivity | now rewrite IH]. Qed.

Lemma prefix_split (tok s : string) :
  prefix tok s = true -> s = tok ++ Str.drop (String.length tok) s.
Proof.
  revert s; induction tok as [|a tok IH]; intros [|b s]; simpl; auto;
    try discriminate.
  destruct (ascii_dec a b) as [->|]; [|discriminate].
  intros H. f_equal. now apply IH.
Qed.

Lemma prefix_append (tok post : string) : prefix tok (tok ++ post) = true.
Proof.
  induction tok as [|a tok IH]; simpl; [now destruct post|].
  destruct (ascii_dec a a); [assumption | congruence].
Qed.

Lemma drop_append (x post : string) :
  Str.drop (String.length x) (x ++ post) = post.
Proof. induction x; simpl; auto. Qed.

Lemma take_append (x s : string) : Str.take (String.length x) (x ++ s) = x.
Proof.
  unfold Str.take. induction x as [|a x IH]; simpl.
  - now destruct s.
  - now rewrite IH.
Qed.

Lemma last_or_append (a b : string) (pv : option ascii) :
  last_or pv (a ++ b) = last_or (last_or pv a) b.
Proof. revert pv; induction a as [|x a IH]; simpl; intros; auto. Qed.

Lemma last_or_none (s : string) : last_or None s = last_char s.
Proof.
  destruct s as [|a s]; [reflexivity|]. simpl.
  revert a; induction s as [|b s IH]; intros a; simpl; auto.
Qed.

Lemma lstrip_by_spec (p : ascii -> bool) (s : string) :
  exists l, s = l ++ Str.lstrip_by p s
            /\ Str.forallb p l = true
            /\ holds_at p (first_char (Str.lstrip_by p s)) = false.
Proof.
  induction s as [|c s (l & Hs & Hl & Hf)]; simpl.
  - exists ""; auto.
  - destruct (p c) eqn:Hc.
    + exists (String c l). simpl. rewrite Hc, Hl. repeat split; auto.
      now f_equal.
    + exists "". simpl. now rewrite Hc.
Qed.

Lemma rstrip_by_spec (p : ascii -> bool) (s : string) :
  exists r, s = Str.rstrip_by p s ++ r
            /\ Str.forallb p r = true
            /\ holds_at p (last_char (Str.rstrip_by p s)) = false
            /\ (Str.rstrip_by p s <> "" ->
                first_char (Str.rstrip_by p s) = first_char s).
Proof.
  induction s as [|c s (r & Hs & Hr & Hl & Hf)]; simpl.
  - exists ""; auto.
  - destruct (Str.rstrip_by p s) as [|d t] eqn:Ht.
    + destruct (p c) eqn:Hc.
      * exists (String c r). simpl in *. rewrite Hc, Hr.
        repeat split; auto; try congruence.
      * exists r. simpl in *. rewrite Hc. repeat split; auto. congruence.
    + exists r. simpl in *. repeat split; auto; congruence.
Qed.

(** What [strip] returns: the text without the run of white space at
    either end. *)
Lemma strip_by_spec (p : ascii -> bool) (s : string) :
  exists l r, s = l ++ Str.strip_by p s ++ r
              /\ Str.forallb p l = true
              /\ Str.forallb p r = true
              /\ holds_at p (first_char (Str.strip_by p s)) = false
              /\ holds_at p (last_char (Str.strip_by p s)) = false.
Proof.
  unfold Str.strip_by.
  destruct (lstrip_by_spec p s) as (l & Hs & Hl & Hf).
  destruct (rstrip_by_spec p (Str.lstrip_by p s))
    as (r & Hs' & Hr & Hla & Hfi).
  exists l, r. repeat split; auto.
  - now rewrite <- Hs'.
  - destruct (Str.rstrip_by p (Str.lstrip_by p s)) eqn:E; [reflexivity|].
    rewrite Hfi; [assumption | discriminate].
Qed.

Lemma span_len_app (p : ascii -> bool) (x y : string) :
  Str.forallb p x = true -> starts_with p y = false ->
  span_len p (x ++ y) = String.length x.
Proof.
  intros Hx Hy. induction x as [|a x IH].
  - destruct y as [|b y]; [reflexivity|].
    cbv [starts_with holds_at first_char] in Hy. simpl. now rewrite Hy.
  - simpl in Hx. apply andb_true_iff in Hx as [Ha Hx]. simpl.
    rewrite Ha. f_equal. auto.
Qed.

Lemma span_split (p : ascii -> bool) (s : string) :
  exists x y,
    s = x ++ y /\ String.length x = span_len p s
    /\ Str.forallb p x = true /\ starts_with p y = false.
Proof.
  induction s as [|a s (x & y & Hs & Hl & Hx & Hy)]; simpl.
  - exists "", "". auto.
  - destruct (p a) eqn:Ha.
    + exists (String a x), y. simpl. rewrite Ha, Hx, Hl. subst s. auto.
    + exists "", (String a s). cbv [starts_with holds_at first_char].
      auto.
Qed.

End StrFacts.

Module DecimalFacts.

Lemma string_of_uint_digits (d : Decimal.uint) :
  Str.forallb Chars.is_digit (NilEmpty.string_of_uint d) = true.
Proof. induction d; simpl; auto. Qed.

Lemma string_of_uint_nonempty (d : Decimal.uint) :
  d <> Decimal.Nil -> NilEmpty.string_of_uint d <> "".
Proof. destruct d; simpl; congruence. Qed.

(** [str(n)] for a natural number [n]: a non-empty run of digits. *)
Lemma of_Z_digits (n : Z) :
  (0 <= n)%Z ->
  Str.forallb Chars.is_digit (Str.of_Z n) = true /\ Str.of_Z n <> "".
Proof.
  intros Hn. unfold Str.of_Z.
  destruct n as [|p|p]; simpl.
  - split; [reflexivity | discriminate].
  - split; [apply string_of_uint_digits|].
    apply string_of_uint_nonempty, Unsigned.to_uint_nonnil.
  - lia.
Qed.

(** A run of digits is the text of a decimal number. *)
Lemma digits_uint (ds : string) :
  Str.forallb Chars.is_digit ds = true ->
  exists u, NilEmpty.string_of_uint u = ds.
Proof.
  induction ds as [|c ds IH]; [now exists Decimal.Nil|].
  cbn [Str.forallb]. intros H. apply andb_true_iff in H as [Hc Hds].
  destruct (IH Hds) as (u & <-).
  destruct c as [[] [] [] [] [] [] [] []]; try discriminate Hc;
    first [ now exists (Decimal.D0 u) | now exists (Decimal.D1 u)
          | now exists (Decimal.D2 u) | now exists (Decimal.D3 u)
          | now exists (Decimal.D4 u) | now exists (Decimal.D5 u)
          | now exists (Decimal.D6 u) | now exists (Decimal.D7 u)
          | now exists (Decimal.D8 u) | now exists (Decimal.D9 u) ].
Qed.

Lemma to_Z_acc_uint (u : Decimal.uint) :
  forall acc,
    Str.to_Z_acc (NilEmpty.string_of_uint u) (Z.pos acc)
    = Z.pos (Pos.of_uint_acc u acc).
Proof.
  induction u; intros acc;
    cbn [NilEmpty.string_of_uint Str.to_Z_acc Pos.of_uint_acc];
    [reflexivity|..];
    rewrite <- IHu; f_equal; vm_compute Str.digit_value; lia.
Qed.

Lemma to_Z_uint (u : Decimal.uint) :
  Str.to_Z (NilEmpty.string_of_uint u) = Z.of_N (Pos.of_uint u).
Proof.
  unfold Str.to_Z.
  induction u; cbn [NilEmpty.string_of_uint Str.to_Z_acc Pos.of_uint];
    [reflexivity | exact IHu |..];
    apply (to_Z_acc_uint u).
Qed.

Lemma length_string_of_uint (u : Decimal.uint) :
  String.length (NilEmpty.string_of_uint u) = Decimal.nb_digits u.
Proof. induction u; simpl; auto. Qed.

(** [str(int(ds))] has no more digits than [ds]. *)
Lemma printed_no_longer (ds : string) :
  Str.forallb Chars.is_digit ds = true -> ds <> "" ->
  String.length (Str.of_Z (Z.abs (Str.to_Z ds))) <= String.length ds.
Proof.
  intros Hds Hne. destruct (digits_uint ds Hds) as (u & <-).
  rewrite to_Z_uint, Z.abs_eq by apply N2Z.is_nonneg.
  assert (Hint : Z.to_int (Z.of_N (Pos.of_uint u))
                 = Decimal.Pos (N.to_uint (Pos.of_uint u))).
  { now destruct (Pos.of_uint u). }
  unfold Str.of_Z. rewrite Hint, DecimalPos.Unsigned.to_of.
  cbn [NilEmpty.string_of_int]. rewrite !length_string_of_uint.
  apply Stdlib.Numbers.DecimalFacts.nb_digits_unorm.
  intros ->. now apply Hne.
Qed.

(** What [str] returns, when it returns. *)
Lemma to_str_ok (n : Z) (digits : string) :
  PyInt.to_str n = Ok digits ->
  digits = Str.of_Z n
  /\ String.length (Str.of_Z (Z.abs n)) <= PyInt.max_str_digits.
Proof.
  unfold PyInt.to_str.
  destruct (PyInt.max_str_digits <? String.length (Str.of_Z (Z.abs n)))
    eqn:L; [discriminate|].
  intros [= <-]. apply Nat.ltb_ge in L. auto.
Qed.

Lemma to_str_raises (n : Z) (e : exn) :
  PyInt.to_str n = Raise e ->
  e = ValueError PyInt.too_long_to_print
  /\ PyInt.max_str_digits < String.length (Str.of_Z (Z.abs n)).
Proof.
  unfold PyInt.to_str.
  destruct (PyInt.max_str_digits <? String.length (Str.of_Z (Z.abs n)))
    eqn:L; [|discriminate].
  intros [= <-]. apply Nat.ltb_lt in L. auto.
Qed.

Lemma to_str_short (n : Z) :
  String.length (Str.of_Z (Z.abs n)) <= PyInt.max_str_digits ->
  PyInt.to_str n = Ok (Str.of_Z n).
Proof.
  intros L. unfold PyInt.to_str. apply Nat.ltb_ge in L. now rewrite L.
Qed.

(** A number below ten is one digit. *)
Lemma one_digit (n : Z) :
  (0 <= n < 10)%Z -> String.length (Str.of_Z (Z.abs n)) = 1.
Proof.
  intros H. destruct n as [|p|p]; [reflexivity| |lia].
  do 4 (destruct p as [p|p|]; try reflexivity; try lia).
Qed.

End DecimalFacts.

(* ================================================================== *)
(** * Facts about dictionaries and sets *)
(* ================================================================== *)

Module DictFacts.
Section WithValues.
Context {V : Type}.

Lemma get_set_same (k : string) (v : V) (d : Dict.t V) :
  Dict.get k (Dict.set k v d) = Some v.
Proof.
  induction d as [|[k' v'] d IH]; simpl.
  - now rewrite String.eqb_refl.
  - destruct (String.eqb k k') eqn:E; simpl; rewrite E; auto.
Qed.

Lemma get_set_other (k k' : string) (v : V) (d : Dict.t V) :
  k' <> k -> Dict.get k' (Dict.set k v d) = Dict.get k' d.
Proof.
  intros Hne. induction d as [|[k0 v0] d IH]; simpl.
  - apply String.eqb_neq in Hne. now rewrite Hne.
  - destruct (String.eqb k k0) eqn:E; simpl.
    + apply String.eqb_eq in E. subst k0.
      apply String.eqb_neq in Hne. now rewrite Hne.
    + destruct (String.eqb k' k0); auto.
Qed.

Lemma get_set (k k' : string) (v : V) (d : Dict.t V) :
  Dict.get k' (Dict.set k v d)
  = if String.eqb k' k then Some v else Dict.get k' d.
Proof.
  destruct (String.eqb k' k) eqn:E.
  - apply String.eqb_eq in E. subst. apply get_set_same.
  - apply String.eqb_neq in E. now apply get_set_other.
Qed.

Lemma get_app (k : string) (d1 d2 : Dict.t V) :
  Dict.get k (d1 ++ d2)%list
  = match Dict.get k d1 with
    | Some v => Some v
    | None => Dict.get k d2
    end.
Proof.
  induction d1 as [|[k' v'] d1 IH]; simpl; [reflexivity|].
  destruct (String.eqb k k'); auto.
Qed.

(** After [d.update(other)] a key has the value that [other] gives it
    last, or else the value it had in [d]. *)
Lemma get_update (k : string) (other : Dict.t V) :
  forall d,
    Dict.get k (Dict.update d other)
    = match Dict.get k (rev other) with
      | Some v => Some v
      | None => Dict.get k d
      end.
Proof.
  unfold Dict.update.
  induction other as [|[k1 v1] other IH]; intros d; simpl; [reflexivity|].
  rewrite IH, get_app, get_set. simpl.
  destruct (Dict.get k (rev other)); [reflexivity|].
  destruct (String.eqb k k1); reflexivity.
Qed.

Lemma keys_set (k : string) (v : V) (d : Dict.t V) :
  Dict.keys (Dict.set k v d)
  = if Dict.mem k d then Dict.keys d else (Dict.keys d ++ [k])%list.
Proof.
  unfold Dict.mem, Dict.keys.
  induction d as [|[k' v'] d IH]; simpl; [reflexivity|].
  destruct (String.eqb k k') eqn:E; simpl; [reflexivity|].
  rewrite IH. now destruct (Dict.get k d).
Qed.

Lemma mem_In_keys (k : string) (d : Dict.t V) :
  Dict.mem k d = true <-> In k (Dict.keys d).
Proof.
  unfold Dict.mem, Dict.keys.
  induction d as [|[k' v'] d IH]; simpl; [split; [discriminate | tauto]|].
  destruct (String.eqb k k') eqn:E.
  - apply String.eqb_eq in E. subst. tauto.
  - apply String.eqb_neq in E. rewrite IH. split; [tauto|].
    intros [H|H]; [congruence | assumption].
Qed.

Lemma set_NoDup (k : string) (v : V) (d : Dict.t V) :
  NoDup (Dict.keys d) -> NoDup (Dict.keys (Dict.set k v d)).
Proof.
  intros H. rewrite keys_set. destruct (Dict.mem k d) eqn:E; [assumption|].
  apply NoDup_app; auto.
  - repeat constructor. intros [].
  - intros x Hx [<-|[]]. apply mem_In_keys in Hx. congruence.
Qed.

Lemma update_NoDup (other d : Dict.t V) :
  NoDup (Dict.keys d) -> NoDup (Dict.keys (Dict.update d other)).
Proof.
  unfold Dict.update. revert d.
  induction other as [|[k v] other IH]; intros d H; simpl; auto.
  apply IH. now apply set_NoDup.
Qed.

(** Assigning to a key that is not there appends it. *)
Lemma set_fresh (k : string) (v : V) (d : Dict.t V) :
  ~ In k (Dict.keys d) -> Dict.set k v d = (d ++ [(k, v)])%list.
Proof.
  induction d as [|[k' v'] d IH]; simpl; intros H; [reflexivity|].
  destruct (String.eqb k k') eqn:E.
  - apply String.eqb_eq in E. subst. tauto.
  - f_equal. apply IH. tauto.
Qed.

End WithValues.
End DictFacts.

Module PySetFacts.

Lemma mem_In (x : string) (s : PySet.t) :
  PySet.mem x s = true <-> In x s.
Proof.
  unfold PySet.mem. rewrite existsb_exists. split.
  - intros (y & Hy & E). apply String.eqb_eq in E. now subst.
  - intros H. exists x. split; [assumption | apply String.eqb_refl].
Qed.

Lemma add_NoDup (x : string) (s : PySet.t) :
  NoDup s -> NoDup (PySet.add x s).
Proof.
  intros H. unfold PySet.add. destruct (PySet.mem x s) eqn:E; [assumption|].
  apply NoDup_app; auto.
  - repeat constructor. intros [].
  - intros y Hy [<-|[]]. apply mem_In in Hy. congruence.
Qed.

Lemma add_size (x : string) (s : PySet.t) :
  PySet.size (PySet.add x s) <= S (PySet.size s).
Proof.
  unfold PySet.add, PySet.size. destruct (PySet.mem x s); [lia|].
  rewrite length_app. simpl. lia.
Qed.

Lemma fold_add_NoDup {A : Type} (f : PySet.t -> A -> PySet.t) (l : list A) :
  (forall s a, NoDup s -> NoDup (f s a)) ->
  forall s, NoDup s -> NoDup (fold_left f l s).
Proof. intros Hf. induction l; simpl; auto. Qed.

Lemma of_list_NoDup (l : list string) : NoDup (PySet.of_list l).
Proof.
  unfold PySet.of_list. apply fold_add_NoDup.
  - intros. now apply add_NoDup.
  - constructor.
Qed.

Lemma of_list_size (l : list string) :
  PySet.size (PySet.of_list l) <= List.length l.
Proof.
  unfold PySet.of_list.
  assert (H : forall s,
             PySet.size (fold_left (fun acc x => PySet.add x acc) l s)
             <= PySet.size s + List.length l).
  { induction l as [|x l IH]; simpl; intros s; [lia|].
    specialize (IH (PySet.add x s)). pose proof (add_size x s). lia. }
  apply (H PySet.empty).
Qed.

Lemma mem_without (x v : string) (s : PySet.t) :
  PySet.mem x (without v s) = PySet.mem x s && negb (String.eqb x v).
Proof.
  unfold PySet.mem, without. induction s as [|y s IH]; simpl; [reflexivity|].
  destruct (String.eqb y v) eqn:Ey; simpl.
  - rewrite IH. apply String.eqb_eq in Ey. subst y.
    destruct (String.eqb x v); simpl; [now rewrite andb_false_r | reflexivity].
  - rewrite IH. destruct (String.eqb x y) eqn:Exy; simpl; [|reflexivity].
    apply String.eqb_eq in Exy. subst y. now rewrite Ey.
Qed.

Lemma slice_to_length {A : Type} (k : Z) (l : list A) :
  (0 <= k)%Z -> (Z.of_nat (List.length (slice_to k l)) <= k)%Z.
Proof.
  intros Hk. unfold slice_to.
  destruct (k <? 0)%Z eqn:E; [apply Z.ltb_lt in E; lia|].
  rewrite length_firstn. lia.
Qed.

End PySetFacts.

(* ================================================================== *)
(** * Facts about the matcher *)
(* ================================================================== *)

Module ReFacts.
Import Re StrFacts.

Lemma reads_refl (c : cursor) : reads c "" c.
Proof. unfold reads; simpl; auto. Qed.

Lemma reads_trans (c1 c2 c3 : cursor) (x y : string) :
  reads c1 x c2 -> reads c2 y c3 -> reads c1 (x ++ y) c3.
Proof.
  intros (R1 & T1 & P1) (R2 & T2 & P2). unfold reads.
  rewrite R1, R2, T2, T1, P2, P1, append_assoc, length_append,
    last_or_append.
  repeat split; auto. lia.
Qed.

(** Where a greedy run hands over to its continuation. *)
Lemma many_inv (p : ascii -> bool) (s : string) :
  forall pv n k r,
    many p s pv n k = Some r ->
    exists x s',
      s = x ++ s' /\ Str.forallb p x = true
      /\ k (last_or pv x) s' (n + String.length x) = Some r.
Proof.
  induction s as [|a s IH]; simpl; intros pv n k r H.
  - exists "", "". simpl. now rewrite Nat.add_0_r.
  - destruct (p a) eqn:Hp.
    + destruct (many p s (Some a) (S n) k) as [r'|] eqn:Hm.
      * injection H as <-.
        destruct (IH _ _ _ _ Hm) as (x & s' & -> & Hx & Hk).
        exists (String a x), s'. simpl. rewrite Hp, Hx.
        repeat split; auto. now rewrite <- Nat.add_succ_comm.
      * exists "", (String a s). simpl. now rewrite Nat.add_0_r.
    + exists "", (String a s). simpl. now rewrite Nat.add_0_r.
Qed.

(** A greedy run hands over at the end of the longest run first. *)
Lemma many_first (p : ascii -> bool) (x y : string) :
  forall pv n k r,
    Str.forallb p x = true ->
    k (last_or pv x) y (n + String.length x) = Some r ->
    starts_with p y = false ->
    many p (x ++ y) pv n k = Some r.
Proof.
  induction x as [|a x IH]; simpl; intros pv n k r Hx Hk Hy.
  - rewrite Nat.add_0_r in Hk. destruct y as [|b y]; simpl; [assumption|].
    cbv [starts_with holds_at first_char] in Hy. now rewrite Hy.
  - apply andb_true_iff in Hx as [Ha Hx]. rewrite Ha.
    rewrite (IH (Some a) (S n) k r); auto.
    now rewrite <- Nat.add_succ_comm in Hk.
Qed.

(** When the continuation cannot fail, a greedy run takes all it can. *)
Lemma many_greedy (p : ascii -> bool) (x y : string) :
  forall pv n k,
    (forall pv' s' n', k pv' s' n' <> None) ->
    Str.forallb p x = true -> starts_with p y = false ->
    many p (x ++ y) pv n k = k (last_or pv x) y (n + String.length x).
Proof.
  intros pv n k Hk Hx Hy.
  destruct (k (last_or pv x) y (n + String.length x)) as [r|] eqn:E.
  - now apply many_first.
  - now apply Hk in E.
Qed.

(** Every successful run of the matcher ends in a call of its
    continuation at a position further on in the same text. *)
Lemma exec_inv (r : regex) :
  forall c k res,
    exec r c k = Some res ->
    exists x c', reads c x c' /\ k c' = Some res.
Proof.
  induction r as [|p|r1 IH1 r2 IH2|r1 IH1|p|i r1 IH1| | |];
    intros c k res H; simpl in H.
  - exists "", c. split; [apply reads_refl | assumption].
  - destruct (rest c) as [|a s'] eqn:Hr; [discriminate|].
    destruct (p a); [|discriminate].
    exists (String a ""), (Cursor (Some a) s' (S (taken c)) (caps c)).
    split; [|assumption]. unfold reads. simpl. rewrite Hr.
    repeat split; auto. lia.
  - destruct (IH1 _ _ _ H) as (x & c1 & R1 & H1).
    destruct (IH2 _ _ _ H1) as (y & c2 & R2 & H2).
    exists (x ++ y), c2. split; [eapply reads_trans; eauto | assumption].
  - destruct (exec r1 c k) as [res'|] eqn:E.
    + injection H as <-. eauto.
    + exists "", c. split; [apply reads_refl | assumption].
  - destruct (many_inv _ _ _ _ _ _ H) as (x & s' & Hs & _ & Hk).
    eexists x, _. split; [|exact Hk]. unfold reads. simpl. auto.
  - destruct (IH1 _ _ _ H) as (x & c1 & (R1 & T1 & P1) & H1).
    eexists x, _. split; [|exact H1]. unfold reads. simpl. auto.
  - destruct (at_boundary (prev c) (rest c)); [|discriminate].
    exists "", c. split; [apply reads_refl | assumption].
  - destruct (prev c); [discriminate|].
    exists "", c. split; [apply reads_refl | assumption].
  - destruct (at_end (rest c)); [|discriminate].
    exists "", c. split; [apply reads_refl | assumption].
Qed.

(** The text of a match is a prefix of the text it was found in. *)
Lemma match_here_text (r : regex) (pv : option ascii) (s : string)
    (c : cursor) :
  match_here r pv s = Some c ->
  s = Str.take (taken c) s ++ rest c
  /\ taken c = String.length (Str.take (taken c) s).
Proof.
  intros H. destruct (exec_inv _ _ _ _ H) as (x & c' & (R & T & _) & E).
  injection E as ->. simpl in R, T. subst s. rewrite T.
  now rewrite take_append.
Qed.

(** Replacing every match by its own text changes nothing. *)
Lemma sub_from_text (r : regex) (s : string) :
  forall pv k, sub_from r f_text pv s k = Str.drop k s.
Proof.
  induction s as [|a s IH]; intros pv [|k]; simpl; auto.
  - destruct (match_here r pv "") as [c|] eqn:E; [|reflexivity].
    apply match_here_text in E. simpl. unfold Str.take.
    now destruct (taken c).
  - destruct (match_here r pv (String a s)) as [c|] eqn:E.
    + apply match_here_text in E as [E1 E2]. simpl.
      destruct (taken c) as [|n] eqn:Hn.
      * unfold Str.take. simpl. rewrite IH. reflexivity.
      * rewrite IH. unfold Str.take in *. simpl in *.
        injection E1 as E1. f_equal.
        remember (substring 0 n s) as x. injection E2 as ->.
        assert (Hd : Str.drop (String.length x) s = rest c)
          by (rewrite E1; apply drop_append).
        rewrite Hd. now rewrite <- E1.
    + simpl. now rewrite IH.
Qed.

Lemma sub_text (r : regex) (s : string) : sub r f_text s = s.
Proof. unfold sub. now rewrite sub_from_text. Qed.

(** What a search returns, position by position. *)
Lemma search_from_some (r : regex) (s : string) :
  forall pv i m,
    search_from r pv s i = Some m ->
    exists pre post c,
      s = pre ++ post
      /\ match_here r (last_or pv pre) post = Some c
      /\ m = Found (i + String.length pre) (Str.take (taken c) post) (caps c)
      /\ (forall pre' post',
             s = pre' ++ post' ->
             String.length pre' < String.length pre ->
             match_here r (last_or pv pre') post' = None).
Proof.
  induction s as [|a s IH]; intros pv i m H; simpl in H.
  - destruct (match_here r pv "") as [c|] eqn:E; [|discriminate].
    injection H as <-. exists "", "", c. simpl. rewrite Nat.add_0_r.
    repeat split; auto. intros; lia.
  - destruct (match_here r pv (String a s)) as [c|] eqn:E.
    + injection H as <-. exists "", (String a s), c. simpl.
      rewrite Nat.add_0_r. repeat split; auto. intros; lia.
    + destruct (IH _ _ _ H) as (pre & post & c & -> & Hm & -> & Hearly).
      exists (String a pre), post, c. simpl.
      rewrite <- Nat.add_succ_comm. repeat split; auto.
      intros pre' post' Hs Hlen.
      destruct pre' as [|b pre']; simpl in *.
      * now subst post'.
      * injection Hs as <- Hs. apply Hearly; [assumption | lia].
Qed.

Lemma search_from_none (r : regex) (s : string) :
  forall pv i,
    search_from r pv s i = None ->
    forall pre post,
      s = pre ++ post -> match_here r (last_or pv pre) post = None.
Proof.
  induction s as [|a s IH]; intros pv i H pre post Hs; simpl in H.
  - destruct pre; [|discriminate]. simpl in *. subst post.
    now destruct (match_here r pv "").
  - destruct (match_here r pv (String a s)) as [c|] eqn:E; [discriminate|].
    destruct pre as [|b pre]; simpl in *.
    + now subst post.
    + injection Hs as <- Hs. now apply (IH _ _ H).
Qed.

Lemma search_from_first (r : regex) (pre post : string) :
  forall pv i c,
    match_here r (last_or pv pre) post = Some c ->
    (forall pre' post',
        pre ++ post = pre' ++ post' ->
        String.length pre' < String.length pre ->
        match_here r (last_or pv pre') post' = None) ->
    search_from r pv (pre ++ post) i
    = Some (Found (i + String.length pre) (Str.take (taken c) post) (caps c)).
Proof.
  induction pre as [|a pre IH]; intros pv i c Hm Hearly; simpl in *.
  - rewrite Nat.add_0_r. destruct post; simpl; now rewrite Hm.
  - pose proof (Hearly "" (String a (pre ++ post)) eq_refl) as H0.
    simpl in H0. rewrite H0; [|lia].
    rewrite <- Nat.add_succ_comm. apply IH; [assumption|].
    intros pre' post' Hs Hlen.
    apply (Hearly (String a pre') post'); simpl; [now f_equal | lia].
Qed.

(** A literal pattern matches exactly where the text starts with it. *)
Lemma exec_lit (tok : string) :
  forall c k,
    exec (lit tok) c k
    = if prefix tok (rest c)
      then k (Cursor (last_or (prev c) tok)
                     (Str.drop (String.length tok) (rest c))
                     (taken c + String.length tok) (caps c))
      else None.
Proof.
  induction tok as [|a tok IH]; intros [pv s n cs] k; simpl.
  - rewrite Nat.add_0_r. now destruct s.
  - destruct s as [|b s]; [reflexivity|].
    unfold chr. simpl.
    destruct (ascii_dec a b) as [->|Hab].
    + rewrite Ascii.eqb_refl, IH. simpl.
      now rewrite <- Nat.add_succ_comm.
    + apply Ascii.eqb_neq in Hab. now rewrite Hab.
Qed.

Lemma match_here_lit (tok : string) (pv : option ascii) (s : string) :
  match_here (lit tok) pv s
  = if prefix tok s
    then Some (Cursor (last_or pv tok) (Str.drop (String.length tok) s)
                      (String.length tok) [])
    else None.
Proof. unfold match_here. now rewrite exec_lit. Qed.

(** A literal pattern under IGNORECASE matches a text that is the same
    up to the case of its letters. *)
Lemma exec_lit_ci_inv (tok : string) :
  forall c k r,
    exec (lit_ci tok) c k = Some r ->
    exists kw s',
      rest c = kw ++ s' /\ Str.lower kw = Str.lower tok
      /\ k (Cursor (last_or (prev c) kw) s'
                   (taken c + String.length kw) (caps c)) = Some r.
Proof.
  induction tok as [|a tok IH]; intros [pv s n cs] k r H; simpl in H.
  - exists "", s. simpl. now rewrite Nat.add_0_r.
  - destruct s as [|b s]; [discriminate|].
    destruct (Ascii.eqb (Chars.lower b) (Chars.lower a)) eqn:E;
      [|discriminate].
    apply Ascii.eqb_eq in E.
    destruct (IH _ _ _ H) as (kw & s' & Hs & Hl & Hk).
    cbn [rest prev taken caps] in Hs, Hk.
    exists (String b kw), s'. cbn [rest prev taken caps]. split; [|split].
    + simpl. now rewrite Hs.
    + change (Str.lower (String b kw))
        with (String (Chars.lower b) (Str.lower kw)).
      now rewrite Hl, E.
    + simpl. now rewrite <- Nat.add_succ_comm.
Qed.

Lemma exec_lit_ci_here (tok : string) :
  forall kw s' c k,
    rest c = kw ++ s' -> Str.lower kw = Str.lower tok ->
    exec (lit_ci tok) c k
    = k (Cursor (last_or (prev c) kw) s'
                (taken c + String.length kw) (caps c)).
Proof.
  induction tok as [|a tok IH]; intros kw s' [pv s n cs] k Hs Hl;
    destruct kw as [|b kw]; try discriminate;
    cbn [rest prev taken caps] in *.
  - simpl in *. subst s. now rewrite Nat.add_0_r.
  - change (Str.lower (String b kw))
      with (String (Chars.lower b) (Str.lower kw)) in Hl.
    change (Str.lower (String a tok))
      with (String (Chars.lower a) (Str.lower tok)) in Hl.
    injection Hl as Hb Hl. subst s. simpl. rewrite Hb, Ascii.eqb_refl.
    rewrite (IH kw s'); auto. simpl. now rewrite <- Nat.add_succ_comm.
Qed.

End ReFacts.

(** Substitution of a literal token. *)
Module SubFacts.
Import Re StrFacts ReFacts.

(** Passing over the rest of a match. *)
Lemma sub_from_skip (r : regex) (f : found -> string) (x post : string) :
  forall pv,
    sub_from r f pv (x ++ post) (String.length x)
    = sub_from r f (last_or pv x) post 0.
Proof. induction x as [|a x IH]; simpl; intros pv; auto. Qed.

Section Literal.
Variables (tok ref : string).

(** With a literal pattern the scan does not look at the character
    before the position. *)
Lemma sub_from_lit_prev (s : string) :
  forall pv pv' k,
    sub_from (lit tok) (fun _ => ref) pv s k
    = sub_from (lit tok) (fun _ => ref) pv' s k.
Proof.
  induction s as [|a s IH]; intros pv pv' [|k]; simpl; auto;
    rewrite !match_here_lit.
  - now destruct (prefix tok "").
  - destruct (prefix tok (String a s)); simpl.
    + destruct (String.length tok); repeat f_equal; auto.
    + f_equal; auto.
Qed.

Lemma sub_lit_absent (s : string) :
  Str.contains tok s = false -> sub (lit tok) (fun _ => ref) s = s.
Proof.
  unfold sub.
  induction s as [|a s IH]; intros H.
  - simpl. rewrite match_here_lit.
    change (Str.contains tok "") with (prefix tok "" || false) in H.
    apply orb_false_iff in H as [Hp _]. now rewrite Hp.
  - change (Str.contains tok (String a s))
      with (prefix tok (String a s) || Str.contains tok s) in H.
    apply orb_false_iff in H as [Hp Hc].
    cbn [sub_from]. rewrite match_here_lit, Hp.
    f_equal. rewrite (sub_from_lit_prev s _ None). auto.
Qed.

End Literal.

Lemma sub_lit_here (a : ascii) (t ref post : string) :
  sub (lit (String a t)) (fun _ => ref) (String a t ++ post)
  = ref ++ sub (lit (String a t)) (fun _ => ref) post.
Proof.
  unfold sub.
  pose proof (prefix_append (String a t) post) as Hp.
  pose proof (sub_from_skip (lit (String a t)) (fun _ => ref)
                (String a t) post None) as Hs.
  change (String a t ++ post) with (String a (t ++ post)) in *.
  cbn [sub_from]. rewrite match_here_lit, Hp.
  cbn [taken String.length]. f_equal.
  cbn [String.length last_or sub_from] in Hs.
  rewrite Hs. apply sub_from_lit_prev.
Qed.



End SubFacts.

Module FieldRefFacts.
Import Re StrFacts ReFacts SubFacts FieldMapper.

(** A greedy run fails when its continuation fails wherever the run can
    stop. *)
Lemma many_none (p : ascii -> bool) (bad : string -> bool) (s : string) :
  forall pv n k,
    (forall pv' y n', bad y = true -> k pv' y n' = None) ->
    (forall x y, s = x ++ y -> Str.forallb p x = true -> bad y = true) ->
    many p s pv n k = None.
Proof.
  induction s as [|a s IH]; intros pv n k Hk Hs; simpl.
  - apply Hk. now apply (Hs "" "").
  - assert (Hhere : k pv (String a s) n = None).
    { apply Hk. now apply (Hs "" (String a s)). }
    destruct (p a) eqn:Ha; [|exact Hhere].
    rewrite IH; [exact Hhere | exact Hk |].
    intros x y Hxy Hx. apply (Hs (String a x) y).
    + simpl. now rewrite Hxy.
    + simpl. now rewrite Ha, Hx.
Qed.

Lemma prefix_first (b : ascii) (t : string) (a : ascii) (s : string) :
  a <> b -> prefix (String b t) (String a s) = false.
Proof.
  intros Hab. destruct (prefix (String b t) (String a s)) eqn:E;
    [|reflexivity].
  apply prefix_split in E. simpl in E. injection E as E _. congruence.
Qed.

(** The pattern of a field reference matches only at a dollar sign, and
    does not look at what comes before. *)
Lemma field_pattern_prev (pv pv' : option ascii) (s : string) :
  match_here field_pattern pv s = match_here field_pattern pv' s.
Proof.
  unfold match_here, field_pattern. cbn [seqs]. cbn [exec].
  rewrite !exec_lit. reflexivity.
Qed.

Lemma field_pattern_needs_dollar (pv : option ascii) (s : string) :
  starts_with (Ascii.eqb "$") s = false ->
  match_here field_pattern pv s = None.
Proof.
  intros H. unfold match_here, field_pattern. cbn [seqs]. cbn [exec].
  rewrite exec_lit. cbn [start rest].
  destruct s as [|a s]; [reflexivity|].
  rewrite prefix_first; [reflexivity|].
  cbv [starts_with holds_at first_char] in H.
  apply Ascii.eqb_neq in H. congruence.
Qed.

Section Replace.
Variable f : found -> string.

Lemma sub_field_prev (s : string) :
  forall pv pv' k,
    sub_from field_pattern f pv s k = sub_from field_pattern f pv' s k.
Proof.
  induction s as [|a s IH]; intros pv pv' [|k]; cbn [sub_from]; auto.
Qed.

(** Text without a dollar sign is passed over. *)
Lemma sub_field_plain (pre s : string) :
  Str.existsb (Ascii.eqb "$") pre = false ->
  sub field_pattern f (pre ++ s) = pre ++ sub field_pattern f s.
Proof.
  unfold sub. induction pre as [|a pre IH]; intros H; [reflexivity|].
  simpl in H. apply orb_false_iff in H as [Ha Hpre].
  change (String a pre ++ s) with (String a (pre ++ s)).
  cbn [sub_from].
  rewrite field_pattern_needs_dollar by exact Ha.
  cbn [append]. f_equal.
  rewrite (sub_field_prev _ _ None). now apply IH.
Qed.

(** A match at the start of the text is replaced, and the scan goes on
    after it. *)
Lemma sub_field_here (tok post : string) (c : cursor) :
  tok <> "" ->
  match_here field_pattern None (tok ++ post) = Some c ->
  taken c = String.length tok ->
  sub field_pattern f (tok ++ post)
  = f (Found 0 tok (caps c)) ++ sub field_pattern f post.
Proof.
  intros Hne Hm Ht. unfold sub.
  destruct tok as [|a tok]; [congruence|].
  change (String a tok ++ post) with (String a (tok ++ post)) in *.
  cbn [sub_from]. rewrite Hm, Ht. cbn [String.length].
  assert (Htake : Str.take (S (String.length tok)) (String a (tok ++ post))
                  = String a tok).
  { apply (take_append (String a tok) post). }
  rewrite Htake. f_equal.
  rewrite sub_from_skip. apply sub_field_prev.
Qed.

End Replace.

Lemma not_dot_brace_not_brace (s : string) :
  Str.forallb not_dot_brace s = true -> Str.forallb not_brace s = true.
Proof.
  induction s as [|a s IH]; simpl; [reflexivity|].
  intros H. apply andb_true_iff in H as [Ha Hs]. rewrite (IH Hs).
  unfold not_dot_brace, not_brace in *.
  destruct (Ascii.eqb a "}"); [now rewrite orb_true_r in Ha | reflexivity].
Qed.

(** A reference with a view: [${view.field}]. *)
Lemma match_qualified (pv : option ascii) (v fld post : string) :
  v <> "" -> Str.forallb not_dot_brace v = true ->
  fld <> "" -> Str.forallb not_brace fld = true ->
  exists c,
    match_here field_pattern pv ("${" ++ v ++ "." ++ fld ++ "}" ++ post)
    = Some c
    /\ taken c = String.length ("${" ++ v ++ "." ++ fld ++ "}")
    /\ group 1 c = Some v /\ group 2 c = Some fld.
Proof.
  intros Hv Hvall Hf Hfall.
  destruct v as [|a v']; [congruence|].
  destruct fld as [|b f']; [congruence|].
  simpl in Hvall, Hfall.
  apply andb_true_iff in Hvall as [Ha Hvall].
  apply andb_true_iff in Hfall as [Hb Hfall].
  unfold match_here, field_pattern. cbn [seqs]. cbn [exec].
  rewrite exec_lit. cbn [start rest prev taken caps].
  rewrite prefix_append, drop_append.
  unfold plus. cbn [exec rest prev taken caps append]. rewrite Ha.
  erewrite many_first; [| exact Hvall | | reflexivity]; cycle 1.
  - cbn [exec rest prev taken caps]. unfold chr at 1.
    cbn [exec rest prev taken caps append].
    rewrite Ascii.eqb_refl. cbn [exec rest prev taken caps]. rewrite Hb.
    erewrite many_first; [| exact Hfall | | reflexivity]; cycle 1.
    + cbn [exec rest prev taken caps]. unfold chr.
      cbn [exec rest prev taken caps append]. rewrite Ascii.eqb_refl.
      reflexivity.
    + reflexivity.
  - eexists. split; [reflexivity|]. cbn [taken group caps group_in Nat.eqb].
    split; [|split].
    + cbn [String.length]. rewrite length_append. cbn [String.length].
      rewrite length_append. cbn [String.length]. lia.
    + f_equal.
      match goal with
      | |- Str.take ?n _ = _ =>
          replace n with (String.length (String a v')) by (cbn [String.length]; lia)
      end.
      apply (take_append (String a v')).
    + f_equal.
      match goal with
      | |- Str.take ?n _ = _ =>
          replace n with (String.length (String b f')) by (cbn [String.length]; lia)
      end.
      apply (take_append (String b f')).
Qed.

(** Where a run of characters that are neither a dot nor a brace can be
    cut, no dot follows when the run ends at a brace. *)
Lemma no_dot_after_cut (fld post x y : string) :
  Str.forallb not_dot_brace fld = true ->
  fld ++ String "}" post = x ++ y ->
  Str.forallb not_dot_brace x = true ->
  starts_with (Ascii.eqb ".") y = false.
Proof.
  revert x. induction fld as [|a fld IH]; intros x Hf Hxy Hx.
  - destruct x as [|c x]; simpl in Hxy.
    + now subst y.
    + injection Hxy as <- _. simpl in Hx. discriminate.
  - simpl in Hf. apply andb_true_iff in Hf as [Ha Hf].
    destruct x as [|c x]; simpl in Hxy.
    + subst y. cbv [starts_with holds_at first_char].
      unfold not_dot_brace in Ha. apply negb_true_iff in Ha.
      apply orb_false_iff in Ha as [Ha _].
      rewrite Ascii.eqb_sym. exact Ha.
    + injection Hxy as <- Hxy. simpl in Hx.
      apply andb_true_iff in Hx as [_ Hx]. now apply (IH x).
Qed.

(** A reference without a view: [${field}]. *)
Lemma match_unqualified (pv : option ascii) (fld post : string) :
  fld <> "" -> Str.forallb not_dot_brace fld = true ->
  exists c,
    match_here field_pattern pv ("${" ++ fld ++ "}" ++ post) = Some c
    /\ taken c = String.length ("${" ++ fld ++ "}")
    /\ group 1 c = None /\ group 2 c = Some fld.
Proof.
  intros Hf Hfall.
  pose proof (not_dot_brace_not_brace fld Hfall) as Hnb.
  destruct fld as [|b f']; [congruence|].
  pose proof Hfall as Hfall0.
  simpl in Hfall, Hnb.
  apply andb_true_iff in Hfall as [Hb Hfall].
  apply andb_true_iff in Hnb as [Hb' Hnb].
  unfold match_here, field_pattern. cbn [seqs]. cbn [exec].
  rewrite exec_lit. cbn [start rest prev taken caps].
  rewrite prefix_append, drop_append.
  unfold plus. cbn [exec rest prev taken caps append]. rewrite Hb.
  rewrite (many_none not_dot_brace
             (fun y => negb (starts_with (Ascii.eqb ".") y))).
  - rewrite Hb'.
    erewrite many_first; [| exact Hnb | | reflexivity]; cycle 1.
    + cbn [exec rest prev taken caps]. unfold chr.
      cbn [exec rest prev taken caps append]. rewrite Ascii.eqb_refl.
      reflexivity.
    + eexists. split; [reflexivity|].
      cbn [taken group caps group_in Nat.eqb]. split; [|split].
      * cbn [String.length]. rewrite length_append. cbn [String.length].
        lia.
      * reflexivity.
      * f_equal.
        match goal with
        | |- Str.take ?n _ = _ =>
            replace n with (String.length (String b f'))
              by (cbn [String.length]; lia)
        end.
        apply (take_append (String b f')).
  - intros pv' y n' Hy. apply negb_true_iff in Hy.
    cbn [exec rest prev taken caps]. unfold chr.
    cbn [exec rest prev taken caps].
    destruct y as [|c y]; [reflexivity|].
    cbv [starts_with holds_at first_char] in Hy. now rewrite Hy.
  - intros x y Hxy Hx. apply negb_true_iff.
    now apply (no_dot_after_cut f' post x y).
Qed.

End FieldRefFacts.

Module TemplateFacts.
Import Re StrFacts ReFacts SubFacts Template.

Lemma lexed_raises (ts : list token) (e : exn) :
  lexed ts = Raise e -> e = ReError.
Proof. destruct ts as [|[c|c|] ts]; simpl; congruence. Qed.

Lemma getuntil_raises (ts : list token) :
  forall result n e, getuntil ts result n = Raise e -> e = ReError.
Proof.
  induction ts as [|c ts IH]; intros result n e; cbn [getuntil].
  - congruence.
  - destruct (lexed ts) eqn:L; cbn [bind_outcome].
    + destruct c as [x|y|]; [| |congruence].
      * destruct (Ascii.eqb x ">").
        -- destruct (Str.is_empty result); congruence.
        -- apply IH.
      * apply IH.
    + intros [= <-]. now apply lexed_raises with ts.
Qed.

Ltac raised :=
  repeat match goal with
    | H : Raise _ = Raise _ |- _ => injection H as <-
    | H : Ok _ = Raise _ |- _ => discriminate H
    | H : lexed _ = Raise _ |- _ => apply lexed_raises in H; subst
    | H : getuntil _ _ _ = Raise _ |- _ => apply getuntil_raises in H; subst
    | H : bind_outcome ?o _ = Raise _ |- _ =>
        destruct o eqn:?; cbn [bind_outcome] in H
    | H : (match ?x with _ => _ end) = Raise _ |- _ => destruct x eqn:?
    end.

Lemma turn_raises (this : token) (ts : list token) (e : exn) :
  turn this ts = Raise e -> template_error e.
Proof.
  unfold turn, template_error. intros H. raised; auto.
Qed.

Lemma turns_raises (ts : list token) :
  forall taken e, turns ts taken = Raise e -> template_error e.
Proof.
  induction ts as [|this ts IH]; intros taken e; cbn [turns].
  - discriminate.
  - destruct taken as [|taken]; [|apply IH].
    destruct (turn this ts) as [piece_n|e'] eqn:T; cbn [bind_outcome].
    + destruct (turns ts (snd piece_n)) as [pieces|e'] eqn:R;
        cbn [bind_outcome]; [discriminate|].
      intros [= <-]. now apply IH with (snd piece_n).
    + intros [= <-]. now apply turn_raises with this ts.
Qed.

Lemma parse_template_raises (source : string) (e : exn) :
  parse_template source = Raise e -> template_error e.
Proof.
  unfold parse_template.
  destruct (lexed (tokens source)) eqn:L; cbn [bind_outcome].
  - apply turns_raises.
  - intros [= <-]. left. now apply lexed_raises with (tokens source).
Qed.



Lemma sub_raises (pattern : regex) (repl s : string) (e : exn) :
  sub pattern repl s = Raise e ->
  Str.existsb (Ascii.eqb Chars.backslash) repl = true /\ template_error e.
Proof.
  unfold sub.
  destruct (Str.existsb (Ascii.eqb Chars.backslash) repl);
    [|discriminate].
  destruct (parse_template repl) as [template|e'] eqn:P;
    cbn [bind_outcome]; [discriminate|].
  intros [= <-]. split; [reflexivity|]. now apply parse_template_raises in P.
Qed.

End TemplateFacts.

Module PlaceholderFacts.
Import Re StrFacts ReFacts SubFacts.






End PlaceholderFacts.

(* ================================================================== *)
(** * What the limit patterns match *)
(* ================================================================== *)

Module PhraseFacts.
Import Re StrFacts ReFacts CharFacts.

Section Word.
Variable word : string.
Hypothesis word_starts : starts_with Chars.is_word word = true.

Lemma limit_pattern_sound (pre post : string) (c : cursor) :
  match_here (QueryPlanner.limit_pattern word) (last_char pre) post
  = Some c ->
  exists ds, group 1 c = Some ds /\ phrase_at word pre post ds.
Proof.
  unfold match_here, QueryPlanner.limit_pattern. cbn [seqs].
  cbn [exec start prev rest]. intros H.
  destruct (at_boundary (last_char pre) post) eqn:Hb; [|discriminate].
  rewrite exec_lit in H. cbn [rest prev taken caps start] in H.
  destruct (prefix word post) eqn:Hp; [|discriminate].
  apply prefix_split in Hp.
  set (s1 := Str.drop (String.length word) post) in *.
  unfold plus in H. cbn [exec rest prev taken caps] in H.
  destruct s1 as [|a s1']; [discriminate|].
  destruct (Chars.is_space a) eqn:Ha; [|discriminate].
  apply many_inv in H as (ws' & s2 & -> & Hws & H).
  cbn [exec rest prev taken caps] in H.
  destruct s2 as [|d s3]; [discriminate|].
  destruct (Chars.is_digit d) eqn:Hd; [|discriminate].
  destruct (span_split Chars.is_digit s3)
    as (ds' & rest' & -> & _ & Hds & Hr).
  rewrite many_greedy in H; [|discriminate|assumption|assumption].
  injection H as <-. cbn [group caps group_in Nat.eqb].
  exists (String d ds'). split.
  - f_equal.
    match goal with
    | |- Str.take ?n _ = _ =>
        replace n with (String.length (String d ds'))
          by (simpl; destruct (String.length word + String.length ws');
              lia)
    end.
    apply (take_append (String d ds') rest').
  - exists (String a ws'), rest'. repeat split; auto; try discriminate.
    + unfold at_boundary in Hb. rewrite Hp in Hb.
      destruct word as [|w0 word']; [discriminate|].
      cbv [starts_with holds_at first_char] in word_starts.
      simpl in Hb. rewrite word_starts in Hb.
      now destruct (word_before (last_char pre)).
    + simpl. now rewrite Ha, Hws.
    + simpl. now rewrite Hd, Hds.
Qed.

Lemma limit_pattern_complete (pre post ds : string) :
  phrase_at word pre post ds ->
  exists c,
    match_here (QueryPlanner.limit_pattern word) (last_char pre) post
    = Some c
    /\ group 1 c = Some ds.
Proof.
  intros (ws & rest' & -> & Hb & Hwne & Hws & Hdne & Hds & Hr).
  destruct ws as [|a ws']; [congruence|].
  destruct ds as [|d ds']; [congruence|].
  simpl in Hws, Hds.
  apply andb_true_iff in Hws as [Ha Hws].
  apply andb_true_iff in Hds as [Hd Hds].
  unfold match_here, QueryPlanner.limit_pattern. cbn [seqs].
  cbn [exec start prev rest].
  assert (Hbound : at_boundary (last_char pre)
                     (word ++ String a ws' ++ String d ds' ++ rest')
                   = true).
  { unfold at_boundary. rewrite Hb.
    destruct word as [|w0 word']; [discriminate|].
    cbv [starts_with holds_at first_char] in word_starts.
    simpl. now rewrite word_starts. }
  rewrite Hbound, exec_lit. cbn [rest prev taken caps start].
  rewrite prefix_append, drop_append.
  unfold plus. cbn [exec rest prev taken caps append]. rewrite Ha.
  erewrite many_first; [| exact Hws | | ]; cycle 1.
  - cbn [exec rest prev taken caps]. rewrite Hd.
    rewrite many_greedy;
      [reflexivity | discriminate | exact Hds | exact Hr].
  - cbv [starts_with holds_at first_char]. now apply digit_not_space.
  - eexists. split; [reflexivity|].
    cbn [group caps group_in Nat.eqb]. f_equal.
    match goal with
    | |- Str.take ?n _ = _ =>
        replace n with (String.length (String d ds'))
          by (simpl; destruct (String.length word + String.length ws');
              lia)
    end.
    apply (take_append (String d ds') rest').
Qed.

End Word.

(** What [re.search] finds for one of the limit patterns. *)
Lemma search_limit_found (word text : string) (m : found) :
  starts_with Chars.is_word word = true ->
  search (QueryPlanner.limit_pattern word) text = Some m ->
  exists ds, fgroup 1 m = Some ds /\ first_phrase word text ds.
Proof.
  intros Hw H. unfold search in H.
  apply search_from_some in H as (pre & post & c & -> & Hm & -> & Hearly).
  rewrite last_or_none in Hm.
  destruct (limit_pattern_sound word Hw pre post c Hm) as (ds & Hg & Hph).
  exists ds. split; [exact Hg|].
  exists pre, post. repeat split; auto.
  intros pre' post' ds' Hs Hlen Hph'.
  destruct (limit_pattern_complete word Hw pre' post' ds' Hph')
    as (c' & Hc' & _).
  specialize (Hearly pre' post' Hs Hlen).
  rewrite last_or_none in Hearly. congruence.
Qed.

Lemma search_limit_none (word text : string) :
  starts_with Chars.is_word word = true ->
  search (QueryPlanner.limit_pattern word) text = None ->
  no_phrase word text.
Proof.
  intros Hw H pre post ds Hs Hph. unfold search in H.
  pose proof (search_from_none _ _ _ _ H pre post Hs) as Hn.
  rewrite last_or_none in Hn.
  destruct (limit_pattern_complete word Hw pre post ds Hph) as (c & Hc & _).
  congruence.
Qed.

Lemma first_phrase_found (word text ds : string) :
  starts_with Chars.is_word word = true ->
  first_phrase word text ds ->
  exists m,
    search (QueryPlanner.limit_pattern word) text = Some m
    /\ fgroup 1 m = Some ds.
Proof.
  intros Hw (pre & post & -> & Hph & Hearly).
  destruct (limit_pattern_complete word Hw pre post ds Hph) as (c & Hc & Hg).
  eexists. split.
  - unfold search. apply search_from_first with (c := c).
    + now rewrite last_or_none.
    + intros pre' post' Hs Hlen. rewrite last_or_none.
      destruct (match_here _ (last_char pre') post') as [c'|] eqn:E;
        [|reflexivity].
      destruct (limit_pattern_sound word Hw pre' post' c' E)
        as (ds' & _ & Hph').
      now destruct (Hearly pre' post' ds' Hs Hlen).
  - exact Hg.
Qed.

Lemma first_phrase_excludes_none (word text ds : string) :
  first_phrase word text ds -> no_phrase word text -> False.
Proof.
  intros (pre & post & Hs & Hph & _) Hn. exact (Hn pre post ds Hs Hph).
Qed.

Lemma first_phrase_unique (word text ds ds' : string) :
  starts_with Chars.is_word word = true ->
  first_phrase word text ds -> first_phrase word text ds' -> ds = ds'.
Proof.
  intros Hw H H'.
  destruct (first_phrase_found word text ds Hw H) as (m & Hm & Hg).
  destruct (first_phrase_found word text ds' Hw H') as (m' & Hm' & Hg').
  congruence.
Qed.

End PhraseFacts.

Module LimitRequestFacts.
Import PhraseFacts QueryPlanner.

Lemma requested_limit_digits (text : string) (n : Z) :
  requested_limit text n
  <-> exists ds, requested_digits text ds /\ n = Str.to_Z ds.
Proof.
  split.
  - intros [ds H|ds N1 H|ds N1 N2 H]; exists ds; split; try reflexivity.
    + now apply digits_by_limit.
    + now apply digits_by_top.
    + now apply digits_by_first.
  - intros (ds & [ds' H|ds' N1 H|ds' N1 N2 H] & ->).
    + now apply requested_by_limit.
    + now apply requested_by_top.
    + now apply requested_by_first.
Qed.

Lemma requested_digits_unique (text ds ds' : string) :
  requested_digits text ds -> requested_digits text ds' -> ds = ds'.
Proof.
  intros H H'.
  destruct H as [ds H|ds N1 H|ds N1 N2 H];
    destruct H' as [ds' H'|ds' N1' H'|ds' N1' N2' H'];
    try (eapply first_phrase_unique; eauto; reflexivity);
    exfalso; eauto using first_phrase_excludes_none.
Qed.

Lemma requested_digits_excludes_none (text ds : string) :
  requested_digits text ds -> no_requested_limit text -> False.
Proof.
  intros H (N1 & N2 & N3).
  destruct H; eauto using first_phrase_excludes_none.
Qed.

Lemma requested_limit_unique (text : string) (n n' : Z) :
  requested_limit text n -> requested_limit text n' -> n = n'.
Proof.
  intros H H'.
  apply requested_limit_digits in H as (ds & H & ->).
  apply requested_limit_digits in H' as (ds' & H' & ->).
  f_equal. eapply requested_digits_unique; eauto.
Qed.

Lemma requested_limit_excludes_none (text : string) (n : Z) :
  requested_limit text n -> no_requested_limit text -> False.
Proof.
  intros H. apply requested_limit_digits in H as (ds & H & _).
  now apply requested_digits_excludes_none with ds.
Qed.

Lemma of_digits_converted (text ds : string) :
  requested_digits text ds ->
  converted text
    (bind_outcome (PyInt.of_digits ds) (fun n => Ok (Some n))).
Proof.
  intros H. unfold PyInt.of_digits.
  destruct (PyInt.max_str_digits <? String.length ds) eqn:L;
    cbn [bind_outcome converted]; exists ds.
  - apply Nat.ltb_lt in L. auto.
  - apply Nat.ltb_ge in L. auto.
Qed.

(** [_extract_limit] returns the requested limit, [None] when the text
    has none of the three phrases, and raises when the digits of the
    request are more than [int] converts. *)
Lemma extract_limit_spec (query : string) :
  converted (Str.lower query) (_extract_limit query).
Proof.
  unfold _extract_limit, limit_patterns. cbn [first_limit].
  set (text := Str.lower query).
  destruct (Re.search (limit_pattern "limit") text) as [m|] eqn:E1.
  { destruct (search_limit_found "limit" text m eq_refl E1) as (ds & -> & H).
    cbn [or_empty]. apply of_digits_converted. now apply digits_by_limit. }
  pose proof (search_limit_none "limit" text eq_refl E1) as N1.
  destruct (Re.search (limit_pattern "top") text) as [m|] eqn:E2.
  { destruct (search_limit_found "top" text m eq_refl E2) as (ds & -> & H).
    cbn [or_empty]. apply of_digits_converted. now apply digits_by_top. }
  pose proof (search_limit_none "top" text eq_refl E2) as N2.
  destruct (Re.search (limit_pattern "first") text) as [m|] eqn:E3.
  { destruct (search_limit_found "first" text m eq_refl E3) as (ds & -> & H).
    cbn [or_empty]. apply of_digits_converted. now apply digits_by_first. }
  pose proof (search_limit_none "first" text eq_refl E3) as N3.
  repeat split; assumption.
Qed.

Lemma extract_limit_ok (query : string) (extracted : option Z) :
  _extract_limit query = Ok extracted ->
  match extracted with
  | Some n => requested_limit (Str.lower query) n
  | None => no_requested_limit (Str.lower query)
  end.
Proof.
  intros E. pose proof (extract_limit_spec query) as Hs.
  rewrite E in Hs. destruct extracted as [n|]; [|exact Hs].
  destruct Hs as (ds & H & _ & ->).
  apply requested_limit_digits. eauto.
Qed.

Lemma extract_limit_requested (query : string) (extracted : option Z)
    (n : Z) :
  _extract_limit query = Ok extracted ->
  requested_limit (Str.lower query) n -> extracted = Some n.
Proof.
  intros E H. apply extract_limit_ok in E.
  destruct extracted as [n'|].
  - f_equal. eapply requested_limit_unique; eauto.
  - exfalso. eapply requested_limit_excludes_none; eauto.
Qed.

Lemma extract_limit_not_requested (query : string)
    (extracted : option Z) :
  _extract_limit query = Ok extracted ->
  no_requested_limit (Str.lower query) -> extracted = None.
Proof.
  intros E H. apply extract_limit_ok in E.
  destruct extracted as [n'|]; [|reflexivity].
  exfalso. eapply requested_limit_excludes_none; eauto.
Qed.

Lemma requested_digits_are_digits (text ds : string) :
  requested_digits text ds ->
  Str.forallb Chars.is_digit ds = true /\ ds <> "".
Proof.
  assert (H : forall word x, first_phrase word text x ->
                Str.forallb Chars.is_digit x = true /\ x <> "").
  { intros word x
      (pre & post & _ & (ws & rest & _ & _ & _ & _ & Hne & Hd & _) & _).
    auto. }
  intros [ds' Hp|ds' _ Hp|ds' _ _ Hp]; eapply H; exact Hp.
Qed.

(** A limit that [_extract_limit] returns can be printed. *)
Lemma extracted_limit_prints (query : string) (n : Z) :
  _extract_limit query = Ok (Some n) ->
  String.length (Str.of_Z (Z.abs n)) <= PyInt.max_str_digits.
Proof.
  intros E. pose proof (extract_limit_spec query) as Hs.
  rewrite E in Hs. destruct Hs as (ds & Hds & L & ->).
  apply requested_digits_are_digits in Hds as [Hd Hne].
  pose proof (DecimalFacts.printed_no_longer ds Hd Hne). lia.
Qed.

(** [_extract_limit] raises exactly on a request of too many digits. *)
Lemma extract_limit_raises (query ds : string) :
  requested_digits (Str.lower query) ds ->
  PyInt.max_str_digits < String.length ds ->
  _extract_limit query = Raise (ValueError (PyInt.too_many_digits ds)).
Proof.
  intros H L. pose proof (extract_limit_spec query) as Hs.
  destruct (_extract_limit query) as [[n|]|e]; cbn [converted] in Hs.
  - destruct Hs as (ds' & H' & L' & _).
    rewrite (requested_digits_unique _ _ _ H H') in L. lia.
  - exfalso. eapply requested_digits_excludes_none; eauto.
  - destruct Hs as (ds' & H' & _ & ->).
    now rewrite (requested_digits_unique _ _ _ H H').
Qed.

Lemma extract_limit_returns (query : string) :
  (forall ds, requested_digits (Str.lower query) ds ->
              String.length ds <= PyInt.max_str_digits) ->
  exists extracted, _extract_limit query = Ok extracted.
Proof.
  intros Hshort. pose proof (extract_limit_spec query) as Hs.
  destruct (_extract_limit query) as [o|e]; [eauto|].
  destruct Hs as (ds & H & L & _). apply Hshort in H. lia.
Qed.

End LimitRequestFacts.

Module LimitClauseFacts.
Import Re StrFacts ReFacts CharFacts DecimalFacts SQLBuilder.

Lemma keyword_starts_word (kw s : string) :
  Str.lower kw = "limit" -> word_after (kw ++ s) = true.
Proof.
  destruct kw as [|c kw]; [discriminate|]. simpl. intros H.
  injection H as H _. now apply lower_l_is_word.
Qed.

Lemma last_digit (ds : string) (d : ascii) :
  Chars.is_digit d = true ->
  Str.forallb Chars.is_digit ds = true ->
  holds_at Chars.is_digit (last_or (Some d) ds) = true.
Proof.
  revert d; induction ds as [|c ds IH]; simpl; intros d Hd Hall; auto.
  apply andb_true_iff in Hall as [Hc Hs]. now apply IH.
Qed.

Lemma last_digit_word (ds : string) (pv : option ascii) :
  ds <> "" -> Str.forallb Chars.is_digit ds = true ->
  word_before (last_or pv ds) = true.
Proof.
  intros Hne Hds. destruct ds as [|d ds]; [congruence|].
  simpl in Hds. apply andb_true_iff in Hds as [Hd Hds]. simpl.
  pose proof (last_digit ds d Hd Hds) as H.
  destruct (last_or (Some d) ds) as [e|]; [|discriminate].
  simpl in *. now apply digit_is_word.
Qed.

Lemma limit_clause_sound (pre post : string) (c : cursor) :
  match_here limit_clause_pattern (last_char pre) post = Some c ->
  limit_clause_at pre post.
Proof.
  unfold match_here, limit_clause_pattern. cbn [seqs].
  cbn [exec start prev rest]. intros H.
  destruct (at_boundary (last_char pre) post) eqn:Hb; [|discriminate].
  apply exec_lit_ci_inv in H as (kw & s1 & Hs & Hl & H).
  cbn [rest prev taken caps start] in Hs, H. subst post.
  unfold plus in H. cbn [exec rest prev taken caps] in H.
  destruct s1 as [|a s1']; [discriminate|].
  destruct (Chars.is_space a) eqn:Ha; [|discriminate].
  apply many_inv in H as (ws' & s2 & -> & Hws & H).
  cbn [exec rest prev taken caps] in H.
  destruct s2 as [|d s3]; [discriminate|].
  destruct (Chars.is_digit d) eqn:Hd; [|discriminate].
  apply many_inv in H as (ds' & rest' & -> & Hds & H).
  destruct (at_boundary (last_or (Some d) ds') rest') eqn:He;
    [|discriminate].
  exists kw, (String a ws'), (String d ds'), rest'.
  repeat split; auto; try discriminate.
  - unfold at_boundary in Hb.
    rewrite (keyword_starts_word kw _ Hl) in Hb.
    now destruct (word_before (last_char pre)).
  - simpl. now rewrite Ha, Hws.
  - simpl. now rewrite Hd, Hds.
  - unfold at_boundary in He.
    assert (Hw : word_before (last_or (Some d) ds') = true).
    { apply (last_digit_word (String d ds') None); [discriminate|].
      simpl. now rewrite Hd, Hds. }
    rewrite Hw in He. now destruct (word_after rest').
Qed.

Lemma limit_clause_complete (pre post : string) :
  limit_clause_at pre post ->
  match_here limit_clause_pattern (last_char pre) post <> None.
Proof.
  intros (kw & ws & ds & rest' & -> & Hl & Hb & Hwne & Hws & Hdne & Hds & Hr).
  destruct ws as [|a ws']; [congruence|].
  destruct ds as [|d ds'] eqn:Eds; [congruence|].
  simpl in Hws, Hds.
  apply andb_true_iff in Hws as [Ha Hws].
  apply andb_true_iff in Hds as [Hd Hds].
  unfold match_here, limit_clause_pattern. cbn [seqs].
  cbn [exec start prev rest].
  assert (Hbound : at_boundary (last_char pre)
                     (kw ++ String a ws' ++ String d ds' ++ rest') = true).
  { unfold at_boundary. now rewrite Hb, (keyword_starts_word kw _ Hl). }
  rewrite Hbound.
  rewrite (exec_lit_ci_here "LIMIT" kw
             (String a ws' ++ String d ds' ++ rest'));
    [|reflexivity|exact Hl].
  unfold plus. cbn [exec rest prev taken caps append]. rewrite Ha.
  assert (Hrest : starts_with Chars.is_digit rest' = false).
  { destruct rest' as [|e rest'']; [reflexivity|].
    cbv [starts_with holds_at first_char]. simpl in Hr.
    destruct (Chars.is_digit e) eqn:E; [|reflexivity].
    apply digit_is_word in E. congruence. }
  erewrite many_first; [discriminate | exact Hws | | ].
  - cbn [exec rest prev taken caps]. rewrite Hd.
    erewrite many_first; [reflexivity | exact Hds | | exact Hrest].
    unfold at_boundary. rewrite Hr.
    assert (Hw : word_before (last_or (Some d) ds') = true).
    { apply (last_digit_word (String d ds') None); [discriminate|].
      simpl. now rewrite Hd, Hds. }
    now rewrite Hw.
  - cbv [starts_with holds_at first_char]. now apply digit_not_space.
Qed.

(** [enforce_limit] finds a LIMIT clause exactly where there is one. *)
Lemma has_limit_spec (sql : string) :
  has_limit sql = true <-> has_limit_clause sql.
Proof.
  unfold has_limit, search. split.
  - destruct (search_from limit_clause_pattern None sql 0) as [m|] eqn:E;
      [|discriminate].
    intros _. apply search_from_some in E as (pre & post & c & -> & Hm & _).
    rewrite last_or_none in Hm.
    exists pre, post. split; [reflexivity|].
    now apply limit_clause_sound with c.
  - intros (pre & post & -> & H).
    destruct (search_from limit_clause_pattern None (pre ++ post) 0) eqn:E;
      [reflexivity|].
    pose proof (search_from_none _ _ _ _ E pre post eq_refl) as Hn.
    rewrite last_or_none in Hn.
    now apply limit_clause_complete in H.
Qed.

(** The clause that [enforce_limit] appends is one that it recognises. *)
Lemma appended_limit_clause (sql : string) (n : Z) :
  (0 <= n)%Z ->
  has_limit_clause
    (sql ++ String Chars.newline "" ++ "LIMIT " ++ Str.of_Z n).
Proof.
  intros Hn. destruct (of_Z_digits n Hn) as [Hall Hne].
  exists (sql ++ String Chars.newline ""), ("LIMIT " ++ Str.of_Z n).
  split; [now rewrite append_assoc|].
  exists "LIMIT", " ", (Str.of_Z n), "".
  repeat split; auto; try discriminate.
  - now rewrite append_empty_r.
  - now rewrite <- last_or_none, last_or_append.
Qed.

End LimitClauseFacts.

(* ================================================================== *)
(** * Facts about joins, flattening, scores and plans *)
(* ================================================================== *)

Module JoinFacts.
Import SQLBuilder PySetFacts.

Lemma for_each_ext {A B : Type} (f g : A -> Build.M B) (l : list A) :
  (forall x m, f x m = g x m) ->
  forall m, Build.for_each f l m = Build.for_each g l m.
Proof.
  intros Hfg. induction l as [|x l IH]; intros m; simpl; [reflexivity|].
  unfold Build.bind. rewrite Hfg.
  destruct (g x m) as [[y|e] m']; [|reflexivity]. now rewrite IH.
Qed.

(** A declared join whose view has no table adds no clause and leaves the
    aliases alone, required or not. *)
Lemma join_clause_without (all_views : Dict.t LookMLView) (v : string)
    (req : PySet.t) (j : LookMLJoin) (m : FieldMapper.t) :
  has_table all_views v = false ->
  join_clause all_views req j m = join_clause all_views (without v req) j m.
Proof.
  intros Hv. unfold join_clause. rewrite mem_without.
  destruct (String.eqb (join_view_name j) v) eqn:E.
  - apply String.eqb_eq in E. rewrite andb_false_r.
    unfold has_table in Hv. rewrite <- E in Hv.
    destruct (PySet.mem (join_view_name j) req); [|reflexivity].
    destruct (Dict.get (join_view_name j) all_views); [|reflexivity].
    now rewrite Hv.
  - now rewrite andb_true_r.
Qed.

Lemma for_each_none (all_views : Dict.t LookMLView) (js : list LookMLJoin)
    (m : FieldMapper.t) :
  exists cs,
    Build.for_each (join_clause all_views []) js m = (Ok cs, m)
    /\ present cs = [].
Proof.
  induction js as [|j js (cs & H & Hp)]; simpl.
  - exists []. auto.
  - exists (None :: cs). unfold Build.bind at 1.
    change (join_clause all_views [] j m) with (@Ok (option string) None, m).
    unfold Build.bind. rewrite H. auto.
Qed.

Lemma build_join_clauses_without (idx : GroundingIndex.t)
    (ei : ExploreInfo) (v : string) (req : PySet.t) (m : FieldMapper.t) :
  has_table (get_all_views (GroundingIndex.lookml_project idx)) v = false ->
  _build_join_clauses idx ei req m
  = _build_join_clauses idx ei (without v req) m.
Proof.
  intros Hv. unfold _build_join_clauses.
  destruct (Dict.get _ _) as [explore|]; [|reflexivity].
  unfold Build.bind.
  rewrite (for_each_ext
             (join_clause (get_all_views (GroundingIndex.lookml_project idx))
                          req)
             (join_clause (get_all_views (GroundingIndex.lookml_project idx))
                          (without v req)));
    [reflexivity|].
  intros j m'. now apply join_clause_without.
Qed.

Lemma build_join_clauses_empty (idx : GroundingIndex.t)
    (ei : ExploreInfo) (m : FieldMapper.t) :
  _build_join_clauses idx ei [] m = (Ok [], m).
Proof.
  unfold _build_join_clauses.
  destruct (Dict.get _ _) as [explore|]; [|reflexivity].
  unfold Build.bind.
  destruct (for_each_none (get_all_views (GroundingIndex.lookml_project idx))
              (joins explore) m) as (cs & -> & ->).
  reflexivity.
Qed.

Lemma build_from_clause_without (idx : GroundingIndex.t)
    (ei : ExploreInfo) (v : string) (req : PySet.t) (m : FieldMapper.t) :
  has_table (get_all_views (GroundingIndex.lookml_project idx)) v = false ->
  _build_from_clause idx ei req m
  = _build_from_clause idx ei (without v req) m.
Proof.
  intros Hv. unfold _build_from_clause.
  destruct (Dict.get _ _) as [base|]; [|reflexivity].
  destruct (negb _); [reflexivity|].
  unfold Build.bind, Build.write.
  set (m' := FieldMapper.set_table_alias _ _ m).
  pose proof (build_join_clauses_without idx ei v req m' Hv) as H.
  destruct req as [|x req].
  - reflexivity.
  - destruct (without v (x :: req)) eqn:E.
    + rewrite H, build_join_clauses_empty. reflexivity.
    + rewrite H. reflexivity.
Qed.

(** Without a table behind the base view there is no FROM clause. *)
Lemma build_from_clause_raises (idx : GroundingIndex.t)
    (ei : ExploreInfo) (req : PySet.t) (m : FieldMapper.t) :
  has_table (get_all_views (GroundingIndex.lookml_project idx))
            (base_view ei) = false ->
  _build_from_clause idx ei req m
  = (Raise (ValueError ("Base view " ++ base_view ei
                        ++ " not found or missing sql_table_name")), m).
Proof.
  unfold has_table, _build_from_clause. intros H.
  destruct (Dict.get _ _) as [base|]; [|reflexivity].
  now rewrite H.
Qed.

End JoinFacts.

Module FlattenFacts.
Import DictFacts.

Lemma fold_update_get {V : Type} (k : string) (layers : list (Dict.t V)) :
  forall d,
    Dict.get k (fold_left Dict.update layers d)
    = match lookup_last k layers with
      | Some v => Some v
      | None => Dict.get k d
      end.
Proof.
  induction layers as [|l layers IH]; intros d; simpl; [reflexivity|].
  rewrite IH, get_update. now destruct (lookup_last k layers).
Qed.

Lemma fold_update_NoDup {V : Type} (layers : list (Dict.t V)) :
  forall d, NoDup (Dict.keys d) ->
            NoDup (Dict.keys (fold_left Dict.update layers d)).
Proof.
  induction layers as [|l layers IH]; intros d H; simpl; auto.
  apply IH. now apply update_NoDup.
Qed.

Lemma get_all_views_layers (p : LookMLProject) :
  get_all_views p
  = fold_left Dict.update
      (views p :: List.map model_views (Dict.values (models p)))
      Dict.empty.
Proof.
  unfold get_all_views. simpl.
  generalize (Dict.update Dict.empty (views p)).
  induction (Dict.values (models p)) as [|m ms IH]; intros d; simpl; auto.
Qed.

Lemma get_all_explores_layers (p : LookMLProject) :
  get_all_explores p
  = fold_left Dict.update
      (List.map qualified_explores (Dict.values (models p)))
      Dict.empty.
Proof.
  unfold get_all_explores.
  generalize (@Dict.empty LookMLExplore).
  induction (Dict.values (models p)) as [|m ms IH]; intros d; simpl; auto.
  rewrite IH. f_equal.
  unfold Dict.update, qualified_explores, Dict.items.
  generalize d. induction (model_explores m) as [|kv es IHe]; intros d';
    simpl; auto.
Qed.

End FlattenFacts.

Module SortFacts.
Section WithKey.
Context {A : Type} (key : A -> nat).

Lemma insert_desc_perm (x : A) (l : list A) :
  Permutation (insert_desc key x l) (x :: l).
Proof.
  induction l as [|y l IH]; simpl; [reflexivity|].
  destruct (key x <? key y); [|reflexivity].
  rewrite IH. apply perm_swap.
Qed.

Lemma sorted_desc_perm (l : list A) : Permutation (sorted_desc key l) l.
Proof.
  induction l as [|x l IH]; simpl; [reflexivity|].
  rewrite insert_desc_perm. now constructor.
Qed.

Lemma insert_desc_sorted (x : A) (l : list A) :
  StronglySorted (desc key) l ->
  StronglySorted (desc key) (insert_desc key x l).
Proof.
  induction 1 as [|y l Hs IH Hall]; simpl.
  - repeat constructor.
  - destruct (key x <? key y) eqn:E.
    + apply Nat.ltb_lt in E. constructor; [assumption|].
      apply (Permutation_Forall (x := x :: l)).
      * symmetry. apply insert_desc_perm.
      * constructor; [unfold desc; lia | assumption].
    + apply Nat.ltb_ge in E. constructor.
      * now constructor.
      * constructor; [exact E|].
        eapply Forall_impl; [|exact Hall].
        unfold desc. intros; lia.
Qed.

Lemma sorted_desc_sorted (l : list A) :
  StronglySorted (desc key) (sorted_desc key l).
Proof.
  induction l as [|x l IH]; simpl; [constructor|].
  now apply insert_desc_sorted.
Qed.

(** Stability: the items of one key keep the order they came in. *)
Lemma insert_desc_stable (v : nat) (x : A) (l : list A) :
  filter (fun a => key a =? v) (insert_desc key x l)
  = filter (fun a => key a =? v) (x :: l).
Proof.
  induction l as [|y l IH]; simpl; [reflexivity|].
  destruct (key x <? key y) eqn:E; [|reflexivity].
  apply Nat.ltb_lt in E. simpl. rewrite IH. simpl.
  destruct (key x =? v) eqn:Ex, (key y =? v) eqn:Ey; try reflexivity.
  apply Nat.eqb_eq in Ex, Ey. lia.
Qed.

Lemma sorted_desc_stable (v : nat) (l : list A) :
  filter (fun a => key a =? v) (sorted_desc key l)
  = filter (fun a => key a =? v) l.
Proof.
  induction l as [|x l IH]; simpl; [reflexivity|].
  rewrite insert_desc_stable. simpl. now rewrite IH.
Qed.

(** The first item of the sorted list is the first of the items of the
    highest key. *)
Lemma sorted_desc_head (l : list A) (x : A) (rest : list A) :
  sorted_desc key l = x :: rest ->
  exists pre post,
    l = (pre ++ x :: post)%list
    /\ (forall y, In y pre -> key y < key x)
    /\ (forall y, In y post -> key y <= key x).
Proof.
  revert x rest. induction l as [|a l IH]; intros x rest; simpl;
    [discriminate|].
  destruct (sorted_desc key l) as [|y r] eqn:E.
  - simpl. intros [= <- <-].
    pose proof (sorted_desc_perm l) as Hp. rewrite E in Hp.
    apply Permutation_nil in Hp. subst l.
    exists [], []. repeat split; intros ? [].
  - destruct (IH y r eq_refl) as (pre & post & -> & Hpre & Hpost).
    simpl. destruct (key a <? key y) eqn:L.
    + apply Nat.ltb_lt in L. intros [= <- <-].
      exists (a :: pre), post. repeat split; [|exact Hpost].
      intros z [<-|Hz]; [exact L | now apply Hpre].
    + apply Nat.ltb_ge in L. intros [= <- <-].
      exists [], (pre ++ y :: post)%list. repeat split; [intros ? []|].
      intros z Hz. apply in_app_or in Hz as [Hz|[<-|Hz]].
      * apply Hpre in Hz. lia.
      * exact L.
      * apply Hpost in Hz. lia.
Qed.

End WithKey.

(** The place of an item of a filtered image in the list it comes from. *)
Lemma filter_map_split {A B : Type} (p : B -> bool) (g : A -> B)
    (l : list A) :
  forall a x b,
    filter p (List.map g l) = (a ++ x :: b)%list ->
    exists l1 y l2,
      l = (l1 ++ y :: l2)%list /\ g y = x /\ p x = true
      /\ filter p (List.map g l1) = a
      /\ filter p (List.map g l2) = b.
Proof.
  induction l as [|z l IH]; intros a x b; simpl.
  - destruct a; discriminate.
  - destruct (p (g z)) eqn:E.
    + destruct a as [|a0 a].
      * simpl. intros [= <- <-]. exists [], z, l. simpl. auto.
      * simpl. intros [= <- H].
        destruct (IH a x b H) as (l1 & y & l2 & -> & Hy & Hp & H1 & H2).
        exists (z :: l1), y, l2. simpl. rewrite E, H1. auto.
    + intros H.
      destruct (IH a x b H) as (l1 & y & l2 & -> & Hy & Hp & H1 & H2).
      exists (z :: l1), y, l2. simpl. rewrite E. auto.
Qed.

End SortFacts.

Module ScoreFacts.
Import Retrieval DictFacts.

Lemma fold_count {A : Type} (p : A -> bool) (w : nat) (l : list A) :
  forall s,
    fold_left (fun score x => if p x then score + w else score) l s
    = s + w * List.length (filter p l).
Proof.
  induction l as [|x l IH]; intros s; simpl; [lia|].
  rewrite IH. destruct (p x); simpl; lia.
Qed.

(** The loops of [find_relevant_explores] add up to the closed form. *)
Lemma score_explore_closed (idx : GroundingIndex.t) (terms : list string)
    (ei : ExploreInfo) :
  forall s, score_explore idx terms ei s = s + relevance idx terms ei.
Proof.
  unfold score_explore, relevance, list_sum.
  induction terms as [|t terms IH]; intros s;
    cbn [fold_left List.map fold_right]; [lia|].
  rewrite IH. generalize (fold_right Nat.add 0
    (List.map (fun term => 2 * name_hits term ei + glossary_hits idx term ei)
              terms)).
  intros rest. unfold name_hits, glossary_hits.
  rewrite (fold_count _ 2).
  destruct (Dict.get (Str.lower t) (GroundingIndex.field_glossary idx)).
  - rewrite (fold_count _ 1). lia.
  - lia.
Qed.

(** With distinct keys, the loop that fills [explore_scores] keeps the
    explores of positive score in the order of the index. *)
Lemma fold_scores (sc : ExploreInfo -> nat) (l : Dict.t ExploreInfo) :
  forall acc : Dict.t nat,
    NoDup (Dict.keys acc ++ Dict.keys l)%list ->
    fold_left
      (fun scores kv =>
         if 0 <? sc (snd kv) then Dict.set (fst kv) (sc (snd kv)) scores
         else scores)
      l acc
    = (acc ++ filter (fun ns => 0 <? snd ns)
                     (List.map (fun kv => (fst kv, sc (snd kv))) l))%list.
Proof.
  induction l as [|[k ei] l IH]; intros acc H; simpl.
  - now rewrite app_nil_r.
  - simpl in H. destruct (0 <? sc ei) eqn:E.
    + rewrite IH.
      * rewrite set_fresh.
        -- now rewrite <- app_assoc.
        -- intros Hin. apply NoDup_remove_2 in H. apply H.
           apply in_or_app. now left.
      * rewrite keys_set.
        destruct (Dict.mem k acc) eqn:Hm.
        -- apply mem_In_keys in Hm. apply NoDup_remove_2 in H.
           exfalso. apply H. apply in_or_app. now left.
        -- rewrite <- app_assoc. exact H.
    + apply IH. now apply NoDup_remove_1 in H.
Qed.

Lemma explore_scores_closed (idx : GroundingIndex.t) (terms : list string) :
  NoDup (Dict.keys (GroundingIndex.explores idx)) ->
  explore_scores idx terms
  = filter (fun ns => 0 <? snd ns)
      (List.map (fun kv => (fst kv, relevance idx terms (snd kv)))
                (GroundingIndex.explores idx)).
Proof.
  intros H. unfold explore_scores, Dict.items.
  rewrite (fold_scores (fun ei => score_explore idx terms ei 0)); [|exact H].
  simpl. f_equal. apply map_ext. intros [k ei]. simpl.
  now rewrite score_explore_closed.
Qed.

End ScoreFacts.

Module PlannerFacts.
Import QueryPlanner PySetFacts.

Section WithSetOrder.
Variable set_order : PySet.t -> list string.

Lemma required_joins_bound (p : QueryPlanner.t) (explore : string)
    (fields : list FieldInfo) (joins : PySet.t) :
  (0 <= max_joins p)%Z ->
  _determine_required_joins set_order p explore fields = Ok joins ->
  (Z.of_nat (PySet.size joins) <= max_joins p)%Z /\ NoDup joins.
Proof.
  intros Hm. unfold _determine_required_joins.
  destruct (GroundingIndex.get_explore_by_name _ _) as [ei|].
  2:{ intros [= <-]. split; [simpl; lia | constructor]. }
  set (req := fold_left _ fields PySet.empty).
  assert (Hreq : NoDup req).
  { apply fold_add_NoDup; [|constructor].
    intros s a Hs.
    destruct (negb _); [now apply add_NoDup | assumption]. }
  destruct (max_joins p <? Z.of_nat (PySet.size req))%Z eqn:E.
  - destruct (PyInt.to_str (max_joins p)); cbn [bind_outcome];
      [|discriminate].
    intros [= <-]. split; [|apply of_list_NoDup].
    pose proof (of_list_size (slice_to (max_joins p) (set_order req))).
    pose proof (slice_to_length (max_joins p) (set_order req) Hm). lia.
  - intros [= <-]. apply Z.ltb_ge in E. split; assumption.
Qed.

(** The plan that [plan_query] returns, field by field. *)
Lemma plan_query_inv (p : QueryPlanner.t) (query : string) (d : Z)
    (plan : QueryPlan) :
  plan_query set_order p query d = Ok (Some plan) ->
  exists explore fields extracted joins,
    _select_explore p (_extract_query_terms query) = Some explore
    /\ _select_fields p explore (_extract_query_terms query) query
       = Ok fields
    /\ fields <> []
    /\ _extract_limit query = Ok extracted
    /\ _determine_required_joins set_order p explore fields = Ok joins
    /\ plan =
       {| explore_name := explore;
          selected_fields := fields;
          required_joins := joins;
          filters := _extract_basic_filters query fields;
          limit := Some (match extracted with
                         | Some n => if (n =? 0)%Z then d else n
                         | None => d
                         end);
          has_aggregation := List.existsb is_measure fields;
          llm_generated_sql := None;
          llm_response := None |}.
Proof.
  unfold plan_query. intros H.
  destruct (_extract_limit query) as [extracted|e]; cbn [bind_outcome] in H;
    [|discriminate].
  destruct (_select_explore p _) as [explore|]; [|discriminate].
  destruct (Str.is_empty explore); [discriminate|].
  destruct (_select_fields p explore _ query) as [fields|e] eqn:Hf;
    cbn [bind_outcome] in H; [|discriminate].
  destruct fields as [|f fields]; [discriminate|].
  destruct (_determine_required_joins set_order p explore (f :: fields))
    as [joins|e] eqn:Hj; cbn [bind_outcome] in H; [|discriminate].
  injection H as <-. exists explore, (f :: fields), extracted, joins.
  repeat split; auto. discriminate.
Qed.

(** The cap on the number of selected fields. *)
Lemma select_fields_at_most_ten (p : QueryPlanner.t) (explore : string)
    (terms : list string) (query : string) (fields : list FieldInfo) :
  _select_fields p explore terms query = Ok fields ->
  List.length fields <= 10.
Proof.
  unfold _select_fields, bind_outcome.
  destruct (Retrieval.find_relevant_fields _ _ _) as [relevant|e];
    [|discriminate].
  destruct relevant as [|r relevant].
  - destruct (GroundingIndex.get_explore_by_name _ _); intros H.
    + remember (firstn 5 _) as sel eqn:Hsel in H. injection H as <-.
      rewrite Hsel, length_firstn. lia.
    + injection H as <-. simpl. lia.
  - intros H. remember (firstn 10 _) as sel eqn:Hsel in H.
    injection H as <-. rewrite Hsel, length_firstn. lia.
Qed.

End WithSetOrder.

Lemma filter_nonempty {A : Type} (p : A -> bool) (l : list A) :
  List.existsb p l = true -> filter p l <> [].
Proof.
  induction l as [|x l IH]; simpl; [discriminate|].
  destruct (p x); simpl; [discriminate | exact IH].
Qed.

Lemma filter_empty {A : Type} (p : A -> bool) (l : list A) :
  List.existsb p l = false -> filter p l = [].
Proof.
  induction l as [|x l IH]; simpl; [reflexivity|].
  destruct (p x); simpl; [discriminate | exact IH].
Qed.

Lemma append_first_dimension_found (available selected : list FieldInfo) :
  List.existsb (fun f => is_dimension f && negb (hidden f)) available = true ->
  exists f,
    append_first_dimension available selected = (selected ++ [f])%list
    /\ is_dimension f = true /\ hidden f = false /\ In f available.
Proof.
  induction available as [|x available IH]; simpl; [discriminate|].
  destruct (is_dimension x && negb (hidden x)) eqn:E; simpl.
  - intros _. exists x. apply andb_true_iff in E as [Hd Hh].
    apply negb_true_iff in Hh. auto.
  - intros H. destruct (IH H) as (f & Hf & Hd & Hh & Hin).
    exists f. auto.
Qed.

(** Below the cap of ten, the dimension that is appended stays in the
    selection. *)
Lemma select_fields_keeps_dimension (p : QueryPlanner.t)
    (explore : string) (terms : list string) (query : string)
    (relevant : list (FieldInfo * nat)) (ei : ExploreInfo) :
  Retrieval.find_relevant_fields (grounding_index p) explore terms
  = Ok relevant ->
  relevant <> [] ->
  let selected :=
    List.map fst (filter (fun fs => 1 <=? snd fs) relevant) in
  List.existsb is_measure selected = true ->
  List.existsb is_dimension selected = false ->
  List.length selected < 10 ->
  GroundingIndex.get_explore_by_name (grounding_index p) explore = Some ei ->
  List.existsb (fun f => is_dimension f && negb (hidden f))
               (Dict.values (available_fields ei)) = true ->
  exists fields,
    _select_fields p explore terms query = Ok fields
    /\ List.existsb is_dimension fields = true.
Proof.
  intros Hrel Hne selected Hm Hd Hlen Hei Hav.
  unfold _select_fields. rewrite Hrel. unfold bind_outcome.
  destruct relevant as [|r relevant]; [congruence|].
  fold selected. rewrite Hei.
  pose proof (filter_nonempty _ _ Hm) as Hms.
  rewrite (filter_empty _ _ Hd).
  destruct (filter is_measure selected) as [|m0 ms]; [congruence|].
  destruct (append_first_dimension_found _ selected Hav)
    as (f & -> & Hfd & _).
  eexists. split; [reflexivity|].
  rewrite firstn_all2 by (rewrite length_app; simpl; lia).
  rewrite existsb_app. simpl. now rewrite Hfd, orb_true_r.
Qed.

End PlannerFacts.

(* ================================================================== *)
(** * Properties of the SQL compiler *)
(* ================================================================== *)

(** Claim C1, as the code has it.  A required join whose view is not
    defined, or names no physical table, is left out: [build_sql] returns
    what it returns for the same plan without that view among its required
    joins, so the compilation does not fail on account of that join.  Only
    the base view is held to have a table: without one, a rule-based plan
    does not compile. *)
Theorem join_without_table_is_left_out
    (idx : GroundingIndex.t) (plan : QueryPlan) (m : FieldMapper.t)
    (v : string) :
  has_table (get_all_views (GroundingIndex.lookml_project idx)) v = false ->
  SQLBuilder.build_sql idx plan m
  = SQLBuilder.build_sql idx (without_join v plan) m
  /\ PySet.mem v (required_joins (without_join v plan)) = false
  /\ (forall ei,
         truthy (llm_generated_sql plan) = false ->
         GroundingIndex.get_explore_by_name idx (explore_name plan) = Some ei ->
         has_table (get_all_views (GroundingIndex.lookml_project idx))
                   (base_view ei) = false ->
         is_ok (fst (SQLBuilder.build_sql idx plan m)) = false).
Proof.
  intros Hv. split; [|split].
  - unfold SQLBuilder.build_sql. cbn [without_join llm_generated_sql
      explore_name selected_fields required_joins filters limit
      has_aggregation].
    destruct (truthy (llm_generated_sql plan)); [reflexivity|].
    destruct (GroundingIndex.get_explore_by_name idx (explore_name plan))
      as [ei|]; [|reflexivity].
    unfold Build.bind.
    destruct (Build.write FieldMapper.clear_aliases m) as [[u|e] m0];
      [|reflexivity].
    destruct (SQLBuilder._build_select_clause (selected_fields plan) m0)
      as [[sel|e] m1]; [|reflexivity].
    now rewrite (JoinFacts.build_from_clause_without idx ei v _ m1 Hv).
  - cbn [without_join required_joins]. rewrite PySetFacts.mem_without.
    rewrite String.eqb_refl. apply andb_false_r.
  - intros ei Hllm Hei Hbase. unfold SQLBuilder.build_sql.
    rewrite Hllm, Hei. unfold Build.bind.
    destruct (Build.write FieldMapper.clear_aliases m) as [[u|e] m0];
      [|reflexivity].
    destruct (SQLBuilder._build_select_clause (selected_fields plan) m0)
      as [[sel|e] m1]; [|reflexivity].
    now rewrite (JoinFacts.build_from_clause_raises idx ei _ m1 Hbase).
Qed.

Lemma join_without_table_is_left_out_witness :
  SQLBuilder.build_sql Fixtures.shop_index Fixtures.two_joins_plan
                       FieldMapper.init
  = SQLBuilder.build_sql Fixtures.shop_index
      (without_join "payments" Fixtures.two_joins_plan) FieldMapper.init.
Proof.
  exact (proj1 (join_without_table_is_left_out Fixtures.shop_index
                  Fixtures.two_joins_plan FieldMapper.init "payments"
                  eq_refl)).
Defined.

(** Claim C1 as stated fails: the planner asks for the join to [payments],
    a view declared in the explore and without a table, and [build_sql]
    returns SQL in which only the join to [orders] appears. *)
Lemma join_without_table_yields_sql :
  exists plan,
    QueryPlanner.plan_query Fixtures.insertion_order
      (Fixtures.shop_planner 10) "revenue paid by status" 100 = Ok (Some plan)
    /\ PySet.mem "payments" (required_joins plan) = true
    /\ List.existsb (fun j => String.eqb (join_view_name j) "payments")
                    (joins Fixtures.shop_explore) = true
    /\ has_table (get_all_views Fixtures.shop_project) "payments" = false
    /\ fst (SQLBuilder.build_sql Fixtures.shop_index plan FieldMapper.init)
       = Ok Fixtures.shop_sql.
Proof.
  eexists. split; [vm_compute; reflexivity|].
  repeat split; vm_compute; reflexivity.
Qed.

(** Claim C2, as the code has it.  For the project with the view [users]
    and the explore [users], under any model name and with any metadata,
    the plan that selects only the measure [count], without filters and
    with limit 100, compiles to the lines SELECT, COUNT(users.id) AS count,
    FROM users AS users, LIMIT 100: the alias of a table is the name of its
    view in lower case, and no GROUP BY line is written when every
    selected field is a measure.  The field of the plan is the one that
    the index holds for the measure. *)
Theorem count_only_sql
    (model : string) (aggregation : bool)
    (load : PySet.t -> Dict.t TableMetadata) :
  let idx := GroundingIndex.build (Fixtures.users_project model) load in
  SQLBuilder.build_sql idx (Fixtures.count_plan model aggregation)
                       FieldMapper.init
  = (Ok Fixtures.actual_count_sql,
     {| FieldMapper.table_aliases := [("users", "users")] |})
  /\ exists ei,
       GroundingIndex.get_explore_by_name idx (model ++ ".users") = Some ei
       /\ Dict.get "users.count" (available_fields ei)
          = Some Fixtures.count_field.
Proof.
  intros idx. subst idx.
  assert (Hex : exists fields,
             GroundingIndex.explores
               (GroundingIndex.build (Fixtures.users_project model) load)
             = [ (model ++ ".users",
                  {| ei_name := model ++ ".users"; base_view := "users";
                     available_fields := fields; join_graph := [];
                     join_conditions := [] |}) ]
             /\ Dict.get "users.count" fields = Some Fixtures.count_field).
  { eexists. unfold GroundingIndex.build. cbn [GroundingIndex.explores].
    unfold GroundingIndex._build_explores. split; reflexivity. }
  destruct Hex as (fields & Hex & Hcount). split.
  - unfold SQLBuilder.build_sql.
    cbn [Fixtures.count_plan llm_generated_sql truthy explore_name
         selected_fields required_joins filters limit has_aggregation].
    unfold GroundingIndex.get_explore_by_name. rewrite Hex.
    cbn [Dict.get]. rewrite String.eqb_refl.
    destruct aggregation; reflexivity.
  - eexists. unfold GroundingIndex.get_explore_by_name. rewrite Hex.
    cbn [Dict.get]. rewrite String.eqb_refl. split; [reflexivity|].
    exact Hcount.
Qed.

(** Claim C2 as stated fails: the SQL that the builder returns is not the
    text that the claim gives (alias [u], an empty GROUP BY line). *)
Lemma count_only_sql_differs :
  fst (SQLBuilder.build_sql Fixtures.users_index
         (Fixtures.count_plan "shop" true) FieldMapper.init)
  <> Ok Fixtures.claimed_count_sql.
Proof. vm_compute. discriminate. Qed.

(** Claim C7.  A plan that carries a non-empty SQL text compiles to that
    text without the white space at its ends, whatever its other fields
    and whatever the index holds; the aliases of the mapper are not
    touched. *)
Theorem build_sql_prebuilt
    (idx : GroundingIndex.t) (plan : QueryPlan) (m : FieldMapper.t)
    (sql : string) :
  llm_generated_sql plan = Some sql ->
  sql <> "" ->
  SQLBuilder.build_sql idx plan m = (Ok (Str.strip sql), m)
  /\ exists l r,
       sql = l ++ Str.strip sql ++ r
       /\ Str.forallb Chars.is_space l = true
       /\ Str.forallb Chars.is_space r = true
       /\ holds_at Chars.is_space (first_char (Str.strip sql)) = false
       /\ holds_at Chars.is_space (last_char (Str.strip sql)) = false.
Proof.
  intros Hsql Hne. split.
  - unfold SQLBuilder.build_sql. rewrite Hsql.
    destruct sql; [congruence | reflexivity].
  - apply StrFacts.strip_by_spec.
Qed.

Lemma build_sql_prebuilt_witness :
  SQLBuilder.build_sql Fixtures.empty_index Fixtures.prebuilt_plan
                       FieldMapper.init
  = (Ok "SELECT 1 FROM t", FieldMapper.init).
Proof.
  destruct (build_sql_prebuilt Fixtures.empty_index Fixtures.prebuilt_plan
              FieldMapper.init "  SELECT 1 FROM t  " eq_refl) as [H _].
  - discriminate.
  - exact H.
Defined.





(* ================================================================== *)
(** * Properties of the expression resolver *)
(* ================================================================== *)




(* ================================================================== *)
(** * Properties of the model and of the index *)
(* ================================================================== *)

(** Claim C6, as the code has it.  Flattening reports no collision.  The
    flattened views map gives a name the definition written last: that of
    the last model, in the order of the models, that has a view of this
    name, and the standalone view when no model has one.  The flattened
    explores map does the same under the key model name, dot, explore
    name.  Either map has each key once. *)
Theorem flattening_keeps_last_definition (p : LookMLProject) :
  (forall name,
      Dict.get name (get_all_views p)
      = lookup_last name
          (views p :: List.map model_views (Dict.values (models p))))
  /\ (forall key,
         Dict.get key (get_all_explores p)
         = lookup_last key
             (List.map qualified_explores (Dict.values (models p))))
  /\ NoDup (Dict.keys (get_all_views p))
  /\ NoDup (Dict.keys (get_all_explores p)).
Proof.
  rewrite FlattenFacts.get_all_views_layers,
    FlattenFacts.get_all_explores_layers.
  repeat split.
  - intros name. rewrite FlattenFacts.fold_update_get.
    now destruct (lookup_last name _).
  - intros key. rewrite FlattenFacts.fold_update_get.
    now destruct (lookup_last key _).
  - apply FlattenFacts.fold_update_NoDup. constructor.
  - apply FlattenFacts.fold_update_NoDup. constructor.
Qed.

(** Claim C6 as stated fails: a standalone view and a view of a model
    share the name [users]; the flattened map is returned with the view of
    the model alone, and the standalone view is gone. *)
Lemma colliding_views_overwrite :
  Dict.get "users" (views Fixtures.colliding_project)
  = Some Fixtures.users_view
  /\ List.map (fun model => Dict.get "users" (model_views model))
              (Dict.values (models Fixtures.colliding_project))
     = [Some Fixtures.users_in_model]
  /\ Fixtures.users_view <> Fixtures.users_in_model
  /\ get_all_views Fixtures.colliding_project
     = [("users", Fixtures.users_in_model)].
Proof. repeat split; try reflexivity. discriminate. Qed.

(** Claim C3, as the code has it.  The score of an explore is the sum over
    the terms of 2 for every key of its available fields (a qualified name
    view.field) that contains the term in lower case, and of 1 for every
    glossary entry of the term that is one of its fields.  The function
    returns the explores of positive score, sorted by decreasing score; the
    explores of one score keep the order of the index. *)
Theorem find_relevant_explores_scores
    (idx : GroundingIndex.t) (query_terms : list string) :
  NoDup (Dict.keys (GroundingIndex.explores idx)) ->
  let scored :=
    filter (fun ns => 0 <? snd ns)
      (List.map (fun kv => (fst kv, relevance idx query_terms (snd kv)))
                (GroundingIndex.explores idx)) in
  let result := Retrieval.find_relevant_explores idx query_terms in
  Permutation result scored
  /\ StronglySorted (desc snd) result
  /\ (forall v,
         filter (fun ns => snd ns =? v) result
         = filter (fun ns => snd ns =? v) scored)
  /\ (forall ei s,
         Retrieval.score_explore idx query_terms ei s
         = s + relevance idx query_terms ei).
Proof.
  intros H scored result. subst scored result.
  unfold Retrieval.find_relevant_explores, Dict.items.
  rewrite (ScoreFacts.explore_scores_closed idx query_terms H).
  split; [|split; [|split]].
  - apply SortFacts.sorted_desc_perm.
  - apply (SortFacts.sorted_desc_sorted snd).
  - intros v. apply (SortFacts.sorted_desc_stable snd).
  - intros ei s. apply ScoreFacts.score_explore_closed.
Qed.

Lemma find_relevant_explores_scores_witness :
  Permutation
    (Retrieval.find_relevant_explores Fixtures.shop_index ["users"; "paid"])
    [("shop.users", 9)].
Proof.
  refine (proj1 (find_relevant_explores_scores Fixtures.shop_index
                   ["users"; "paid"] _)).
  vm_compute. repeat constructor. intros [].
Defined.

(** Claim C3 as stated fails: the term [users] is part of three available
    field names of the explore, which scores 6 and not 2; and an explore
    that no term matches is not returned at all. *)
Lemma explore_score_counts_every_field :
  Retrieval.find_relevant_explores Fixtures.shop_index ["users"]
  = [("shop.users", 6)]
  /\ spec_find_relevant_explores Fixtures.shop_index ["users"]
     = [("shop.users", 2)]
  /\ Retrieval.find_relevant_explores Fixtures.shop_index ["zebra"] = []
  /\ spec_find_relevant_explores Fixtures.shop_index ["zebra"]
     = [("shop.users", 0)].
Proof. repeat split; vm_compute; reflexivity. Qed.

(* ================================================================== *)
(** * Properties of the planner *)
(* ================================================================== *)

(** Claim C4 fails on the code.  Ten measures match the request; the first
    available dimension is appended in eleventh place and cut off by the
    cap of ten, so the plan has measures and no dimension, although the
    explore has a dimension that is not hidden. *)
Theorem ten_measures_lose_the_dimension :
  exists plan ei,
    QueryPlanner.plan_query Fixtures.insertion_order Fixtures.sales_planner
      "show total" 100 = Ok (Some plan)
    /\ List.existsb QueryPlanner.is_measure (selected_fields plan) = true
    /\ List.existsb QueryPlanner.is_dimension (selected_fields plan) = false
    /\ List.length (selected_fields plan) = 10
    /\ GroundingIndex.get_explore_by_name
         (QueryPlanner.grounding_index Fixtures.sales_planner)
         (explore_name plan) = Some ei
    /\ List.existsb
         (fun f => QueryPlanner.is_dimension f && negb (hidden f))
         (Dict.values (available_fields ei)) = true.
Proof.
  eexists. eexists. split; [vm_compute; reflexivity|].
  split; [vm_compute; reflexivity|].
  split; [vm_compute; reflexivity|].
  split; [vm_compute; reflexivity|].
  split; vm_compute; reflexivity.
Qed.

(** Claim C5, as the code has it.  The limit of the plan is the number that
    the request asks for when that number is not zero: the digits of the
    leftmost phrase "limit N", else of the leftmost phrase "top N", else of
    the leftmost phrase "first N", in the text in lower case.  It is the
    default limit when the text has none of the three phrases, and also
    when the requested number is zero.  One of the two cases holds. *)
Theorem plan_limit_is_requested_or_default
    (set_order : PySet.t -> list string) (p : QueryPlanner.t)
    (query : string) (default_limit : Z) (plan : QueryPlan) :
  QueryPlanner.plan_query set_order p query default_limit = Ok (Some plan) ->
  (forall n,
      requested_limit (Str.lower query) n ->
      limit plan = Some (if (n =? 0)%Z then default_limit else n))
  /\ (no_requested_limit (Str.lower query) ->
      limit plan = Some default_limit)
  /\ ((exists n, requested_limit (Str.lower query) n)
      \/ no_requested_limit (Str.lower query)).
Proof.
  intros H.
  destruct (PlannerFacts.plan_query_inv _ _ _ _ _ H)
    as (explore & fields & extracted & joins & _ & _ & _ & He & _ & ->).
  cbn [limit]. split; [|split].
  - intros n Hn.
    now rewrite (LimitRequestFacts.extract_limit_requested query _ n He Hn).
  - intros Hn.
    now rewrite (LimitRequestFacts.extract_limit_not_requested query _ He Hn).
  - pose proof (LimitRequestFacts.extract_limit_ok query _ He) as Hs.
    destruct extracted as [n|]; eauto.
Qed.

Lemma plan_limit_is_requested_or_default_witness :
  exists plan,
    QueryPlanner.plan_query Fixtures.insertion_order
      (Fixtures.shop_planner 10) "Top 5 users by revenue" 100
    = Ok (Some plan)
    /\ limit plan = Some 5%Z.
Proof.
  assert (Hrun : { plan |
             QueryPlanner.plan_query Fixtures.insertion_order
               (Fixtures.shop_planner 10) "Top 5 users by revenue" 100
             = Ok (Some plan) }).
  { vm_compute. eexists. reflexivity. }
  destruct Hrun as (plan & Hplan).
  pose proof (LimitRequestFacts.extract_limit_ok "Top 5 users by revenue"
                (Some 5%Z) eq_refl) as Hreq.
  cbv beta iota in Hreq.
  exists plan. split; [exact Hplan|].
  exact (proj1 (plan_limit_is_requested_or_default Fixtures.insertion_order
                  (Fixtures.shop_planner 10) "Top 5 users by revenue" 100
                  plan Hplan)
               5%Z Hreq).
Defined.

(** Claim C5 as stated fails: the request asks for the limit 0 by its
    first pattern, and the plan has the default limit 100. *)
Lemma limit_zero_is_replaced :
  exists plan,
    QueryPlanner.plan_query Fixtures.insertion_order
      (Fixtures.shop_planner 10) "count users limit 0" 100 = Ok (Some plan)
    /\ requested_limit (Str.lower "count users limit 0") 0
    /\ limit plan = Some 100%Z
    /\ limit plan <> Some 0%Z.
Proof.
  eexists. split; [vm_compute; reflexivity|].
  split; [|split; [reflexivity | discriminate]].
  exact (LimitRequestFacts.extract_limit_ok "count users limit 0"
           (Some 0%Z) eq_refl).
Qed.

(** Claim C10.  Under a planner whose [max_joins] is a natural number, the
    required joins of every plan that [plan_query] returns are at most
    [max_joins] view names, each of them once, whatever the order in which
    the set of views is iterated. *)
Theorem required_joins_at_most_max_joins
    (set_order : PySet.t -> list string) (p : QueryPlanner.t)
    (query : string) (default_limit : Z) (plan : QueryPlan) :
  (0 <= QueryPlanner.max_joins p)%Z ->
  QueryPlanner.plan_query set_order p query default_limit = Ok (Some plan) ->
  (Z.of_nat (PySet.size (required_joins plan)) <= QueryPlanner.max_joins p)%Z
  /\ NoDup (required_joins plan).
Proof.
  intros Hm H.
  destruct (PlannerFacts.plan_query_inv _ _ _ _ _ H)
    as (explore & fields & extracted & joins & _ & _ & _ & _ & Hj & ->).
  cbn [required_joins].
  exact (PlannerFacts.required_joins_bound set_order p explore fields
           joins Hm Hj).
Qed.

Lemma required_joins_at_most_max_joins_witness :
  exists plan,
    QueryPlanner.plan_query Fixtures.insertion_order
      (Fixtures.shop_planner 1) "revenue paid by status" 100 = Ok (Some plan)
    /\ required_joins plan = ["orders"]
    /\ (Z.of_nat (PySet.size (required_joins plan)) <= 1)%Z.
Proof.
  assert (Hrun : { plan |
             QueryPlanner.plan_query Fixtures.insertion_order
               (Fixtures.shop_planner 1) "revenue paid by status" 100
             = Ok (Some plan)
             /\ required_joins plan = ["orders"] }).
  { vm_compute. eexists. split; reflexivity. }
  destruct Hrun as (plan & Hplan & Hreq).
  exists plan. split; [exact Hplan|]. split; [exact Hreq|].
  refine (proj1 (required_joins_at_most_max_joins Fixtures.insertion_order
                   (Fixtures.shop_planner 1) "revenue paid by status" 100
                   plan _ Hplan)).
  discriminate.
Defined.

(* ================================================================== *)
(** * Further facts about the program *)
(* ================================================================== *)

Module DictMore.
Import DictFacts.
Section WithValues.
Context {V : Type}.

Lemma in_set (k k0 : string) (v v0 : V) (d : Dict.t V) :
  In (k, v) (Dict.set k0 v0 d) -> (k, v) = (k0, v0) \/ In (k, v) d.
Proof.
  induction d as [|[k1 v1] d IH]; simpl.
  - intros [H|[]]. left. now symmetry.
  - destruct (String.eqb k0 k1) eqn:E; simpl.
    + apply String.eqb_eq in E. subst k1.
      intros [H|H]; [left; now symmetry | right; now right].
    + intros [H|H]; [right; now left|].
      destruct (IH H); [now left | right; now right].
Qed.

Lemma in_update (k : string) (v : V) (other d : Dict.t V) :
  In (k, v) (Dict.update d other) -> In (k, v) other \/ In (k, v) d.
Proof.
  unfold Dict.update. revert d.
  induction other as [|[k1 v1] other IH]; intros d; simpl; [now right|].
  intros H. destruct (IH _ H) as [H'|H']; [left; now right|].
  apply in_set in H'. destruct H' as [H'|H']; [left; left; now symmetry|].
  now right.
Qed.

Lemma get_in (k : string) (v : V) (d : Dict.t V) :
  Dict.get k d = Some v -> In (k, v) d.
Proof.
  induction d as [|[k1 v1] d IH]; simpl; [discriminate|].
  destruct (String.eqb k k1) eqn:E.
  - apply String.eqb_eq in E. subst. intros [= ->]. now left.
  - intros H. right. auto.
Qed.

Lemma in_get (k : string) (v : V) (d : Dict.t V) :
  In (k, v) d -> Dict.get k d <> None.
Proof.
  induction d as [|[k1 v1] d IH]; simpl; [tauto|].
  destruct (String.eqb k k1) eqn:E; [discriminate|].
  intros [H|H]; [|auto].
  injection H as -> _. now rewrite String.eqb_refl in E.
Qed.

Lemma get_NoDup_in (k : string) (v : V) (d : Dict.t V) :
  NoDup (Dict.keys d) -> In (k, v) d -> Dict.get k d = Some v.
Proof.
  induction d as [|[k1 v1] d IH]; simpl; [tauto|].
  intros Hnd [H|H].
  - injection H as -> ->. now rewrite String.eqb_refl.
  - inversion Hnd as [|? ? Hnot Hnd']; subst.
    destruct (String.eqb k k1) eqn:E; [|auto].
    apply String.eqb_eq in E. subst k1. exfalso. apply Hnot.
    change k with (fst (k, v)). now apply in_map.
Qed.

(** Filling a dictionary from a list of distinct keys keeps the list. *)
Lemma fold_set_fresh {A : Type} (key : A -> string) (val : A -> V)
    (l : list A) :
  forall acc : Dict.t V,
    NoDup (Dict.keys acc ++ List.map key l)%list ->
    fold_left (fun d a => Dict.set (key a) (val a) d) l acc
    = (acc ++ List.map (fun a => (key a, val a)) l)%list.
Proof.
  induction l as [|a l IH]; intros acc H; simpl.
  - now rewrite app_nil_r.
  - simpl in H. rewrite IH.
    + rewrite set_fresh; [now rewrite <- app_assoc|].
      intros Hin. apply NoDup_remove_2 in H. apply H.
      apply in_or_app. now left.
    + rewrite keys_set. destruct (Dict.mem (key a) acc) eqn:Hm.
      * apply mem_In_keys in Hm. apply NoDup_remove_2 in H.
        exfalso. apply H. apply in_or_app. now left.
      * rewrite <- app_assoc. exact H.
Qed.

End WithValues.
End DictMore.

Module IndexFacts.
Import GroundingIndex DictFacts DictMore.

Lemma well_keyed_empty : well_keyed [].
Proof. intros k f []. Qed.

Lemma well_keyed_set (fi : FieldInfo) (d : Dict.t FieldInfo) :
  hidden fi = false -> well_keyed d ->
  well_keyed (Dict.set (qualified_name fi) fi d).
Proof.
  intros Hh Hd k f H. apply in_set in H as [H|H]; [|auto].
  injection H as -> ->. auto.
Qed.

Lemma well_keyed_update (d other : Dict.t FieldInfo) :
  well_keyed d -> well_keyed other -> well_keyed (Dict.update d other).
Proof.
  intros Hd Ho k f H. apply in_update in H as [H|H]; auto.
Qed.

Lemma fold_well_keyed {A : Type} (skip : A -> bool) (mk : A -> FieldInfo)
    (l : list A) :
  (forall a, skip a = false -> hidden (mk a) = false) ->
  forall d,
    well_keyed d ->
    well_keyed
      (fold_left
         (fun fields a =>
            if skip a then fields
            else Dict.set (qualified_name (mk a)) (mk a) fields)
         l d).
Proof.
  intros Hmk. induction l as [|a l IH]; intros d Hd; simpl; [assumption|].
  apply IH. destruct (skip a) eqn:E; [assumption|].
  apply well_keyed_set; auto.
Qed.

Lemma fold_keys_NoDup {A V : Type} (f : Dict.t V -> A -> Dict.t V)
    (l : list A) :
  (forall d a, NoDup (Dict.keys d) -> NoDup (Dict.keys (f d a))) ->
  forall d, NoDup (Dict.keys d) -> NoDup (Dict.keys (fold_left f l d)).
Proof. intros Hf. induction l; simpl; auto. Qed.

Lemma process_view_fields_well_keyed (view : LookMLView)
    (tm : option TableMetadata) :
  well_keyed (_process_view_fields view tm)
  /\ NoDup (Dict.keys (_process_view_fields view tm)).
Proof.
  unfold _process_view_fields. split.
  - apply (fold_well_keyed (fun kv => mea_hidden (snd kv))
             (fun kv => measure_field view (fst kv) (snd kv))).
    + intros [k m] H. exact H.
    + apply (fold_well_keyed (fun kv => dim_hidden (snd kv))
               (fun kv => dimension_field view tm (fst kv) (snd kv))).
      * intros [k d] H. exact H.
      * apply well_keyed_empty.
  - apply fold_keys_NoDup.
    + intros d a Hd. destruct (mea_hidden (snd a)); [assumption|].
      now apply set_NoDup.
    + apply fold_keys_NoDup; [|constructor].
      intros d a Hd. destruct (dim_hidden (snd a)); [assumption|].
      now apply set_NoDup.
Qed.

Lemma build_explore_info_well_keyed (all_views : Dict.t LookMLView)
    (tm : Dict.t TableMetadata) (k : string) (e : LookMLExplore) :
  well_keyed (available_fields (build_explore_info all_views tm k e))
  /\ NoDup (Dict.keys (available_fields (build_explore_info all_views tm k e)))
  /\ ei_name (build_explore_info all_views tm k e) = k
  /\ base_view (build_explore_info all_views tm k e) = base_view_name e.
Proof.
  unfold build_explore_info.
  set (from_base := match Dict.get (base_view_name e) all_views with
                    | Some base => _ | None => _ end).
  assert (Hbase : well_keyed from_base /\ NoDup (Dict.keys from_base)).
  { subst from_base. destruct (Dict.get (base_view_name e) all_views).
    - split.
      + apply well_keyed_update; [apply well_keyed_empty|].
        apply process_view_fields_well_keyed.
      + apply update_NoDup. constructor.
    - split; [apply well_keyed_empty | constructor]. }
  clearbody from_base. revert Hbase.
  generalize (@Dict.empty string) at 1 3 5 7.
  generalize (@Dict.empty string).
  revert from_base.
  induction (joins e) as [|j js IH]; intros fields graph conds [Hw Hn];
    simpl.
  - auto.
  - destruct (Dict.get (join_view_name j) all_views) as [jv|].
    + apply IH. split.
      * apply well_keyed_update; [assumption|].
        apply process_view_fields_well_keyed.
      * now apply update_NoDup.
    + apply IH. auto.
Qed.

End IndexFacts.

Module IndexFacts2.
Import GroundingIndex DictFacts DictMore IndexFacts.

Lemma build_explores_map (p : LookMLProject) (tm : Dict.t TableMetadata) :
  _build_explores p tm
  = List.map
      (fun kv =>
         (fst kv, build_explore_info (get_all_views p) tm (fst kv) (snd kv)))
      (get_all_explores p).
Proof.
  unfold _build_explores, Dict.items.
  rewrite (fold_set_fresh fst
             (fun kv => build_explore_info (get_all_views p) tm
                                           (fst kv) (snd kv))).
  - reflexivity.
  - simpl. rewrite FlattenFacts.get_all_explores_layers.
    apply FlattenFacts.fold_update_NoDup. constructor.
Qed.

Lemma get_map_values {A B : Type} (g : string -> A -> B) (k : string)
    (d : Dict.t A) :
  Dict.get k (List.map (fun kv => (fst kv, g (fst kv) (snd kv))) d)
  = option_map (g k) (Dict.get k d).
Proof.
  induction d as [|[k1 v1] d IH]; simpl; [reflexivity|].
  destruct (String.eqb k k1) eqn:E; [|exact IH].
  apply String.eqb_eq in E. now subst.
Qed.

Lemma built_explore_fields (p : LookMLProject)
    (load : PySet.t -> Dict.t TableMetadata) (k : string) (ei : ExploreInfo) :
  In (k, ei) (explores (build p load)) ->
  well_keyed (available_fields ei)
  /\ NoDup (Dict.keys (available_fields ei)).
Proof.
  unfold build. cbn [explores].
  rewrite build_explores_map. intros H.
  apply in_map_iff in H as ([k' e] & [= <- <-] & _). cbn [fst snd].
  destruct (build_explore_info_well_keyed (get_all_views p)
              (load (_extract_referenced_tables p)) k' e)
    as (Hw & Hn & _).
  split; assumption.
Qed.

Lemma built_index_well_keyed (p : LookMLProject)
    (load : PySet.t -> Dict.t TableMetadata) :
  index_well_keyed (build p load).
Proof. intros k ei H. now apply (built_explore_fields p load k). Qed.

Lemma built_index_NoDup (p : LookMLProject)
    (load : PySet.t -> Dict.t TableMetadata) :
  NoDup (Dict.keys (explores (build p load))).
Proof.
  unfold build. cbn [explores]. rewrite build_explores_map.
  unfold Dict.keys. rewrite map_map. cbn [fst].
  change (NoDup (Dict.keys (get_all_explores p))).
  rewrite FlattenFacts.get_all_explores_layers.
  apply FlattenFacts.fold_update_NoDup. constructor.
Qed.

End IndexFacts2.

Module FieldScoreFacts.
Import GroundingIndex Retrieval DictFacts DictMore.

Lemma bump_ok (ei : ExploreInfo) (q : string) (w : nat)
    (scores : Dict.t nat) :
  1 <= w ->
  Dict.get q (available_fields ei) <> None ->
  scores_ok ei scores -> scores_ok ei (bump q w scores).
Proof.
  intros Hw Hq Hs q' s' H. unfold bump in H.
  apply in_set in H as [H|H]; [|auto].
  injection H as -> ->. split; [assumption|lia].
Qed.

Lemma fold_ok {A : Type} (ei : ExploreInfo)
    (f : Dict.t nat -> A -> Dict.t nat) (l : list A) :
  (forall scores a, In a l -> scores_ok ei scores -> scores_ok ei (f scores a)) ->
  forall scores, scores_ok ei scores -> scores_ok ei (fold_left f l scores).
Proof.
  induction l as [|a l IH]; intros Hf scores Hs; simpl; [assumption|].
  apply IH.
  - intros sc b Hb. apply Hf. now right.
  - apply Hf; [now left | assumption].
Qed.

Lemma field_scores_ok (idx : GroundingIndex.t) (ei : ExploreInfo)
    (terms : list string) :
  well_keyed (available_fields ei) ->
  scores_ok ei (field_scores idx ei terms).
Proof.
  intros Hw. unfold field_scores. apply fold_ok.
  2:{ intros q s []. }
  intros scores term _ Hs.
  assert (Hdirect :
    scores_ok ei
      (fold_left
         (fun scores kv =>
            if Str.contains (Str.lower term) (Str.lower (name (snd kv)))
            then bump (qualified_name (snd kv)) 3 scores else scores)
         (Dict.items (available_fields ei)) scores)).
  { apply fold_ok; [|assumption].
    intros sc [k f] Hin Hsc. cbn [snd].
    destruct (Str.contains _ _); [|assumption].
    apply bump_ok; [lia | | assumption].
    destruct (Hw k f Hin) as [-> _]. now apply in_get with (v := f). }
  destruct (Dict.get (Str.lower term) (field_glossary idx)) as [fs|];
    [|exact Hdirect].
  apply fold_ok; [|exact Hdirect].
  intros sc f _ Hsc.
  destruct (Dict.mem (qualified_name f) (available_fields ei)) eqn:Hm;
    [|assumption].
  apply bump_ok; [lia | | assumption].
  unfold Dict.mem in Hm.
  destruct (Dict.get (qualified_name f) (available_fields ei));
    [discriminate | discriminate].
Qed.

Lemma field_scores_NoDup (idx : GroundingIndex.t) (ei : ExploreInfo)
    (terms : list string) :
  NoDup (Dict.keys (field_scores idx ei terms)).
Proof.
  unfold field_scores. apply IndexFacts.fold_keys_NoDup; [|constructor].
  intros d term Hd.
  assert (Hbump : forall q w (sc : Dict.t nat),
             NoDup (Dict.keys sc) -> NoDup (Dict.keys (bump q w sc))).
  { intros q w sc Hsc. unfold bump. now apply set_NoDup. }
  assert (Hdirect :
    NoDup (Dict.keys
      (fold_left
         (fun scores kv =>
            if Str.contains (Str.lower term) (Str.lower (name (snd kv)))
            then bump (qualified_name (snd kv)) 3 scores else scores)
         (Dict.items (available_fields ei)) d))).
  { apply IndexFacts.fold_keys_NoDup; [|assumption].
    intros sc a Hsc. destruct (Str.contains _ _); auto. }
  destruct (Dict.get (Str.lower term) (field_glossary idx)) as [fs|];
    [|exact Hdirect].
  apply IndexFacts.fold_keys_NoDup; [|exact Hdirect].
  intros sc a Hsc. destruct (Dict.mem _ _); auto.
Qed.

(** The look-ups of the scored names all succeed. *)
Lemma lookups_ok (ei : ExploreInfo) (scores : Dict.t nat) :
  scores_ok ei scores ->
  exists result,
    map_outcome
      (fun kv =>
         match Dict.get (fst kv) (available_fields ei) with
         | Some field_info => Ok (field_info, snd kv)
         | None => Raise (KeyError (fst kv))
         end)
      (Dict.items scores)
    = Ok result
    /\ Forall2 (fun kv fs =>
                  Dict.get (fst kv) (available_fields ei) = Some (fst fs)
                  /\ snd fs = snd kv)
               scores result.
Proof.
  unfold Dict.items.
  induction scores as [|[q s] scores IH]; intros Hs; simpl.
  - exists []. split; constructor.
  - destruct (Hs q s (or_introl eq_refl)) as [Hq _].
    destruct (Dict.get q (available_fields ei)) as [f|] eqn:Hf;
      [|congruence].
    destruct IH as (result & -> & Hall).
    { intros q' s' H. apply Hs. now right. }
    simpl. exists ((f, s) :: result). split; [reflexivity|].
    constructor; [split; [exact Hf | reflexivity] | exact Hall].
Qed.

(** On well keyed fields the look-ups succeed, and what comes back are
    fields of the explore. *)
Lemma relevant_fields_ok (idx : GroundingIndex.t) (explore : string)
    (terms : list string) (ei : ExploreInfo) :
  Dict.get explore (explores idx) = Some ei ->
  well_keyed (available_fields ei) ->
  exists result,
    find_relevant_fields idx explore terms = Ok (sorted_desc snd result)
    /\ Forall
         (fun fs =>
            1 <= snd fs
            /\ hidden (fst fs) = false
            /\ Dict.get (qualified_name (fst fs)) (available_fields ei)
               = Some (fst fs))
         (sorted_desc snd result).
Proof.
  intros He Hw. unfold find_relevant_fields. rewrite He.
  pose proof (field_scores_ok idx ei terms Hw) as Hs.
  destruct (lookups_ok ei _ Hs) as (result & -> & Hall).
  simpl. exists result. split; [reflexivity|].
  apply (Permutation_Forall (x := result)).
  { symmetry. apply SortFacts.sorted_desc_perm. }
  induction Hall as [|[q s] [f s'] scores result [Hq Hsc] Hall IH].
  - constructor.
  - assert (Hs' : scores_ok ei scores).
    { intros q' s'' H. apply Hs. now right. }
    constructor; [|exact (IH Hs')].
    cbn [fst snd] in *. subst s'.
    destruct (Hs q s (or_introl eq_refl)) as [_ Hone].
    apply get_in in Hq as Hin.
    destruct (Hw q f Hin) as [Hkey Hhid].
    split; [exact Hone|]. split; [exact Hhid|]. now rewrite <- Hkey.
Qed.

End FieldScoreFacts.

Module SelectFacts.
Import GroundingIndex Retrieval QueryPlanner DictFacts DictMore.

Lemma in_keys_get {V : Type} (k : string) (d : Dict.t V) :
  In k (Dict.keys d) -> exists v, Dict.get k d = Some v.
Proof.
  intros H. apply mem_In_keys in H. unfold Dict.mem in H.
  destruct (Dict.get k d) as [v|]; [now exists v | discriminate].
Qed.

(** Only explores of the index are scored. *)
Lemma explore_scores_in (idx : GroundingIndex.t) (terms : list string)
    (k : string) (s : nat) :
  In (k, s) (explore_scores idx terms) ->
  In k (Dict.keys (explores idx)).
Proof.
  unfold explore_scores, Dict.items.
  assert (H : forall l (acc : Dict.t nat),
             In (k, s)
                (fold_left
                   (fun scores kv =>
                      let score := score_explore idx terms (snd kv) 0 in
                      if 0 <? score then Dict.set (fst kv) score scores
                      else scores)
                   l acc) ->
             In (k, s) acc \/ In k (Dict.keys l)).
  { induction l as [|[k1 e1] l IH]; intros acc H; simpl in *; [now left|].
    apply IH in H as [H|H]; [|now right; right].
    destruct (0 <? score_explore idx terms e1 0); [|now left].
    apply in_set in H as [H|H]; [|now left].
    injection H as -> _. right. now left. }
  intros Hin. apply H in Hin as [[]|Hin]. exact Hin.
Qed.

(** The explore that is selected is one of the index; none is selected
    only when the index has none. *)
Lemma select_explore_in (p : QueryPlanner.t) (terms : list string)
    (k : string) :
  _select_explore p terms = Some k ->
  In k (Dict.keys (explores (grounding_index p))).
Proof.
  unfold _select_explore.
  destruct (find_relevant_explores _ _) as [|[best s] rest] eqn:E.
  - destruct (Dict.keys _) as [|first others]; [discriminate|].
    intros [= ->]. now left.
  - intros [= ->]. apply (explore_scores_in _ terms k s).
    unfold find_relevant_explores, Dict.items in E.
    apply (Permutation_in
             (l := sorted_desc snd
                     (explore_scores (grounding_index p) terms))).
    + apply SortFacts.sorted_desc_perm.
    + rewrite E. now left.
Qed.

Lemma select_explore_none (p : QueryPlanner.t) (terms : list string) :
  _select_explore p terms = None ->
  explores (grounding_index p) = [].
Proof.
  unfold _select_explore.
  destruct (find_relevant_explores _ _) as [|[best s] rest]; [|discriminate].
  destruct (explores (grounding_index p)) as [|[k e] l]; [reflexivity|].
  discriminate.
Qed.

Lemma firstn_nonempty {A : Type} (n : nat) (l : list A) :
  l <> [] -> firstn (S n) l <> [].
Proof. destruct l; [congruence | discriminate]. Qed.

Lemma firstn_Forall {A : Type} (P : A -> Prop) (n : nat) (l : list A) :
  Forall P l -> Forall P (firstn n l).
Proof.
  intros H. revert n.
  induction H as [|x l Hx Hl IH]; intros [|n]; simpl; constructor; auto.
Qed.

Lemma append_first_dimension_ok (P : FieldInfo -> Prop)
    (available selected : list FieldInfo) :
  Forall P selected ->
  (forall f, In f available -> hidden f = false -> P f) ->
  Forall P (append_first_dimension available selected).
Proof.
  intros Hs. induction available as [|x available IH]; intros Ha; simpl.
  - exact Hs.
  - destruct (is_dimension x && negb (hidden x)) eqn:E.
    + apply Forall_app. split; [exact Hs|]. constructor; [|constructor].
      apply Ha; [now left|].
      apply andb_true_iff in E as [_ E]. now apply negb_true_iff in E.
    + apply IH. intros f Hf. apply Ha. now right.
Qed.

Lemma append_first_dimension_nonempty (available selected : list FieldInfo) :
  selected <> [] -> append_first_dimension available selected <> [].
Proof.
  intros Hs. induction available as [|x available IH]; simpl; [exact Hs|].
  destruct (is_dimension x && negb (hidden x)); [|exact IH].
  destruct selected; [congruence | discriminate].
Qed.

Lemma values_in {V : Type} (k : string) (v : V) (d : Dict.t V) :
  In (k, v) d -> In v (Dict.values d).
Proof. intros H. change v with (snd (k, v)). now apply in_map. Qed.

Lemma in_values {V : Type} (v : V) (d : Dict.t V) :
  In v (Dict.values d) -> exists k, In (k, v) d.
Proof.
  intros H. apply in_map_iff in H as ([k v'] & <- & H). now exists k.
Qed.

(** The fields selected for an explore of a well keyed index: fields of
    the explore that are not hidden; at least one when the explore has a
    field. *)
Lemma select_fields_ok (p : QueryPlanner.t) (explore : string)
    (terms : list string) (query : string) (ei : ExploreInfo) :
  get_explore_by_name (grounding_index p) explore = Some ei ->
  well_keyed (available_fields ei) ->
  exists fields,
    _select_fields p explore terms query = Ok fields
    /\ Forall (fun f => hidden f = false
                        /\ In f (Dict.values (available_fields ei)))
              fields
    /\ (available_fields ei <> [] -> fields <> []).
Proof.
  intros He Hw. unfold _select_fields.
  destruct (FieldScoreFacts.relevant_fields_ok (grounding_index p) explore
              terms ei He Hw) as (result & -> & Hall).
  unfold bind_outcome. rewrite He.
  destruct (sorted_desc snd result) as [|r relevant] eqn:Hrel.
  - (* the fallback *)
    eexists. split; [reflexivity|]. split.
    + apply firstn_Forall. apply Forall_forall. intros f Hf.
      apply filter_In in Hf as [Hin Hh].
      apply negb_true_iff in Hh. auto.
    + intros Hne. apply firstn_nonempty.
      destruct (available_fields ei) as [|[k f] l] eqn:Ha; [congruence|].
      simpl. destruct (Hw k f) as [_ ->]; [now left|].
      simpl. discriminate.
  - set (selected :=
           List.map fst (filter (fun fs => 1 <=? snd fs) (r :: relevant))).
    assert (Hsel : Forall (fun f => hidden f = false
                            /\ In f (Dict.values (available_fields ei)))
                          selected).
    { apply Forall_forall. intros f Hf.
      apply in_map_iff in Hf as ([f' s] & <- & Hf).
      apply filter_In in Hf as [Hf _].
      apply (proj1 (Forall_forall _ _) Hall) in Hf as (_ & Hh & Hg).
      split; [exact Hh|]. apply get_in in Hg. now apply values_in in Hg. }
    assert (Hne : selected <> []).
    { subst selected. inversion Hall as [|? ? (H1 & _) _]; subst.
      apply Nat.leb_le in H1.
      change (filter (fun fs : FieldInfo * nat => 1 <=? snd fs)
                     (r :: relevant))
        with (if 1 <=? snd r
              then r :: filter (fun fs : FieldInfo * nat => 1 <=? snd fs)
                               relevant
              else filter (fun fs : FieldInfo * nat => 1 <=? snd fs)
                          relevant).
      rewrite H1. discriminate. }
    eexists. split; [reflexivity|]. split.
    + apply firstn_Forall.
      destruct (filter is_measure selected); [exact Hsel|].
      destruct (filter is_dimension selected); [|exact Hsel].
      apply append_first_dimension_ok; [exact Hsel|]. auto.
    + intros _. apply firstn_nonempty.
      destruct (filter is_measure selected); [exact Hne|].
      destruct (filter is_dimension selected); [|exact Hne].
      now apply append_first_dimension_nonempty.
Qed.

End SelectFacts.

Module RequiredJoinFacts.
Import GroundingIndex QueryPlanner PySetFacts.

Lemma in_add (x y : string) (s : PySet.t) :
  In x (PySet.add y s) <-> x = y \/ In x s.
Proof.
  unfold PySet.add. destruct (PySet.mem y s) eqn:E.
  - apply mem_In in E. split; [now right|]. intros [->|H]; assumption.
  - rewrite in_app_iff. simpl. split.
    + intros [H|[H|[]]]; [now right | now left].
    + intros [H|H]; [right; left; now symmetry | now left].
Qed.

Lemma in_of_list (x : string) (l : list string) :
  In x (PySet.of_list l) <-> In x l.
Proof.
  unfold PySet.of_list.
  assert (H : forall s,
             In x (fold_left (fun acc y => PySet.add y acc) l s)
             <-> In x s \/ In x l).
  { induction l as [|y l IH]; intros s; simpl; [tauto|].
    rewrite IH, in_add. split.
    - intros [[H|H]|H]; auto.
    - intros [H|[H|H]]; auto. }
  rewrite H. unfold PySet.empty. simpl. tauto.
Qed.

(** The views collected by the loop of [_determine_required_joins]. *)
Lemma in_required_views (base : string) (fields : list FieldInfo)
    (v : string) :
  forall acc,
    In v (fold_left
            (fun required field =>
               if negb (String.eqb (view_name field) base)
               then PySet.add (view_name field) required
               else required)
            fields acc)
    <-> In v acc
        \/ (v <> base /\ exists f, In f fields /\ view_name f = v).
Proof.
  induction fields as [|f fields IH]; intros acc; simpl.
  - split; [now left|]. intros [H|(_ & f & [] & _)]. exact H.
  - rewrite IH. destruct (String.eqb (view_name f) base) eqn:E; simpl.
    + apply String.eqb_eq in E. split.
      * intros [H|(Hv & g & Hg & Hgv)]; [now left|].
        right. split; [exact Hv|]. exists g. auto.
      * intros [H|(Hv & g & [<-|Hg] & Hgv)]; [now left | congruence |].
        right. split; [exact Hv|]. exists g. auto.
    + apply String.eqb_neq in E. rewrite in_add. split.
      * intros [[->|H]|(Hv & g & Hg & Hgv)].
        -- right. split; [exact E|]. exists f. auto.
        -- now left.
        -- right. split; [exact Hv|]. exists g. auto.
      * intros [H|(Hv & g & [<-|Hg] & Hgv)].
        -- left. now right.
        -- left. left. now symmetry.
        -- right. split; [exact Hv|]. exists g. auto.
Qed.

Lemma required_views_size (base : string) (fields : list FieldInfo) :
  forall acc,
    PySet.size
      (fold_left
         (fun required field =>
            if negb (String.eqb (view_name field) base)
            then PySet.add (view_name field) required
            else required)
         fields acc)
    <= PySet.size acc + List.length fields.
Proof.
  induction fields as [|f fields IH]; intros acc; simpl; [lia|].
  etransitivity; [apply IH|].
  destruct (negb _); [|lia].
  pose proof (add_size (view_name f) acc). lia.
Qed.

Lemma in_firstn {A : Type} (x : A) (n : nat) (l : list A) :
  In x (firstn n l) -> In x l.
Proof.
  revert n. induction l as [|y l IH]; intros [|n]; simpl; try tauto.
  intros [H|H]; [now left | right; eauto].
Qed.

Lemma in_slice_to {A : Type} (x : A) (k : Z) (l : list A) :
  In x (slice_to k l) -> In x l.
Proof. unfold slice_to. destruct (k <? 0)%Z; apply in_firstn. Qed.

(** [_determine_required_joins] raises only where the warning cannot be
    printed: [max_joins] is below the number of views and has too many
    digits. *)
Lemma required_joins_raises (set_order : PySet.t -> list string)
    (p : QueryPlanner.t) (explore : string) (fields : list FieldInfo)
    (e : exn) :
  _determine_required_joins set_order p explore fields = Raise e ->
  e = ValueError PyInt.too_long_to_print
  /\ PyInt.max_str_digits < String.length (Str.of_Z (Z.abs (max_joins p)))
  /\ (max_joins p < Z.of_nat (List.length fields))%Z.
Proof.
  unfold _determine_required_joins.
  destruct (get_explore_by_name _ _) as [ei|]; [|discriminate].
  pose proof (required_views_size (base_view ei) fields PySet.empty)
    as Hsize.
  change (PySet.size PySet.empty) with 0 in Hsize.
  destruct (max_joins p <? _)%Z eqn:E; [|discriminate].
  apply Z.ltb_lt in E.
  destruct (PyInt.to_str (max_joins p)) as [digits|e'] eqn:T;
    cbn [bind_outcome]; [discriminate|].
  intros [= <-]. apply DecimalFacts.to_str_raises in T as [-> T].
  repeat split; [exact T | lia].
Qed.

(** With at most ten fields, only a negative [max_joins] can have too
    many digits. *)
Lemma required_joins_raises_negative (set_order : PySet.t -> list string)
    (p : QueryPlanner.t) (explore : string) (fields : list FieldInfo)
    (e : exn) :
  List.length fields <= 10 ->
  _determine_required_joins set_order p explore fields = Raise e ->
  e = ValueError PyInt.too_long_to_print
  /\ PyInt.max_str_digits < String.length (Str.of_Z (Z.abs (max_joins p)))
  /\ (max_joins p < 0)%Z.
Proof.
  intros Hlen H. apply required_joins_raises in H as (-> & L & Hlt).
  repeat split; [exact L|].
  destruct (Z_lt_le_dec (max_joins p) 0) as [Hneg|Hpos]; [exact Hneg|].
  rewrite DecimalFacts.one_digit in L by lia.
  unfold PyInt.max_str_digits in L. lia.
Qed.

Lemma required_joins_returns (set_order : PySet.t -> list string)
    (p : QueryPlanner.t) (explore : string) (fields : list FieldInfo) :
  List.length fields <= 10 ->
  (0 <= max_joins p)%Z
  \/ String.length (Str.of_Z (Z.abs (max_joins p))) <= PyInt.max_str_digits ->
  exists joins,
    _determine_required_joins set_order p explore fields = Ok joins.
Proof.
  intros Hlen Hm.
  destruct (_determine_required_joins set_order p explore fields)
    as [joins|e] eqn:E; [eauto|].
  apply required_joins_raises_negative in E as (_ & L & Hneg);
    [|exact Hlen].
  destruct Hm; lia.
Qed.

End RequiredJoinFacts.

Module PlanFacts.
Import GroundingIndex QueryPlanner.

(** Once the limit is extracted, [plan_query] returns, or raises because
    the warning about too many joins cannot be printed. *)
Lemma plan_query_after_limit (set_order : PySet.t -> list string)
    (p : QueryPlanner.t) (query : string) (d : Z)
    (extracted : option Z) :
  index_well_keyed (grounding_index p) ->
  _extract_limit query = Ok extracted ->
  (exists r,
      plan_query set_order p query d = Ok r
      /\ (explores (grounding_index p) <> [] ->
          (forall k ei,
              In (k, ei) (explores (grounding_index p)) ->
              k <> "" /\ available_fields ei <> []) ->
          exists plan, r = Some plan))
  \/ (plan_query set_order p query d
      = Raise (ValueError PyInt.too_long_to_print)
      /\ PyInt.max_str_digits
         < String.length (Str.of_Z (Z.abs (max_joins p)))
      /\ (max_joins p < 0)%Z).
Proof.
  intros Hw He. unfold plan_query. rewrite He. cbn [bind_outcome].
  destruct (_select_explore p _) as [explore|] eqn:Hsel.
  2:{ left. exists None. split; [reflexivity|]. intros Hne.
      now apply SelectFacts.select_explore_none in Hsel. }
  apply SelectFacts.select_explore_in in Hsel.
  apply SelectFacts.in_keys_get in Hsel as (ei & Hei).
  apply DictMore.get_in in Hei as Hin.
  destruct (Str.is_empty explore) eqn:Hemp.
  { left. exists None. split; [reflexivity|]. intros _ Hall.
    destruct (Hall explore ei Hin) as [Hk _].
    destruct explore; [congruence | discriminate]. }
  destruct (SelectFacts.select_fields_ok p explore
              (_extract_query_terms query) query ei Hei
              (Hw explore ei Hin)) as (fields & Hf & _ & Hne).
  rewrite Hf. cbn [bind_outcome].
  apply PlannerFacts.select_fields_at_most_ten in Hf.
  destruct fields as [|f fields].
  - left. exists None. split; [reflexivity|]. intros _ Hall.
    destruct (Hall explore ei Hin) as [_ Ha]. now apply Hne in Ha.
  - destruct (_determine_required_joins set_order p explore (f :: fields))
      as [joins|e] eqn:Hj; cbn [bind_outcome].
    + left. eexists. split; [reflexivity|]. intros _ _. eexists. reflexivity.
    + right.
      apply RequiredJoinFacts.required_joins_raises_negative in Hj
        as (-> & L & Hneg); [|exact Hf].
      auto.
Qed.

End PlanFacts.

Module FilterFacts.
Import QueryPlanner.

Lemma first_time_filter_length
    (patterns : list (Re.regex * (Re.found -> string))) (text : string) :
  List.length (first_time_filter patterns text) <= 1.
Proof.
  induction patterns as [|[r f] patterns IH]; simpl; [lia|].
  destruct (Re.search r text); [simpl; lia | exact IH].
Qed.

(** Every filter text names the field it is built for. *)
Lemma time_filter_names_field (field text flt : string) :
  In flt (first_time_filter (time_patterns field) text) ->
  exists pre post, flt = pre ++ field ++ post.
Proof.
  unfold time_patterns. cbn [first_time_filter].
  repeat match goal with
         | |- context [Re.search ?r text] => destruct (Re.search r text)
         end;
    intros H; try (now destruct H); destruct H as [<-|[]];
    cbv beta; eexists; eexists; reflexivity.
Qed.

End FilterFacts.

Module BuildFacts.
Import GroundingIndex SQLBuilder StrFacts.

Lemma to_Z_acc_nonneg (s : string) (acc : Z) :
  (0 <= acc)%Z -> (0 <= Str.to_Z_acc s acc)%Z.
Proof.
  revert acc.
  induction s as [|c s IH]; intros acc H; cbn [Str.to_Z_acc]; [exact H|].
  apply IH. unfold Str.digit_value. lia.
Qed.

Lemma extract_limit_nonneg (query : string) (n : Z) :
  QueryPlanner._extract_limit query = Ok (Some n) -> (0 <= n)%Z.
Proof.
  intros E. pose proof (LimitRequestFacts.extract_limit_spec query) as Hs.
  rewrite E in Hs. destruct Hs as (ds & _ & _ & ->).
  apply to_Z_acc_nonneg. lia.
Qed.


(** The last of several lines. *)
Lemma join_last (sep : string) (parts : list string) (z : string) :
  parts <> [] ->
  Str.join sep (parts ++ [z]) = Str.join sep parts ++ sep ++ z.
Proof.
  unfold Str.join. induction parts as [|x parts IH]; [congruence|].
  intros _. destruct parts as [|y parts].
  - reflexivity.
  - change (String.concat sep ((x :: y :: parts) ++ [z]))
      with (x ++ sep ++ String.concat sep ((y :: parts) ++ [z])).
    rewrite IH by discriminate.
    change (String.concat sep (x :: y :: parts))
      with (x ++ sep ++ String.concat sep (y :: parts)).
    now rewrite !append_assoc.
Qed.

(** A rule-based plan that has a limit other than zero compiles to a text
    whose last line is the LIMIT clause. *)
Lemma build_sql_ends_in_limit (idx : GroundingIndex.t) (plan : QueryPlan)
    (n : Z) (m m' : FieldMapper.t) (sql : string) :
  truthy (llm_generated_sql plan) = false ->
  limit plan = Some n -> n <> 0%Z ->
  build_sql idx plan m = (Ok sql, m') ->
  exists body,
    sql = body ++ String Chars.newline "" ++ "LIMIT " ++ Str.of_Z n.
Proof.
  intros Hllm Hlim Hn. unfold build_sql. rewrite Hllm, Hlim.
  destruct (get_explore_by_name idx (explore_name plan)) as [ei|];
    [|discriminate].
  unfold Build.bind at 1. unfold Build.write at 1.
  unfold Build.bind at 1.
  destruct (_build_select_clause (selected_fields plan) _)
    as [[select_clause|e] m1]; [|discriminate].
  unfold Build.bind at 1.
  destruct (_build_from_clause idx ei (required_joins plan) m1)
    as [[from_clause|e] m2]; [|discriminate].
  unfold Build.bind at 1.
  destruct (_build_where_clause (filters plan) m2)
    as [[where_clause|e] m3]; [|discriminate].
  unfold Build.bind at 1. unfold Build.lift, Build.ret, _build_limit_clause.
  destruct (n =? 0)%Z eqn:E; [apply Z.eqb_eq in E; congruence|].
  destruct (PyInt.to_str n) as [digits|e] eqn:T; cbn [bind_outcome];
    [|discriminate].
  apply DecimalFacts.to_str_ok in T as [-> _].
  change (optional_part "" (Some ("LIMIT " ++ Str.of_Z n)))
    with ["LIMIT " ++ Str.of_Z n].
  rewrite !app_assoc. rewrite join_last.
  - match goal with
    | |- (Ok (?b ++ _), _) = _ -> _ => intros H; exists b; congruence
    end.
  - intros H. apply app_eq_nil in H as [H _]. apply app_eq_nil in H as [H _].
    discriminate.
Qed.

End BuildFacts.

Module StripFacts.
Import StrFacts.

Lemma lstrip_by_id (p : ascii -> bool) (s : string) :
  holds_at p (first_char s) = false -> Str.lstrip_by p s = s.
Proof. destruct s as [|c s]; simpl; [reflexivity|]. now intros ->. Qed.

Lemma rstrip_by_id (p : ascii -> bool) (s : string) :
  holds_at p (last_char s) = false -> Str.rstrip_by p s = s.
Proof.
  induction s as [|c s IH]; [reflexivity|].
  destruct s as [|d s].
  - simpl. now intros ->.
  - intros H. change (last_char (String c (String d s)))
      with (last_char (String d s)) in H.
    specialize (IH H).
    change (Str.rstrip_by p (String c (String d s)))
      with (match Str.rstrip_by p (String d s) with
            | EmptyString =>
                if p c then EmptyString else String c EmptyString
            | r => String c r
            end).
    now rewrite IH.
Qed.

Lemma strip_by_id (p : ascii -> bool) (s : string) :
  holds_at p (first_char s) = false ->
  holds_at p (last_char s) = false ->
  Str.strip_by p s = s.
Proof.
  intros Hf Hl. unfold Str.strip_by.
  rewrite lstrip_by_id by exact Hf. now apply rstrip_by_id.
Qed.

Lemma rstrip_by_all (p : ascii -> bool) (r : string) :
  Str.forallb p r = true -> Str.rstrip_by p r = "".
Proof.
  induction r as [|c r IH]; simpl; [reflexivity|].
  intros H. apply andb_true_iff in H as [Hc Hr].
  rewrite (IH Hr). now rewrite Hc.
Qed.

Lemma rstrip_by_app (p : ascii -> bool) (s r : string) :
  Str.forallb p r = true ->
  Str.rstrip_by p (s ++ r) = Str.rstrip_by p s.
Proof.
  intros Hr. induction s as [|c s IH]; simpl.
  - now apply rstrip_by_all.
  - now rewrite IH.
Qed.

Lemma lstrip_by_all (p : ascii -> bool) (l : string) :
  Str.forallb p l = true -> Str.lstrip_by p l = "".
Proof.
  induction l as [|c l IH]; simpl; [reflexivity|].
  intros H. apply andb_true_iff in H as [-> Hl]. auto.
Qed.

Lemma lstrip_by_app (p : ascii -> bool) (l s : string) :
  Str.forallb p l = true ->
  Str.lstrip_by p (l ++ s) = Str.lstrip_by p s.
Proof.
  induction l as [|c l IH]; simpl; [reflexivity|].
  intros H. apply andb_true_iff in H as [-> Hl]. auto.
Qed.

(** Stripping gives back the core of a text wrapped in characters that
    are stripped. *)
Lemma strip_by_wrapped (p : ascii -> bool) (l s r : string) :
  Str.forallb p l = true -> Str.forallb p r = true ->
  holds_at p (first_char s) = false ->
  holds_at p (last_char s) = false ->
  Str.strip_by p (l ++ s ++ r) = s.
Proof.
  intros Hl Hr Hf Hla. unfold Str.strip_by.
  rewrite lstrip_by_app by exact Hl.
  destruct s as [|c s].
  - simpl. now rewrite (lstrip_by_all p r Hr).
  - assert (Hc : p c = false) by exact Hf.
    change (Str.lstrip_by p (String c s ++ r))
      with (if p c then Str.lstrip_by p (s ++ r) else String c s ++ r).
    rewrite Hc. rewrite rstrip_by_app by exact Hr.
    now apply rstrip_by_id.
Qed.

End StripFacts.

Module NameFacts.
Import SQLBuilder StrFacts StripFacts.

Lemma map_map (f g : ascii -> ascii) (s : string) :
  Str.map f (Str.map g s) = Str.map (fun c => f (g c)) s.
Proof. induction s as [|c s IH]; simpl; [reflexivity | now rewrite IH]. Qed.

Lemma map_ext (f g : ascii -> ascii) (s : string) :
  (forall c, f c = g c) -> Str.map f s = Str.map g s.
Proof.
  intros H. induction s as [|c s IH]; simpl; [reflexivity|].
  now rewrite H, IH.
Qed.

Lemma existsb_map (p : ascii -> bool) (f : ascii -> ascii) (s : string) :
  (forall c, p (f c) = false) -> Str.existsb p (Str.map f s) = false.
Proof.
  intros H. induction s as [|c s IH]; simpl; [reflexivity|].
  now rewrite H, IH.
Qed.

(** One character of an alias. *)
Lemma alias_char_fixed (c : ascii) :
  let h := fun c => if Ascii.eqb (Chars.lower c) "-" then "_"%char
                    else Chars.lower c in
  h (h c) = h c
  /\ Ascii.eqb "-" (h c) = false
  /\ Chars.is_upper_az (h c) = false
  /\ h (Chars.lower c) = h c
  /\ h (if Ascii.eqb c "-" then "_"%char else c) = h c.
Proof. destruct c as [[] [] [] [] [] [] [] []]; vm_compute; auto. Qed.

Lemma get_table_alias_map (s : string) :
  _get_table_alias s
  = Str.map (fun c => if Ascii.eqb (Chars.lower c) "-" then "_"%char
                      else Chars.lower c) s.
Proof.
  unfold _get_table_alias, Str.replace_char, Str.lower. now rewrite map_map.
Qed.

(** The quote characters that [_clean_table_name] strips. *)
Lemma clean_table_name_cases (t : string) :
  exists c l r,
    t = l ++ c ++ r
    /\ holds_at (fun a => Ascii.eqb a Chars.backtick
                          || Ascii.eqb a Chars.dquote
                          || Ascii.eqb a Chars.squote) (first_char c) = false
    /\ holds_at (fun a => Ascii.eqb a Chars.backtick
                          || Ascii.eqb a Chars.dquote
                          || Ascii.eqb a Chars.squote) (last_char c) = false
    /\ _clean_table_name t
       = if Str.existsb (Ascii.eqb ".") c then "`" ++ c ++ "`" else c.
Proof.
  unfold _clean_table_name.
  set (q := fun a => Ascii.eqb a Chars.backtick || Ascii.eqb a Chars.dquote
                     || Ascii.eqb a Chars.squote).
  destruct (strip_by_spec q t) as (l & r & Ht & _ & _ & Hf & Hl).
  exists (Str.strip_by q t), l, r.
  split; [exact Ht|]. split; [exact Hf|]. split; [exact Hl|].
  destruct (Str.existsb (Ascii.eqb ".") (Str.strip_by q t)); [|reflexivity].
  destruct (Str.strip_by q t) as [|a c]; [reflexivity|].
  unfold Str.startswith.
  destruct (prefix "`" (String a c)) eqn:E; [|reflexivity].
  apply prefix_split in E. cbn [String.length Str.drop append] in E.
  injection E as ->. subst q. cbv in Hf. discriminate.
Qed.

Lemma last_char_app (s : string) (a : ascii) :
  last_char (s ++ String a "") = Some a.
Proof.
  induction s as [|c s IH]; [reflexivity|].
  destruct s as [|d s]; [reflexivity|]. exact IH.
Qed.

Lemma existsb_app (p : ascii -> bool) (a b : string) :
  Str.existsb p (a ++ b) = Str.existsb p a || Str.existsb p b.
Proof.
  induction a as [|c a IH]; simpl; [reflexivity|].
  now rewrite IH, orb_assoc.
Qed.

End NameFacts.

Module FindallFacts.
Import Re StrFacts ReFacts.

(** Every text that [findall] returns is the text of a match at some
    position of the text that is scanned. *)
Lemma findall_from_in (r : regex) (t : string) (s : string) :
  forall pv skip,
    In t (findall_from r pv s skip) ->
    exists pre post c,
      s = pre ++ post
      /\ match_here r (last_or pv pre) post = Some c
      /\ t = Str.take (taken c) post.
Proof.
  induction s as [|a s IH]; intros pv [|k] H; cbn [findall_from] in H.
  - destruct (match_here r pv "") as [c|] eqn:E; [|destruct H].
    destruct H as [<-|[]]. exists "", "", c. auto.
  - destruct H.
  - destruct (match_here r pv (String a s)) as [c|] eqn:E.
    + assert (Hcases : t = Str.take (taken c) (String a s)
                       \/ exists k', In t (findall_from r (Some a) s k')).
      { destruct (taken c) as [|k']; destruct H as [<-|H]; eauto. }
      destruct Hcases as [->|(k' & Hin)].
      * exists "", (String a s), c. auto.
      * destruct (IH _ _ Hin) as (pre & post & c' & -> & Hm & ->).
        exists (String a pre), post, c'. auto.
    + destruct (IH _ _ H) as (pre & post & c' & -> & Hm & ->).
      exists (String a pre), post, c'. auto.
  - destruct (IH _ _ H) as (pre & post & c' & -> & Hm & ->).
    exists (String a pre), post, c'. auto.
Qed.

Lemma forallb_app (p : ascii -> bool) (a b : string) :
  Str.forallb p (a ++ b) = Str.forallb p a && Str.forallb p b.
Proof.
  induction a as [|c a IH]; simpl; [reflexivity|].
  now rewrite IH, andb_assoc.
Qed.

Lemma lower_char_idem (c : ascii) :
  Chars.lower (Chars.lower c) = Chars.lower c.
Proof. destruct c as [[] [] [] [] [] [] [] []]; vm_compute; reflexivity. Qed.

Lemma lower_idem (s : string) : Str.lower (Str.lower s) = Str.lower s.
Proof.
  unfold Str.lower. induction s as [|c s IH]; simpl; [reflexivity|].
  now rewrite lower_char_idem, IH.
Qed.

Lemma lower_app (a b : string) :
  Str.lower (a ++ b) = Str.lower a ++ Str.lower b.
Proof.
  unfold Str.lower. induction a as [|c a IH]; simpl; [reflexivity|].
  now rewrite IH.
Qed.

Lemma length_lower (s : string) :
  String.length (Str.lower s) = String.length s.
Proof.
  unfold Str.lower. induction s as [|c s IH]; simpl; [reflexivity|].
  now rewrite IH.
Qed.

Lemma append_inj_length (a b a' b' : string) :
  a ++ b = a' ++ b' -> String.length a = String.length a' ->
  a = a' /\ b = b'.
Proof.
  revert a'. induction a as [|c a IH]; intros [|c' a'] H Hl;
    try discriminate; simpl in *.
  - auto.
  - injection H as -> H. injection Hl as Hl.
    destruct (IH _ H Hl) as [-> ->]. auto.
Qed.

(** A part of a text in lower case is in lower case. *)
Lemma lower_part (s pre t post : string) :
  Str.lower s = pre ++ t ++ post -> Str.lower t = t.
Proof.
  intros H. pose proof (lower_idem s) as Hi. rewrite H in Hi.
  rewrite !lower_app in Hi.
  apply append_inj_length in Hi as [_ Hi]; [|apply length_lower].
  apply append_inj_length in Hi as [Hi _]; [exact Hi | apply length_lower].
Qed.

(** What the pattern of [_extract_query_terms] matches: a letter or an
    underscore, then word characters. *)
Lemma term_pattern_sound (pv : option ascii) (s : string) (c : cursor) :
  match_here QueryPlanner.term_pattern pv s = Some c ->
  exists a x,
    Str.take (taken c) s = String a x
    /\ Chars.is_ident_start a = true
    /\ Str.forallb Chars.is_word x = true.
Proof.
  unfold match_here, QueryPlanner.term_pattern. cbn [seqs].
  cbn [exec start prev rest taken caps]. intros H.
  destruct (at_boundary pv s); [|discriminate].
  destruct s as [|a s]; [discriminate|].
  destruct (Chars.is_ident_start a) eqn:Ha; [|discriminate].
  apply many_inv in H as (x & s' & -> & Hx & H).
  cbn [exec prev rest taken caps] in H.
  destruct (at_boundary _ _); [|discriminate].
  injection H as <-. cbn [taken].
  exists a, x. split; [|auto].
  apply (take_append (String a x) s').
Qed.

(** What the pattern of [_extract_keywords] matches: three letters or
    more. *)
Lemma keyword_pattern_sound (pv : option ascii) (s : string) (c : cursor) :
  match_here GroundingIndex.keyword_pattern pv s = Some c ->
  3 <= String.length (Str.take (taken c) s)
  /\ Str.forallb Chars.is_alpha_az (Str.take (taken c) s) = true.
Proof.
  unfold match_here, GroundingIndex.keyword_pattern. cbn [seqs].
  cbn [exec start prev rest taken caps]. intros H.
  destruct (at_boundary pv s); [|discriminate].
  destruct s as [|a1 s]; [discriminate|].
  destruct (Chars.is_alpha_az a1) eqn:H1; [|discriminate].
  cbn [exec prev rest taken caps] in H.
  destruct s as [|a2 s]; [discriminate|].
  destruct (Chars.is_alpha_az a2) eqn:H2; [|discriminate].
  cbn [exec prev rest taken caps] in H.
  destruct s as [|a3 s]; [discriminate|].
  destruct (Chars.is_alpha_az a3) eqn:H3; [|discriminate].
  cbn [exec prev rest taken caps] in H.
  apply many_inv in H as (x & s' & -> & Hx & H).
  cbn [exec prev rest taken caps] in H.
  destruct (at_boundary _ _); [|discriminate].
  injection H as <-. cbn [taken].
  assert (Ht : Str.take (3 + String.length x)
                  (String a1 (String a2 (String a3 (x ++ s'))))
               = String a1 (String a2 (String a3 x))).
  { apply (take_append (String a1 (String a2 (String a3 x))) s'). }
  change (3 + String.length x) with (S (S (S (String.length x)))) in Ht.
  rewrite Ht. split; [simpl; lia|].
  simpl. now rewrite H1, H2, H3, Hx.
Qed.

Lemma in_list_false (x : string) (l : list string) :
  GroundingIndex.in_list x l = false -> ~ In x l.
Proof.
  unfold GroundingIndex.in_list. intros H Hin.
  assert (Ht : List.existsb (String.eqb x) l = true).
  { apply existsb_exists. exists x. split; [exact Hin|].
    apply String.eqb_refl. }
  congruence.
Qed.

End FindallFacts.

Module GlossaryFacts.
Import GroundingIndex DictFacts DictMore StrFacts FindallFacts.

Lemma opt_eqb_refl (o : option string) : opt_eqb o o = true.
Proof. destruct o; simpl; [apply String.eqb_refl | reflexivity]. Qed.

Lemma FieldInfo_eqb_refl (f : FieldInfo) : FieldInfo_eqb f f = true.
Proof.
  unfold FieldInfo_eqb.
  now rewrite !String.eqb_refl, !opt_eqb_refl, Bool.eqb_reflx.
Qed.

Lemma existsb_eqb_in (f : FieldInfo) (fs : list FieldInfo) :
  List.existsb (FieldInfo_eqb f) fs = false -> ~ In f fs.
Proof.
  intros H Hin.
  assert (Ht : List.existsb (FieldInfo_eqb f) fs = true).
  { apply existsb_exists. exists f. split; [exact Hin|].
    apply FieldInfo_eqb_refl. }
  congruence.
Qed.

(** The key under which [_add_to_glossary] files a term. *)
Lemma glossary_key_lower (term : string) :
  Str.lower (Str.strip (Str.lower term)) = Str.strip (Str.lower term).
Proof.
  destruct (strip_by_spec Chars.is_space (Str.lower term))
    as (l & r & H & _).
  unfold Str.strip. now apply (lower_part term l _ r).
Qed.

Lemma add_to_glossary_ok (fields : FieldInfo -> Prop) (term : string)
    (f : FieldInfo) (g : Dict.t (list FieldInfo)) :
  fields f -> glossary_ok fields g ->
  glossary_ok fields (_add_to_glossary term f g).
Proof.
  intros Hf Hg. unfold _add_to_glossary.
  destruct (2 <? String.length (Str.strip (Str.lower term))) eqn:Hlen;
    [|exact Hg].
  apply Nat.ltb_lt in Hlen.
  set (present := match Dict.get _ g with Some fs => fs | None => [] end).
  destruct (List.existsb (FieldInfo_eqb f) present) eqn:Hex; [exact Hg|].
  intros k fs Hin. apply in_set in Hin as [Hin|Hin]; [|now apply Hg].
  injection Hin as -> ->.
  split; [exact Hlen|]. split; [apply glossary_key_lower|].
  split; [now destruct present|].
  assert (Hp : NoDup present /\ Forall fields present).
  { subst present.
    destruct (Dict.get (Str.strip (Str.lower term)) g) as [fs|] eqn:Hget.
    - apply get_in in Hget. destruct (Hg _ _ Hget) as (_ & _ & _ & Hn & Ha).
      auto.
    - split; constructor. }
  destruct Hp as [Hn Ha]. split.
  - apply NoDup_app; [exact Hn | repeat constructor; intros [] |].
    intros x Hx [<-|[]]. now apply existsb_eqb_in in Hex.
  - apply Forall_app. split; [exact Ha|]. now repeat constructor.
Qed.

Lemma add_to_glossary_keeps (term t : string) (f f' : FieldInfo)
    (g : Dict.t (list FieldInfo)) :
  glossary_has g t f -> glossary_has (_add_to_glossary term f' g) t f.
Proof.
  intros (fs & Hget & Hex). unfold _add_to_glossary.
  destruct (2 <? String.length (Str.strip (Str.lower term)));
    [|now exists fs].
  set (key := Str.strip (Str.lower term)).
  destruct (List.existsb (FieldInfo_eqb f') _); [now exists fs|].
  unfold glossary_has. rewrite get_set.
  destruct (String.eqb t key) eqn:E.
  - apply String.eqb_eq in E. subst t. rewrite Hget.
    eexists. split; [reflexivity|]. now rewrite existsb_app, Hex.
  - now exists fs.
Qed.

Lemma add_to_glossary_has (term : string) (f : FieldInfo)
    (g : Dict.t (list FieldInfo)) :
  2 < String.length (Str.strip (Str.lower term)) ->
  glossary_has (_add_to_glossary term f g) (Str.strip (Str.lower term)) f.
Proof.
  intros Hlen. unfold _add_to_glossary.
  apply Nat.ltb_lt in Hlen. rewrite Hlen.
  set (key := Str.strip (Str.lower term)).
  destruct (Dict.get key g) as [fs|] eqn:Hget.
  - destruct (List.existsb (FieldInfo_eqb f) fs) eqn:Hex.
    + now exists fs.
    + unfold glossary_has. rewrite get_set_same.
      eexists. split; [reflexivity|].
      rewrite existsb_app. simpl. now rewrite FieldInfo_eqb_refl, orb_true_r.
  - simpl. unfold glossary_has. rewrite get_set_same.
    eexists. split; [reflexivity|]. simpl. now rewrite FieldInfo_eqb_refl.
Qed.

Lemma add_words_ok (fields : FieldInfo -> Prop) (words : list string)
    (f : FieldInfo) :
  fields f ->
  forall g, glossary_ok fields g -> glossary_ok fields (add_words words f g).
Proof.
  intros Hf. unfold add_words.
  induction words as [|w words IH]; intros g Hg; simpl; [exact Hg|].
  apply IH. now apply add_to_glossary_ok.
Qed.

Lemma add_words_keeps (words : list string) (t : string) (f f' : FieldInfo) :
  forall g, glossary_has g t f -> glossary_has (add_words words f' g) t f.
Proof.
  unfold add_words.
  induction words as [|w words IH]; intros g Hg; simpl; [exact Hg|].
  apply IH. now apply add_to_glossary_keeps.
Qed.

Lemma index_field_ok (fields : FieldInfo -> Prop) (f : FieldInfo)
    (g : Dict.t (list FieldInfo)) :
  fields f -> glossary_ok fields g -> glossary_ok fields (index_field g f).
Proof.
  intros Hf Hg. unfold index_field.
  assert (H1 : glossary_ok fields
                 (_add_to_glossary (Str.lower (name f)) f g))
    by now apply add_to_glossary_ok.
  assert (H2 : glossary_ok fields
                 (if truthy (lookml_description f)
                  then add_words
                         (_extract_keywords (or_empty (lookml_description f)))
                         f (_add_to_glossary (Str.lower (name f)) f g)
                  else _add_to_glossary (Str.lower (name f)) f g)).
  { destruct (truthy (lookml_description f)); [|exact H1].
    now apply add_words_ok. }
  destruct (truthy (bigquery_description f)); [|exact H2].
  now apply add_words_ok.
Qed.

Lemma index_field_keeps (t : string) (f f' : FieldInfo)
    (g : Dict.t (list FieldInfo)) :
  glossary_has g t f -> glossary_has (index_field g f') t f.
Proof.
  intros Hg. unfold index_field.
  assert (H1 : glossary_has (_add_to_glossary (Str.lower (name f')) f' g) t f)
    by now apply add_to_glossary_keeps.
  assert (H2 : glossary_has
                 (if truthy (lookml_description f')
                  then add_words
                         (_extract_keywords (or_empty (lookml_description f')))
                         f' (_add_to_glossary (Str.lower (name f')) f' g)
                  else _add_to_glossary (Str.lower (name f')) f' g) t f).
  { destruct (truthy (lookml_description f')); [|exact H1].
    now apply add_words_keeps. }
  destruct (truthy (bigquery_description f')); [|exact H2].
  now apply add_words_keeps.
Qed.

Lemma index_field_has (f : FieldInfo) (g : Dict.t (list FieldInfo)) :
  2 < String.length (Str.strip (Str.lower (name f))) ->
  glossary_has (index_field g f) (Str.strip (Str.lower (name f))) f.
Proof.
  intros Hlen. unfold index_field.
  assert (H1 : glossary_has (_add_to_glossary (Str.lower (name f)) f g)
                 (Str.strip (Str.lower (name f))) f).
  { rewrite <- (lower_idem (name f)) at 2.
    apply add_to_glossary_has. now rewrite lower_idem. }
  assert (H2 : glossary_has
                 (if truthy (lookml_description f)
                  then add_words
                         (_extract_keywords (or_empty (lookml_description f)))
                         f (_add_to_glossary (Str.lower (name f)) f g)
                  else _add_to_glossary (Str.lower (name f)) f g)
                 (Str.strip (Str.lower (name f))) f).
  { destruct (truthy (lookml_description f)); [|exact H1].
    now apply add_words_keeps. }
  destruct (truthy (bigquery_description f)); [|exact H2].
  now apply add_words_keeps.
Qed.

Lemma build_field_glossary_folds (explores : Dict.t ExploreInfo) :
  _build_field_glossary explores
  = fold_left
      (fun g ei => fold_left index_field (Dict.values (available_fields ei)) g)
      (Dict.values explores) Dict.empty.
Proof. reflexivity. Qed.

Lemma fold_index_field_ok (fields : FieldInfo -> Prop) (l : list FieldInfo) :
  Forall fields l ->
  forall g, glossary_ok fields g -> glossary_ok fields (fold_left index_field l g).
Proof.
  induction 1 as [|f l Hf Hl IH]; intros g Hg; simpl; [exact Hg|].
  apply IH. now apply index_field_ok.
Qed.

Lemma fold_index_field_keeps (t : string) (f : FieldInfo)
    (l : list FieldInfo) :
  forall g, glossary_has g t f -> glossary_has (fold_left index_field l g) t f.
Proof.
  induction l as [|f' l IH]; intros g Hg; simpl; [exact Hg|].
  apply IH. now apply index_field_keeps.
Qed.

Lemma fold_index_field_has (f : FieldInfo) (l : list FieldInfo) :
  In f l ->
  2 < String.length (Str.strip (Str.lower (name f))) ->
  forall g,
    glossary_has (fold_left index_field l g)
                 (Str.strip (Str.lower (name f))) f.
Proof.
  intros Hin Hlen. induction l as [|f' l IH]; intros g; [destruct Hin|].
  simpl. destruct Hin as [->|Hin].
  - apply fold_index_field_keeps. now apply index_field_has.
  - now apply IH.
Qed.

End GlossaryFacts.

Module ViewFacts.
Import GroundingIndex DictFacts DictMore StrFacts.

Lemma get_not_in_keys {V : Type} (k : string) (d : Dict.t V) :
  ~ In k (Dict.keys d) -> Dict.get k d = None.
Proof.
  intros H. destruct (Dict.get k d) as [v|] eqn:E; [|reflexivity].
  exfalso. apply H. apply mem_In_keys. unfold Dict.mem. now rewrite E.
Qed.

Lemma get_map_snd {A B : Type} (g : A -> B) (k : string) (d : Dict.t A) :
  Dict.get k (List.map (fun kv => (fst kv, g (snd kv))) d)
  = option_map g (Dict.get k d).
Proof.
  induction d as [|[k1 v1] d IH]; simpl; [reflexivity|].
  destruct (String.eqb k k1); [reflexivity | exact IH].
Qed.

(** Updating with a dictionary of distinct keys. *)
Lemma get_update_NoDup {V : Type} (k : string) (d other : Dict.t V) :
  NoDup (Dict.keys other) ->
  Dict.get k (Dict.update d other)
  = match Dict.get k other with
    | Some v => Some v
    | None => Dict.get k d
    end.
Proof.
  unfold Dict.update. revert d.
  induction other as [|[k1 v1] other IH]; intros d Hnd; simpl;
    [reflexivity|].
  inversion Hnd as [|? ? Hnot Hnd']; subst.
  rewrite IH by exact Hnd'.
  destruct (String.eqb k k1) eqn:E.
  - apply String.eqb_eq in E. subst k1.
    rewrite (get_not_in_keys k other Hnot). cbn [fst snd].
    apply get_set_same.
  - destruct (Dict.get k other); [reflexivity|]. cbn [fst snd].
    apply get_set_other. apply String.eqb_neq in E. congruence.
Qed.

Lemma append_inj_l (pre a b : string) : pre ++ a = pre ++ b -> a = b.
Proof.
  induction pre as [|c pre IH]; simpl; [auto|]. intros [= H]. auto.
Qed.

(** The loop of [_process_view_fields] over one kind of field. *)
Lemma get_fold_fields {A : Type} (pre : string) (skip : A -> bool)
    (mk : string -> A -> FieldInfo) (k : string) (l : Dict.t A) :
  (forall k' a, qualified_name (mk k' a) = pre ++ k') ->
  NoDup (Dict.keys l) ->
  forall acc,
    Dict.get (pre ++ k)
      (fold_left
         (fun fields kv =>
            if skip (snd kv) then fields
            else Dict.set (qualified_name (mk (fst kv) (snd kv)))
                          (mk (fst kv) (snd kv)) fields)
         l acc)
    = match Dict.get k l with
      | Some a =>
          if skip a then Dict.get (pre ++ k) acc else Some (mk k a)
      | None => Dict.get (pre ++ k) acc
      end.
Proof.
  intros Hq. induction l as [|[k1 a1] l IH]; intros Hnd acc; simpl;
    [reflexivity|].
  inversion Hnd as [|? ? Hnot Hnd']; subst.
  rewrite IH by exact Hnd'.
  destruct (String.eqb k k1) eqn:E.
  - apply String.eqb_eq in E. subst k1.
    rewrite (get_not_in_keys k l Hnot).
    destruct (skip a1); [reflexivity|]. rewrite Hq. apply get_set_same.
  - assert (Hother : Dict.get (pre ++ k)
                       (if skip a1 then acc
                        else Dict.set (qualified_name (mk k1 a1))
                                      (mk k1 a1) acc)
                     = Dict.get (pre ++ k) acc).
    { destruct (skip a1); [reflexivity|]. rewrite Hq.
      apply get_set_other. intros H. apply append_inj_l in H.
      apply String.eqb_neq in E. congruence. }
    rewrite Hother. reflexivity.
Qed.

Lemma after_last_no_sep (sep : ascii) (s : string) :
  Str.existsb (Ascii.eqb sep) (Str.after_last sep s) = false.
Proof.
  induction s as [|c s IH]; [reflexivity|].
  cbn [Str.after_last].
  destruct (Str.existsb (Ascii.eqb sep) (String c s)) eqn:E1;
    [|exact E1].
  destruct (Str.existsb (Ascii.eqb sep) s) eqn:E2; [exact IH | exact E2].
Qed.

Lemma bare_table_name_no_dot (t : string) :
  Str.existsb (Ascii.eqb ".") (bare_table_name t) = false.
Proof.
  unfold bare_table_name.
  set (table := Str.strip_by _ t).
  destruct (Str.existsb (Ascii.eqb ".") table) eqn:E; [|exact E].
  apply after_last_no_sep.
Qed.

(** The tables collected by the loop of [_extract_referenced_tables]. *)
Lemma in_referenced_tables (vs : list LookMLView) (t : string) :
  forall acc,
    In t (fold_left
            (fun tables view =>
               if truthy (sql_table_name view)
               then PySet.add
                      (bare_table_name (or_empty (sql_table_name view)))
                      tables
               else tables)
            vs acc)
    <-> In t acc
        \/ exists view,
             In view vs /\ truthy (sql_table_name view) = true
             /\ t = bare_table_name (or_empty (sql_table_name view)).
Proof.
  induction vs as [|v vs IH]; intros acc; simpl.
  - split; [now left|]. intros [H|(v & [] & _)]. exact H.
  - rewrite IH. destruct (truthy (sql_table_name v)) eqn:E.
    + rewrite RequiredJoinFacts.in_add. split.
      * intros [[->|H]|(w & Hw & Ht & ->)].
        -- right. exists v. auto.
        -- now left.
        -- right. exists w. auto.
      * intros [H|(w & [<-|Hw] & Ht & ->)].
        -- left. now right.
        -- left. now left.
        -- right. exists w. auto.
    + split.
      * intros [H|(w & Hw & Ht & ->)]; [now left|].
        right. exists w. auto.
      * intros [H|(w & [<-|Hw] & Ht & ->)]; [now left | congruence|].
        right. exists w. auto.
Qed.

End ViewFacts.

Module ColumnFacts.
Import Re StrFacts ReFacts StripFacts FieldMapper.

Lemma word_or_underscore (c : ascii) :
  Chars.is_word c || Ascii.eqb c "_" = Chars.is_word c.
Proof. destruct c as [[] [] [] [] [] [] [] []]; vm_compute; reflexivity. Qed.

Lemma word_not_space (c : ascii) :
  Chars.is_word c = true -> Chars.is_space c = false.
Proof. destruct c as [[] [] [] [] [] [] [] []]; vm_compute; congruence. Qed.

Lemma space_not_dot (c : ascii) :
  Chars.is_space c = true -> Ascii.eqb c "." = false.
Proof. destruct c as [[] [] [] [] [] [] [] []]; vm_compute; congruence. Qed.

Lemma forallb_ext (p q : ascii -> bool) (s : string) :
  (forall c, p c = q c) -> Str.forallb p s = Str.forallb q s.
Proof.
  intros H. induction s as [|c s IH]; simpl; [reflexivity|].
  now rewrite H, IH.
Qed.

Lemma last_char_word (col : string) :
  col <> "" -> Str.forallb Chars.is_word col = true ->
  holds_at Chars.is_space (last_char col) = false.
Proof.
  induction col as [|a col IH]; [congruence|]. intros _ H.
  simpl in H. apply andb_true_iff in H as [Ha H].
  destruct col as [|b col].
  - simpl. now apply word_not_space.
  - apply IH; [discriminate | exact H].
Qed.

Lemma last_char_append (a b : string) :
  b <> "" -> last_char (a ++ b) = last_char b.
Proof.
  intros Hb. induction a as [|c a IH]; [reflexivity|].
  simpl. rewrite IH. destruct (a ++ b) eqn:E; [|reflexivity].
  destruct a; [simpl in E; congruence | discriminate].
Qed.

(** What the pattern of a simple column reference matches. *)
Lemma simple_pattern_complete (col : string) :
  col <> "" -> Str.forallb Chars.is_word col = true ->
  match_start simple_pattern ("${TABLE}." ++ col) <> None.
Proof.
  intros Hne Hall. destruct col as [|a x]; [congruence|].
  simpl in Hall. apply andb_true_iff in Hall as [Ha Hx].
  unfold match_start, match_here, simple_pattern. cbn [seqs].
  cbn [exec start prev rest taken caps].
  rewrite exec_lit. cbn [start prev rest taken caps].
  change ("${TABLE}." ++ String a x) with ("${TABLE}" ++ String "." (String a x)).
  rewrite prefix_append, drop_append.
  unfold chr, plus. cbn [exec prev rest taken caps].
  rewrite Ascii.eqb_refl. cbn [exec prev rest taken caps].
  rewrite word_or_underscore, Ha.
  rewrite <- (append_empty_r x).
  erewrite many_first; [discriminate | | reflexivity | reflexivity].
  rewrite (forallb_ext _ Chars.is_word x word_or_underscore). exact Hx.
Qed.

Lemma simple_pattern_sound (s : string) (m : found) :
  holds_at Chars.is_space (last_char s) = false ->
  match_start simple_pattern s = Some m ->
  exists col,
    s = "${TABLE}." ++ col
    /\ col <> "" /\ Str.forallb Chars.is_word col = true.
Proof.
  intros Hlast. unfold match_start, match_here, simple_pattern.
  cbn [seqs]. cbn [exec start prev rest taken caps].
  rewrite exec_lit. cbn [start prev rest taken caps].
  destruct (prefix "${TABLE}" s) eqn:Hp.
  2:{ discriminate. }
  apply prefix_split in Hp.
  set (s1 := Str.drop (String.length "${TABLE}") s) in *.
  unfold chr, plus. cbn [exec prev rest taken caps].
  destruct s1 as [|d s2]; [discriminate|].
  destruct (Ascii.eqb "." d) eqn:Hd; [|discriminate].
  apply Ascii.eqb_eq in Hd. subst d.
  cbn [exec prev rest taken caps].
  destruct s2 as [|a s3]; [discriminate|].
  destruct (Chars.is_word a || Ascii.eqb a "_") eqn:Ha; [|discriminate].
  destruct (many _ _ _ _ _) as [r|] eqn:Hm; [|discriminate].
  intros _.
  apply many_inv in Hm as (x & s' & -> & Hx & Hk).
  cbn [exec prev rest taken caps] in Hk.
  destruct (at_end s') eqn:Hend; [|discriminate].
  rewrite word_or_underscore in Ha.
  assert (Hx' : Str.forallb Chars.is_word x = true).
  { now rewrite (forallb_ext _ Chars.is_word x word_or_underscore) in Hx. }
  assert (Hs' : s' = "").
  { destruct s' as [|n s']; [reflexivity|]. exfalso.
    destruct s'; [|discriminate]. simpl in Hend.
    apply Ascii.eqb_eq in Hend. subst n.
    rewrite Hp in Hlast.
    change ("${TABLE}" ++ String "." (String a (x ++ String Chars.newline "")))
      with (("${TABLE}." ++ String a "") ++ (x ++ String Chars.newline ""))
      in Hlast.
    rewrite last_char_append in Hlast
      by (destruct x; discriminate).
    rewrite NameFacts.last_char_app in Hlast. discriminate. }
  subst s'. rewrite append_empty_r in Hp.
  exists (String a x). split; [exact Hp|]. split; [discriminate|].
  simpl. now rewrite Ha, Hx'.
Qed.

Lemma after_first_spaces (l s : string) :
  Str.forallb Chars.is_space l = true ->
  Str.after_first "." (l ++ s) = Str.after_first "." s.
Proof.
  induction l as [|c l IH]; simpl; [reflexivity|].
  intros H. apply andb_true_iff in H as [Hc Hl].
  rewrite (space_not_dot c Hc). auto.
Qed.

End ColumnFacts.

Module SelectClauseFacts.
Import GroundingIndex SQLBuilder StrFacts.

(** The SELECT list only reads the mapper. *)
Lemma select_item_reads (f : FieldInfo) (m : FieldMapper.t) :
  snd (select_item f m) = m.
Proof.
  unfold select_item. destruct (truthy (sql_expression f)); [|reflexivity].
  unfold Build.bind, Build.read.
  destruct (FieldMapper.resolve_lookml_expression _ _ _ _ _); reflexivity.
Qed.

Lemma for_each_reads {A B : Type} (f : A -> Build.M B) (l : list A) :
  (forall a m, snd (f a m) = m) ->
  forall m, snd (Build.for_each f l m) = m.
Proof.
  intros Hf. induction l as [|a l IH]; intros m; simpl; [reflexivity|].
  unfold Build.bind. specialize (Hf a m).
  destruct (f a m) as [[y|e] m1]; simpl in Hf; subst m1; [|reflexivity].
  specialize (IH m).
  destruct (Build.for_each f l m) as [[ys|e] m2]; simpl in IH; subst m2;
    reflexivity.
Qed.

Lemma build_select_clause_reads (fields : list FieldInfo)
    (m : FieldMapper.t) :
  snd (_build_select_clause fields m) = m.
Proof.
  unfold _build_select_clause, Build.bind.
  pose proof (for_each_reads select_item fields select_item_reads m) as H.
  destruct (Build.for_each select_item fields m) as [[items|e] m1];
    simpl in H; subst m1; reflexivity.
Qed.

Lemma contains_needs_first (a : ascii) (tok s : string) :
  Str.existsb (Ascii.eqb a) s = false ->
  Str.contains (String a tok) s = false.
Proof.
  induction s as [|c s IH]; intros H.
  - reflexivity.
  - cbn [Str.existsb] in H. apply orb_false_iff in H as [Hc Hs].
    change (Str.contains (String a tok) (String c s))
      with (prefix (String a tok) (String c s)
            || Str.contains (String a tok) s).
    rewrite (IH Hs), orb_false_r.
    apply FieldRefFacts.prefix_first. apply Ascii.eqb_neq in Hc. congruence.
Qed.

Lemma word_not_dollar (c : ascii) :
  Chars.is_word c = true -> Ascii.eqb "$" c = false.
Proof. destruct c as [[] [] [] [] [] [] [] []]; vm_compute; congruence. Qed.

Lemma word_no_dollar (s : string) :
  Str.forallb Chars.is_word s = true ->
  Str.existsb (Ascii.eqb "$") s = false.
Proof.
  induction s as [|c s IH]; cbn [Str.forallb Str.existsb]; [reflexivity|].
  intros H. apply andb_true_iff in H as [Hc Hs].
  now rewrite (word_not_dollar c Hc), (IH Hs).
Qed.

(** The positions that [_build_group_by_clause] lists. *)
Lemma group_by_fields_closed (fields : list FieldInfo) :
  forall i,
    group_by_fields i fields
    = List.map (fun p => Str.of_Z (Z.of_nat (fst p)))
        (filter (fun p => negb (QueryPlanner.is_measure (snd p)))
                (combine (seq i (List.length fields)) fields)).
Proof.
  induction fields as [|f fields IH]; intros i; simpl; [reflexivity|].
  rewrite IH. unfold QueryPlanner.is_measure.
  destruct (String.eqb (field_type f) "measure"); reflexivity.
Qed.

Lemma group_by_fields_nil (fields : list FieldInfo) :
  forall i,
    group_by_fields i fields = []
    <-> List.forallb QueryPlanner.is_measure fields = true.
Proof.
  induction fields as [|f fields IH]; intros i; simpl; [tauto|].
  unfold QueryPlanner.is_measure at 1.
  destruct (String.eqb (field_type f) "measure"); simpl.
  - apply IH.
  - split; discriminate.
Qed.

End SelectClauseFacts.

Module FinditerFacts.
Import Re StrFacts ReFacts.

(** Where the scan finds no match, a substitution changes nothing. *)
Lemma sub_from_no_match (r : regex) (f : found -> string) (s : string) :
  forall pv k,
    finditer_from r pv s k = [] -> sub_from r f pv s k = Str.drop k s.
Proof.
  induction s as [|a s IH]; intros pv [|k] H;
    cbn [finditer_from sub_from Str.drop] in *.
  - destruct (match_here r pv ""); [discriminate | reflexivity].
  - reflexivity.
  - destruct (match_here r pv (String a s)) as [c|].
    + destruct (taken c); discriminate.
    + f_equal. now apply (IH _ 0).
  - now apply IH.
Qed.

Lemma finditer_from_skip (r : regex) (x post : string) :
  forall pv,
    finditer_from r pv (x ++ post) (String.length x)
    = finditer_from r (last_or pv x) post 0.
Proof. induction x as [|a x IH]; simpl; intros pv; auto. Qed.

(** A match at the start of the text is the first one reported. *)
Lemma finditer_here (r : regex) (tok post : string) (c : cursor) :
  tok <> "" ->
  match_here r None (tok ++ post) = Some c ->
  taken c = String.length tok ->
  finditer r (tok ++ post)
  = Found 0 tok (caps c) :: finditer_from r (last_or None tok) post 0.
Proof.
  intros Hne Hm Ht. unfold finditer.
  destruct tok as [|a tok]; [congruence|].
  change (String a tok ++ post) with (String a (tok ++ post)) in *.
  cbn [finditer_from]. rewrite Hm, Ht. cbn [String.length].
  assert (Htake : Str.take (S (String.length tok)) (String a (tok ++ post))
                  = String a tok).
  { apply (take_append (String a tok) post). }
  rewrite Htake. f_equal. rewrite finditer_from_skip. reflexivity.
Qed.

Lemma fold_left_pointwise {A B : Type} (f g : A -> B -> A) (l : list B) :
  (forall a b, f a b = g a b) ->
  forall acc, fold_left f l acc = fold_left g l acc.
Proof.
  intros H. induction l as [|b l IH]; intros acc; simpl; [reflexivity|].
  now rewrite H, IH.
Qed.

Lemma fold_add_nonempty {A : Type} (key : A -> string) (l : list A) :
  forall acc,
    fold_left (fun refs a => PySet.add (key a) refs) l acc = [] ->
    l = [] /\ acc = [].
Proof.
  induction l as [|a l IH]; intros acc H; simpl in H; [auto|].
  apply IH in H as [_ H]. unfold PySet.add in H.
  destruct (PySet.mem (key a) acc) eqn:E.
  - subst acc. discriminate.
  - destruct acc; discriminate.
Qed.

End FinditerFacts.

Module ErrorFacts.
Import GroundingIndex SQLBuilder.

Lemma resolve_raises (m : FieldMapper.t) (e t v : string)
    (fm : Dict.t string) (ex : exn) :
  FieldMapper.resolve_lookml_expression m e t v fm = Raise ex ->
  template_error ex.
Proof.
  unfold FieldMapper.resolve_lookml_expression,
    FieldMapper._resolve_table_references.
  destruct (Str.is_empty e); [discriminate|].
  destruct (Template.sub _ _ e) as [r|e'] eqn:T; cbn [bind_outcome];
    [discriminate|].
  intros [= <-]. now apply TemplateFacts.sub_raises in T as [_ T].
Qed.

Lemma for_each_raises {A B : Type} (P : exn -> Prop) (f : A -> Build.M B)
    (l : list A) :
  (forall a m e m', f a m = (Raise e, m') -> P e) ->
  forall m e m', Build.for_each f l m = (Raise e, m') -> P e.
Proof.
  intros Hf. induction l as [|a l IH]; intros m e m'; simpl; [discriminate|].
  unfold Build.bind.
  destruct (f a m) as [[y|e1] m1] eqn:E1.
  - destruct (Build.for_each f l m1) as [[ys|e2] m2] eqn:E2.
    + discriminate.
    + intros [= <- _]. eapply IH. exact E2.
  - intros [= <- _]. eapply Hf. exact E1.
Qed.

Lemma select_clause_raises (fields : list FieldInfo) (m m' : FieldMapper.t)
    (e : exn) :
  _build_select_clause fields m = (Raise e, m') ->
  template_error e.
Proof.
  unfold _build_select_clause, Build.bind.
  destruct (Build.for_each select_item fields m) as [[items|e1] m1] eqn:E;
    [discriminate|].
  intros [= <- _].
  refine (for_each_raises template_error select_item fields
            _ m e1 m1 E).
  intros f m0 e0 m0'. unfold select_item.
  destruct (truthy (sql_expression f)); [|discriminate].
  unfold Build.bind, Build.read.
  destruct (FieldMapper.resolve_lookml_expression _ _ _ _ _) eqn:R;
    [discriminate|].
  intros [= <- _]. now apply resolve_raises in R.
Qed.

Lemma join_clauses_raises (idx : GroundingIndex.t) (ei : ExploreInfo)
    (required : PySet.t) (m m' : FieldMapper.t) (e : exn) :
  _build_join_clauses idx ei required m = (Raise e, m') ->
  template_error e.
Proof.
  unfold _build_join_clauses.
  destruct (Dict.get (ei_name ei) _) as [explore|]; [|discriminate].
  unfold Build.bind.
  destruct (Build.for_each _ (joins explore) m) as [[cs|e1] m1] eqn:E;
    [discriminate|].
  intros [= <- _].
  refine (for_each_raises template_error _ (joins explore)
            _ m e1 m1 E).
  intros j m0 e0 m0'. unfold join_clause.
  destruct (PySet.mem _ _); [|discriminate].
  destruct (Dict.get (join_view_name j) _) as [jv|]; [|discriminate].
  destruct (truthy (sql_table_name jv)); [|discriminate].
  unfold Build.bind, Build.write.
  destruct (truthy (join_sql_on j)); [|discriminate].
  unfold Build.read.
  destruct (FieldMapper.resolve_lookml_expression _ _ _ _ _) eqn:R;
    [discriminate|].
  intros [= <- _]. now apply resolve_raises in R.
Qed.

Lemma where_clause_raises (filters : list string) (m m' : FieldMapper.t)
    (e : exn) :
  _build_where_clause filters m = (Raise e, m') ->
  template_error e.
Proof.
  unfold _build_where_clause. destruct filters as [|x filters];
    [discriminate|].
  unfold Build.bind.
  destruct (Build.for_each _ (x :: filters) m) as [[rs|e1] m1] eqn:E;
    [discriminate|].
  intros [= <- _].
  refine (for_each_raises template_error _ (x :: filters)
            _ m e1 m1 E).
  intros flt m0 e0 m0'. unfold Build.read.
  destruct (FieldMapper.resolve_lookml_expression _ _ _ _ _) eqn:R;
    [discriminate|].
  intros [= <- _]. now apply resolve_raises in R.
Qed.

Lemma from_clause_raises (idx : GroundingIndex.t) (ei : ExploreInfo)
    (required : PySet.t) (m m' : FieldMapper.t) (e : exn) :
  _build_from_clause idx ei required m = (Raise e, m') ->
  template_error e
  \/ (e = ValueError ("Base view " ++ base_view ei
                      ++ " not found or missing sql_table_name")
      /\ has_table (get_all_views (lookml_project idx)) (base_view ei)
         = false).
Proof.
  unfold _build_from_clause, has_table.
  destruct (Dict.get (base_view ei) _) as [base|].
  2:{ intros [= <- _]. right. auto. }
  destruct (truthy (sql_table_name base)); cbn [negb].
  2:{ intros [= <- _]. right. auto. }
  unfold Build.bind at 1. unfold Build.write at 1.
  destruct required as [|r required]; [discriminate|].
  unfold Build.bind.
  destruct (_build_join_clauses idx ei (r :: required) _)
    as [[cs|e1] m1] eqn:E.
  - destruct cs; discriminate.
  - intros [= <- _]. left. now apply join_clauses_raises in E.
Qed.

End ErrorFacts.

(* ================================================================== *)
(** * Further properties of the program *)
(* ================================================================== *)

(** X1.  In an index built from a project, the available fields of every
    explore are stored under their qualified names (view.field), none of
    them is hidden, and no name is stored twice. *)
Theorem built_index_fields_well_keyed
    (p : LookMLProject) (load : PySet.t -> Dict.t TableMetadata)
    (k : string) (ei : ExploreInfo) :
  GroundingIndex.get_explore_by_name (GroundingIndex.build p load) k
  = Some ei ->
  (forall q f,
      In (q, f) (available_fields ei) ->
      q = qualified_name f /\ hidden f = false)
  /\ NoDup (Dict.keys (available_fields ei)).
Proof.
  intros H. apply DictMore.get_in in H.
  exact (IndexFacts2.built_explore_fields p load k ei H).
Qed.

Lemma built_index_fields_well_keyed_witness :
  exists ei,
    GroundingIndex.get_explore_by_name Fixtures.shop_index "shop.users"
    = Some ei
    /\ NoDup (Dict.keys (available_fields ei)).
Proof.
  assert (Hrun : { ei | GroundingIndex.get_explore_by_name
                          Fixtures.shop_index "shop.users" = Some ei }).
  { vm_compute. eexists. reflexivity. }
  destruct Hrun as (ei & Hei). exists ei. split; [exact Hei|].
  exact (proj2 (built_index_fields_well_keyed Fixtures.shop_project
                  Fixtures.no_metadata "shop.users" ei Hei)).
Defined.

(** X2.  The explores of a built index are the explores of the project,
    under the same keys (model.explore) and in the same order; each one is
    named by its key and rests on the base view of its explore. *)
Theorem built_index_explores
    (p : LookMLProject) (load : PySet.t -> Dict.t TableMetadata) :
  let idx := GroundingIndex.build p load in
  let info := GroundingIndex.build_explore_info (get_all_views p)
                (load (GroundingIndex._extract_referenced_tables p)) in
  Dict.keys (GroundingIndex.explores idx) = Dict.keys (get_all_explores p)
  /\ (forall k,
         GroundingIndex.get_explore_by_name idx k
         = option_map (info k) (Dict.get k (get_all_explores p)))
  /\ (forall k ei,
         GroundingIndex.get_explore_by_name idx k = Some ei ->
         ei_name ei = k
         /\ exists e, Dict.get k (get_all_explores p) = Some e
                      /\ base_view ei = base_view_name e).
Proof.
  intros idx info. subst idx info.
  unfold GroundingIndex.get_explore_by_name, GroundingIndex.build.
  cbn [GroundingIndex.explores].
  rewrite IndexFacts2.build_explores_map.
  split; [|split].
  - unfold Dict.keys. rewrite map_map. reflexivity.
  - intros k. apply IndexFacts2.get_map_values.
  - intros k ei. rewrite IndexFacts2.get_map_values.
    destruct (Dict.get k (get_all_explores p)) as [e|]; [|discriminate].
    intros [= <-].
    destruct (IndexFacts.build_explore_info_well_keyed (get_all_views p)
                (load (GroundingIndex._extract_referenced_tables p)) k e)
      as (_ & _ & Hn & Hb).
    split; [exact Hn|]. exists e. auto.
Qed.

(** X3.  On an index whose fields are stored under their qualified names,
    [find_relevant_fields] raises no [KeyError]: it returns fields of the
    explore that are not hidden, each with a score of at least one, in
    order of decreasing score; an explore that the index does not have
    gives the empty list. *)
Theorem find_relevant_fields_returns
    (idx : GroundingIndex.t) (explore : string) (terms : list string) :
  (forall ei,
      GroundingIndex.get_explore_by_name idx explore = Some ei ->
      well_keyed (available_fields ei)) ->
  exists result,
    Retrieval.find_relevant_fields idx explore terms = Ok result
    /\ StronglySorted (desc snd) result
    /\ Forall
         (fun fs =>
            1 <= snd fs
            /\ hidden (fst fs) = false
            /\ exists ei,
                 GroundingIndex.get_explore_by_name idx explore = Some ei
                 /\ Dict.get (qualified_name (fst fs)) (available_fields ei)
                    = Some (fst fs))
         result
    /\ (GroundingIndex.get_explore_by_name idx explore = None ->
        result = []).
Proof.
  unfold GroundingIndex.get_explore_by_name. intros Hw.
  destruct (Dict.get explore (GroundingIndex.explores idx)) as [ei|] eqn:He.
  - destruct (FieldScoreFacts.relevant_fields_ok idx explore terms ei He
                (Hw ei eq_refl)) as (result & Hr & Hall).
    exists (sorted_desc snd result). split; [exact Hr|].
    split; [apply SortFacts.sorted_desc_sorted|].
    split; [|discriminate].
    eapply Forall_impl; [|exact Hall].
    intros fs (H1 & H2 & H3). split; [exact H1|]. split; [exact H2|].
    exists ei. split; [reflexivity | exact H3].
  - exists []. unfold Retrieval.find_relevant_fields. rewrite He.
    split; [reflexivity|]. split; [constructor|].
    split; [constructor | reflexivity].
Qed.

Lemma find_relevant_fields_returns_witness :
  exists result,
    Retrieval.find_relevant_fields Fixtures.shop_index "shop.users"
                                   ["revenue"; "status"]
    = Ok result
    /\ List.length result = 2.
Proof.
  destruct (find_relevant_fields_returns Fixtures.shop_index "shop.users"
              ["revenue"; "status"]) as (result & Hr & _).
  - intros ei Hei.
    apply (IndexFacts2.built_index_well_keyed Fixtures.shop_project
             Fixtures.no_metadata "shop.users" ei).
    apply DictMore.get_in. exact Hei.
  - exists result. split; [exact Hr|].
    assert (Hrun : { r | Retrieval.find_relevant_fields Fixtures.shop_index
                           "shop.users" ["revenue"; "status"] = Ok r
                         /\ List.length r = 2 }).
    { vm_compute. eexists. split; reflexivity. }
    destruct Hrun as (r & Hr' & Hlen). congruence.
Defined.

(** X4.  [_select_explore] returns [None] only for an index without
    explores.  Otherwise it returns the key of the first explore, in the
    order of the index, whose relevance for the terms is the highest:
    every explore before it has a lower relevance and no explore of the
    index has a higher one.  In particular, when no explore scores, the
    first explore of the index is returned. *)
Theorem select_explore_is_best (p : QueryPlanner.t) (terms : list string) :
  NoDup (Dict.keys (GroundingIndex.explores (QueryPlanner.grounding_index p))) ->
  match QueryPlanner._select_explore p terms with
  | Some k =>
      exists ei pre post,
        GroundingIndex.explores (QueryPlanner.grounding_index p)
        = (pre ++ (k, ei) :: post)%list
        /\ GroundingIndex.get_explore_by_name
             (QueryPlanner.grounding_index p) k
           = Some ei
        /\ (forall k' ei',
               In (k', ei') pre ->
               relevance (QueryPlanner.grounding_index p) terms ei'
               < relevance (QueryPlanner.grounding_index p) terms ei)
        /\ (forall k' ei',
               In (k', ei') post ->
               relevance (QueryPlanner.grounding_index p) terms ei'
               <= relevance (QueryPlanner.grounding_index p) terms ei)
        /\ (forall k' ei',
               GroundingIndex.get_explore_by_name
                 (QueryPlanner.grounding_index p) k' = Some ei' ->
               relevance (QueryPlanner.grounding_index p) terms ei'
               <= relevance (QueryPlanner.grounding_index p) terms ei)
        /\ ((forall k' ei',
                In (k', ei')
                   (GroundingIndex.explores (QueryPlanner.grounding_index p)) ->
                relevance (QueryPlanner.grounding_index p) terms ei' = 0) ->
            pre = [])
  | None => GroundingIndex.explores (QueryPlanner.grounding_index p) = []
  end.
Proof.
  intros Hnd. set (idx := QueryPlanner.grounding_index p) in *.
  assert (Hplace : forall k ei pre post,
             GroundingIndex.explores idx = (pre ++ (k, ei) :: post)%list ->
             (forall k' ei', In (k', ei') pre ->
                relevance idx terms ei' < relevance idx terms ei) ->
             (forall k' ei', In (k', ei') post ->
                relevance idx terms ei' <= relevance idx terms ei) ->
             GroundingIndex.get_explore_by_name idx k = Some ei
             /\ (forall k' ei', In (k', ei') pre ->
                   relevance idx terms ei' < relevance idx terms ei)
             /\ (forall k' ei', In (k', ei') post ->
                   relevance idx terms ei' <= relevance idx terms ei)
             /\ (forall k' ei',
                   GroundingIndex.get_explore_by_name idx k' = Some ei' ->
                   relevance idx terms ei' <= relevance idx terms ei)
             /\ ((forall k' ei', In (k', ei') (GroundingIndex.explores idx) ->
                    relevance idx terms ei' = 0) -> pre = [])).
  { intros k ei pre post Hex Hpre Hpost.
    unfold GroundingIndex.get_explore_by_name.
    split; [|split; [exact Hpre|split; [exact Hpost|split]]].
    - apply DictMore.get_NoDup_in; [exact Hnd|].
      rewrite Hex. apply in_or_app. right. now left.
    - intros k' ei' Hg. apply DictMore.get_in in Hg. rewrite Hex in Hg.
      apply in_app_or in Hg as [Hg|[[= _ <-]|Hg]].
      + apply Hpre in Hg. lia.
      + lia.
      + now apply Hpost in Hg.
    - intros Hzero. destruct pre as [|[k0 e0] pre]; [reflexivity|].
      exfalso.
      assert (H0 : relevance idx terms e0 < relevance idx terms ei).
      { apply (Hpre k0). now left. }
      rewrite (Hzero k ei) in H0; [lia|].
      rewrite Hex. apply in_or_app. right. now left. }
  unfold QueryPlanner._select_explore. fold idx.
  unfold Retrieval.find_relevant_explores, Dict.items.
  rewrite (ScoreFacts.explore_scores_closed idx terms Hnd).
  set (g := fun kv : string * ExploreInfo =>
              (fst kv, relevance idx terms (snd kv))).
  set (scored := filter (fun ns => 0 <? snd ns)
                   (List.map g (GroundingIndex.explores idx))).
  destruct (sorted_desc snd scored) as [|[best s] rest] eqn:E.
  - assert (Hnone : scored = []).
    { pose proof (SortFacts.sorted_desc_perm snd scored) as Hp.
      rewrite E in Hp. now apply Permutation_nil in Hp. }
    assert (Hzero : forall k' ei',
               In (k', ei') (GroundingIndex.explores idx) ->
               relevance idx terms ei' = 0).
    { intros k' ei' Hin.
      destruct (relevance idx terms ei') as [|n] eqn:Hr; [reflexivity|].
      exfalso.
      assert (Hs : In (g (k', ei')) scored).
      { apply filter_In. split; [now apply in_map|].
        unfold g. cbn [snd]. rewrite Hr. reflexivity. }
      now rewrite Hnone in Hs. }
    destruct (GroundingIndex.explores idx) as [|[k ei] l] eqn:Hex;
      [reflexivity|].
    cbn [Dict.keys List.map fst]. exists ei, [], l.
    split; [reflexivity|]. apply Hplace; [reflexivity| |].
    + intros k' ei' [].
    + intros k' ei' Hin. rewrite (Hzero k' ei'); [lia | now right].
  - destruct (SortFacts.sorted_desc_head snd scored _ _ E)
      as (a & b & Hsc & Ha & Hb).
    destruct (SortFacts.filter_map_split _ g _ _ _ _ Hsc)
      as (l1 & [k ei] & l2 & Hex & Hy & Hp & H1 & H2).
    unfold g in Hy. cbn [fst snd] in Hy. injection Hy as -> <-.
    cbn [snd] in Hp. apply Nat.ltb_lt in Hp.
    exists ei, l1, l2. split; [exact Hex|].
    apply Hplace; [exact Hex| |].
    + intros k' ei' Hin.
      destruct (relevance idx terms ei') as [|n] eqn:Hr; [lia|].
      rewrite <- Hr.
      apply (Ha (g (k', ei'))). rewrite <- H1.
      apply filter_In. split; [now apply in_map|].
      unfold g. cbn [snd]. rewrite Hr. reflexivity.
    + intros k' ei' Hin.
      destruct (relevance idx terms ei') as [|n] eqn:Hr; [lia|].
      rewrite <- Hr.
      apply (Hb (g (k', ei'))). rewrite <- H2.
      apply filter_In. split; [now apply in_map|].
      unfold g. cbn [snd]. rewrite Hr. reflexivity.
Qed.

Lemma select_explore_is_best_witness :
  exists ei pre post,
    GroundingIndex.explores Fixtures.shop_index
    = (pre ++ ("shop.users", ei) :: post)%list
    /\ GroundingIndex.get_explore_by_name Fixtures.shop_index "shop.users"
       = Some ei
    /\ (forall k' ei',
           In (k', ei') pre ->
           relevance Fixtures.shop_index ["paid"] ei'
           < relevance Fixtures.shop_index ["paid"] ei)
    /\ (forall k' ei',
           In (k', ei') post ->
           relevance Fixtures.shop_index ["paid"] ei'
           <= relevance Fixtures.shop_index ["paid"] ei)
    /\ (forall k' ei',
           GroundingIndex.get_explore_by_name Fixtures.shop_index k'
           = Some ei' ->
           relevance Fixtures.shop_index ["paid"] ei'
           <= relevance Fixtures.shop_index ["paid"] ei)
    /\ ((forall k' ei',
            In (k', ei') (GroundingIndex.explores Fixtures.shop_index) ->
            relevance Fixtures.shop_index ["paid"] ei' = 0) ->
        pre = []).
Proof.
  assert (Hrun : QueryPlanner._select_explore (Fixtures.shop_planner 10)
                   ["paid"] = Some "shop.users").
  { vm_compute. reflexivity. }
  pose proof (select_explore_is_best (Fixtures.shop_planner 10) ["paid"]
                (IndexFacts2.built_index_NoDup Fixtures.shop_project
                   Fixtures.no_metadata)) as H.
  rewrite Hrun in H. exact H.
Defined.

(** X5.  On an index whose fields are stored under their qualified names,
    [plan_query] raises in two cases only, each time the [ValueError] of
    a conversion.  Either the request writes its limit in more than 4300
    digits, which [int] does not convert: then [plan_query] always raises.
    Or [max_joins] is a negative number of more than 4300 digits, which
    the warning about too many joins cannot print.  When the digits of
    the request are at most 4300, and [max_joins] is a natural number or
    has at most 4300 digits, [plan_query] returns; and when moreover the
    index has an explore, and every explore has a name and a field, it
    returns a plan for every request text. *)
Theorem plan_query_returns_plan
    (set_order : PySet.t -> list string) (p : QueryPlanner.t)
    (query : string) (d : Z) :
  index_well_keyed (QueryPlanner.grounding_index p) ->
  (forall ds,
      requested_digits (Str.lower query) ds ->
      PyInt.max_str_digits < String.length ds ->
      QueryPlanner.plan_query set_order p query d
      = Raise (ValueError (PyInt.too_many_digits ds)))
  /\ (forall e,
         QueryPlanner.plan_query set_order p query d = Raise e ->
         (exists ds,
             requested_digits (Str.lower query) ds
             /\ PyInt.max_str_digits < String.length ds
             /\ e = ValueError (PyInt.too_many_digits ds))
         \/ ((QueryPlanner.max_joins p < 0)%Z
             /\ PyInt.max_str_digits
                < String.length (Str.of_Z (Z.abs (QueryPlanner.max_joins p)))
             /\ e = ValueError PyInt.too_long_to_print))
  /\ ((forall ds,
          requested_digits (Str.lower query) ds ->
          String.length ds <= PyInt.max_str_digits) ->
      (0 <= QueryPlanner.max_joins p)%Z
      \/ String.length (Str.of_Z (Z.abs (QueryPlanner.max_joins p)))
         <= PyInt.max_str_digits ->
      exists r,
        QueryPlanner.plan_query set_order p query d = Ok r
        /\ (GroundingIndex.explores (QueryPlanner.grounding_index p) <> [] ->
            (forall k ei,
                In (k, ei)
                   (GroundingIndex.explores
                      (QueryPlanner.grounding_index p)) ->
                k <> "" /\ available_fields ei <> []) ->
            exists plan, r = Some plan)).
Proof.
  intros Hw. split; [|split].
  - intros ds Hds L. unfold QueryPlanner.plan_query.
    now rewrite (LimitRequestFacts.extract_limit_raises query ds Hds L).
  - intros e He.
    pose proof (LimitRequestFacts.extract_limit_spec query) as Hs.
    destruct (QueryPlanner._extract_limit query) as [extracted|e']
      eqn:Hlim.
    + right.
      destruct (PlanFacts.plan_query_after_limit set_order p query d
                  extracted Hw Hlim)
        as [(r & Hr & _)|(Hr & L & Hneg)]; [congruence|].
      rewrite Hr in He. injection He as <-. auto.
    + left. unfold QueryPlanner.plan_query in He. rewrite Hlim in He.
      cbn [bind_outcome] in He. injection He as <-. exact Hs.
  - intros Hshort Hm.
    destruct (LimitRequestFacts.extract_limit_returns query Hshort)
      as (extracted & Hlim).
    destruct (PlanFacts.plan_query_after_limit set_order p query d
                extracted Hw Hlim)
      as [Hr|(_ & L & Hneg)]; [exact Hr|].
    destruct Hm; lia.
Qed.

Lemma plan_query_returns_plan_witness :
  exists r,
    QueryPlanner.plan_query Fixtures.insertion_order
      (Fixtures.shop_planner 10) "what sells" 100%Z
    = Ok r.
Proof.
  destruct (plan_query_returns_plan Fixtures.insertion_order
              (Fixtures.shop_planner 10) "what sells" 100%Z
              (IndexFacts2.built_index_well_keyed Fixtures.shop_project
                 Fixtures.no_metadata)) as (_ & _ & Hret).
  destruct Hret as (r & Hr & _).
  - intros ds Hds. exfalso.
    apply (LimitRequestFacts.requested_digits_excludes_none _ _ Hds).
    exact (LimitRequestFacts.extract_limit_ok "what sells" None eq_refl).
  - left. discriminate.
  - exists r. exact Hr.
Defined.

(** X6.  The fields of a plan are fields of the explore that the plan
    names: each one is an available field of that explore and none is
    hidden; there is at least one and there are at most ten. *)
Theorem plan_fields_from_explore
    (set_order : PySet.t -> list string) (p : QueryPlanner.t)
    (query : string) (d : Z) (plan : QueryPlan) :
  index_well_keyed (QueryPlanner.grounding_index p) ->
  QueryPlanner.plan_query set_order p query d = Ok (Some plan) ->
  exists ei,
    GroundingIndex.get_explore_by_name (QueryPlanner.grounding_index p)
                                       (explore_name plan) = Some ei
    /\ Forall (fun f => hidden f = false
                        /\ In f (Dict.values (available_fields ei)))
              (selected_fields plan)
    /\ 1 <= List.length (selected_fields plan) <= 10.
Proof.
  intros Hw Hplan.
  apply PlannerFacts.plan_query_inv in Hplan
    as (explore & fields & extracted & joins & Hsel & Hf & Hne & _ & _ & ->).
  cbn [explore_name selected_fields].
  apply SelectFacts.select_explore_in in Hsel.
  apply SelectFacts.in_keys_get in Hsel as (ei & Hei).
  apply DictMore.get_in in Hei as Hin.
  destruct (SelectFacts.select_fields_ok p explore
              (QueryPlanner._extract_query_terms query) query ei Hei
              (Hw explore ei Hin)) as (fields' & Hf' & Hall & _).
  rewrite Hf in Hf'. injection Hf' as <-.
  exists ei. split; [exact Hei|]. split; [exact Hall|].
  split.
  - destruct fields; [congruence | simpl; lia].
  - eapply PlannerFacts.select_fields_at_most_ten. exact Hf.
Qed.

Lemma plan_fields_from_explore_witness :
  exists plan ei,
    QueryPlanner.plan_query Fixtures.insertion_order
      (Fixtures.shop_planner 10) "revenue by status" 100%Z
    = Ok (Some plan)
    /\ GroundingIndex.get_explore_by_name Fixtures.shop_index
         (explore_name plan) = Some ei
    /\ 1 <= List.length (selected_fields plan) <= 10.
Proof.
  assert (Hrun : { plan | QueryPlanner.plan_query Fixtures.insertion_order
                            (Fixtures.shop_planner 10) "revenue by status"
                            100%Z = Ok (Some plan) }).
  { vm_compute. eexists. reflexivity. }
  destruct Hrun as (plan & Hplan). exists plan.
  destruct (plan_fields_from_explore Fixtures.insertion_order
              (Fixtures.shop_planner 10) "revenue by status" 100%Z plan
              (IndexFacts2.built_index_well_keyed Fixtures.shop_project
                 Fixtures.no_metadata) Hplan) as (ei & Hei & _ & Hlen).
  exists ei. split; [exact Hplan|]. split; [exact Hei | exact Hlen].
Defined.

(** X7.  [_extract_basic_filters] returns at most one filter, and none
    when no selected field has the LookML type time or date.  A filter
    that is returned names the first selected field of such a type, as
    view.field. *)
Theorem basic_filters_use_first_time_field
    (query : string) (fields : list FieldInfo) :
  List.length (QueryPlanner._extract_basic_filters query fields) <= 1
  /\ (List.existsb QueryPlanner.is_time_field fields = false ->
      QueryPlanner._extract_basic_filters query fields = [])
  /\ (forall flt,
         In flt (QueryPlanner._extract_basic_filters query fields) ->
         exists f others pre post,
           List.filter QueryPlanner.is_time_field fields = f :: others
           /\ flt = pre ++ qualified_name f ++ post).
Proof.
  unfold QueryPlanner._extract_basic_filters. split; [|split].
  - destruct (filter QueryPlanner.is_time_field fields) as [|f others];
      [simpl; lia|].
    apply FilterFacts.first_time_filter_length.
  - intros H. now rewrite (PlannerFacts.filter_empty _ _ H).
  - intros flt Hin.
    destruct (filter QueryPlanner.is_time_field fields) as [|f others];
      [destruct Hin|].
    apply FilterFacts.time_filter_names_field in Hin as (pre & post & ->).
    exists f, others, pre, post. split; reflexivity.
Qed.

(** X8.  A required join is never the base view of the explore, and it is
    always the view of a selected field.  When [max_joins] is at least
    the number of selected fields, [_determine_required_joins] returns,
    and the view of every selected field that is not the base view is
    required.  It raises only where the warning about too many joins
    cannot be printed: [max_joins] is below the number of selected fields
    and has more than 4300 digits. *)
Theorem required_joins_are_field_views
    (set_order : PySet.t -> list string) (p : QueryPlanner.t)
    (explore : string) (fields : list FieldInfo) (ei : ExploreInfo) :
  (forall s x, In x (set_order s) -> In x s) ->
  GroundingIndex.get_explore_by_name (QueryPlanner.grounding_index p) explore
  = Some ei ->
  (forall joins v,
      QueryPlanner._determine_required_joins set_order p explore fields
      = Ok joins ->
      In v joins ->
      v <> base_view ei /\ exists f, In f fields /\ view_name f = v)
  /\ ((Z.of_nat (List.length fields) <= QueryPlanner.max_joins p)%Z ->
      exists joins,
        QueryPlanner._determine_required_joins set_order p explore fields
        = Ok joins
        /\ forall f,
             In f fields -> view_name f <> base_view ei ->
             In (view_name f) joins)
  /\ (forall e,
         QueryPlanner._determine_required_joins set_order p explore fields
         = Raise e ->
         e = ValueError PyInt.too_long_to_print
         /\ PyInt.max_str_digits
            < String.length (Str.of_Z (Z.abs (QueryPlanner.max_joins p)))
         /\ (QueryPlanner.max_joins p < Z.of_nat (List.length fields))%Z).
Proof.
  intros Horder Hei.
  split; [|split; [|apply RequiredJoinFacts.required_joins_raises]];
    unfold QueryPlanner._determine_required_joins; rewrite Hei.
  all: set (required :=
         fold_left
           (fun required field =>
              if negb (String.eqb (view_name field) (base_view ei))
              then PySet.add (view_name field) required
              else required)
           fields PySet.empty).
  all: assert (Hreq : forall v,
             In v required
             <-> v <> base_view ei
                 /\ exists f, In f fields /\ view_name f = v)
    by (intros v; subst required;
        rewrite RequiredJoinFacts.in_required_views; unfold PySet.empty;
        simpl; tauto).
  - intros joins v Hj Hv. apply Hreq.
    destruct (QueryPlanner.max_joins p <? Z.of_nat (PySet.size required))%Z.
    + destruct (PyInt.to_str (QueryPlanner.max_joins p));
        cbn [bind_outcome] in Hj; [|discriminate].
      injection Hj as <-.
      apply (proj1 (RequiredJoinFacts.in_of_list _ _)) in Hv.
      apply RequiredJoinFacts.in_slice_to in Hv. now apply Horder.
    + injection Hj as <-. exact Hv.
  - intros Hmax.
    pose proof (RequiredJoinFacts.required_views_size (base_view ei) fields
                  PySet.empty) as Hsize.
    fold required in Hsize.
    change (PySet.size PySet.empty) with 0 in Hsize.
    destruct (QueryPlanner.max_joins p <? Z.of_nat (PySet.size required))%Z
      eqn:E; [apply Z.ltb_lt in E; lia|].
    exists required. split; [reflexivity|].
    intros f Hf Hv. apply Hreq. split; [exact Hv|]. exists f. auto.
Qed.

Lemma required_joins_are_field_views_witness :
  exists joins,
    QueryPlanner._determine_required_joins Fixtures.insertion_order
      (Fixtures.shop_planner 10) "shop.users"
      [Fixtures.count_field; Examples.revenue_field]
    = Ok joins
    /\ In "orders" joins.
Proof.
  assert (Hrun : { ei | GroundingIndex.get_explore_by_name
                          Fixtures.shop_index "shop.users" = Some ei
                        /\ base_view ei = "users" }).
  { vm_compute. eexists. split; reflexivity. }
  destruct Hrun as (ei & Hei & Hbase).
  destruct (proj1 (proj2 (required_joins_are_field_views
                   Fixtures.insertion_order (Fixtures.shop_planner 10)
                   "shop.users"
                   [Fixtures.count_field; Examples.revenue_field] ei
                   (fun s x H => H) Hei)))
    as (joins & Hj & Hall).
  - simpl. lia.
  - exists joins. split; [exact Hj|].
    apply (Hall Examples.revenue_field).
    + right. now left.
    + rewrite Hbase. discriminate.
Defined.

(** X9.  Planner and builder together: with a positive default limit, the
    SQL compiled from a plan of [plan_query] ends in its LIMIT line, so
    that [enforce_limit] finds a LIMIT clause and returns the SQL
    unchanged, whatever default it is given. *)
Theorem planned_sql_keeps_its_limit
    (set_order : PySet.t -> list string) (p : QueryPlanner.t)
    (query : string) (d d' : Z) (plan : QueryPlan)
    (idx : GroundingIndex.t) (m m' : FieldMapper.t) (sql : string) :
  (0 < d)%Z ->
  QueryPlanner.plan_query set_order p query d = Ok (Some plan) ->
  SQLBuilder.build_sql idx plan m = (Ok sql, m') ->
  has_limit_clause sql /\ SQLBuilder.enforce_limit sql d' = Ok sql.
Proof.
  intros Hd Hplan Hsql.
  apply PlannerFacts.plan_query_inv in Hplan
    as (explore & fields & extracted & joins & _ & _ & _ & E & _ & ->).
  set (n := match extracted with
            | Some n => if (n =? 0)%Z then d else n
            | None => d
            end) in *.
  assert (Hn : (0 < n)%Z).
  { subst n. destruct extracted as [k|]; [|exact Hd].
    apply BuildFacts.extract_limit_nonneg in E.
    destruct (k =? 0)%Z eqn:Ek; [exact Hd|]. apply Z.eqb_neq in Ek. lia. }
  apply (BuildFacts.build_sql_ends_in_limit _ _ n) in Hsql
    as (body & ->); [|reflexivity|reflexivity|lia].
  assert (H : has_limit_clause
                (body ++ String Chars.newline "" ++ "LIMIT " ++ Str.of_Z n)).
  { apply LimitClauseFacts.appended_limit_clause. lia. }
  split; [exact H|].
  apply LimitClauseFacts.has_limit_spec in H.
  unfold SQLBuilder.enforce_limit. now rewrite H.
Qed.

Lemma planned_sql_keeps_its_limit_witness :
  exists sql,
    has_limit_clause sql /\ SQLBuilder.enforce_limit sql 5%Z = Ok sql.
Proof.
  assert (Hrun :
    { run : QueryPlan * string * FieldMapper.t
    | QueryPlanner.plan_query Fixtures.insertion_order
        (Fixtures.shop_planner 10) "revenue by status" 100%Z
      = Ok (Some (fst (fst run)))
      /\ SQLBuilder.build_sql Fixtures.shop_index (fst (fst run))
           FieldMapper.init
         = (Ok (snd (fst run)), snd run) }).
  { eexists (_, _, _). cbn [fst snd].
    split; [vm_compute; reflexivity | vm_compute; reflexivity]. }
  destruct Hrun as ([[plan sql] m'] & Hplan & Hsql).
  cbn [fst snd] in Hplan, Hsql. exists sql.
  apply (planned_sql_keeps_its_limit Fixtures.insertion_order
           (Fixtures.shop_planner 10) "revenue by status" 100%Z 5%Z plan
           Fixtures.shop_index FieldMapper.init m' sql);
    [lia | exact Hplan | exact Hsql].
Defined.

(** X10.  What [build_sql] returns, the SQL or the error, does not depend
    on the table aliases that an earlier call left in the mapper; and for
    a rule-based plan over a known explore the aliases afterwards do not
    depend on them either. *)
Theorem build_sql_forgets_aliases
    (idx : GroundingIndex.t) (plan : QueryPlan) (m1 m2 : FieldMapper.t) :
  fst (SQLBuilder.build_sql idx plan m1)
  = fst (SQLBuilder.build_sql idx plan m2)
  /\ (truthy (llm_generated_sql plan) = false ->
      GroundingIndex.get_explore_by_name idx (explore_name plan) <> None ->
      SQLBuilder.build_sql idx plan m1 = SQLBuilder.build_sql idx plan m2).
Proof.
  unfold SQLBuilder.build_sql.
  destruct (truthy (llm_generated_sql plan)).
  - split; [reflexivity | discriminate].
  - destruct (GroundingIndex.get_explore_by_name idx (explore_name plan)).
    + split; [|intros _ _]; reflexivity.
    + split; [reflexivity|]. intros _ H. congruence.
Qed.

(** X11.  [_clean_table_name] is idempotent, and a name that has a dot
    after its quotes are stripped comes back between backticks. *)
Theorem clean_table_name_idempotent (t : string) :
  SQLBuilder._clean_table_name (SQLBuilder._clean_table_name t)
  = SQLBuilder._clean_table_name t
  /\ (Str.existsb (Ascii.eqb ".") (SQLBuilder._clean_table_name t) = true ->
      first_char (SQLBuilder._clean_table_name t) = Some Chars.backtick
      /\ last_char (SQLBuilder._clean_table_name t) = Some Chars.backtick).
Proof.
  destruct (NameFacts.clean_table_name_cases t)
    as (c & l & r & _ & Hf & Hl & Hclean).
  rewrite Hclean.
  destruct (Str.existsb (Ascii.eqb ".") c) eqn:Hdot.
  - split.
    + unfold SQLBuilder._clean_table_name.
      rewrite (StripFacts.strip_by_wrapped
                 (fun a => Ascii.eqb a Chars.backtick
                           || Ascii.eqb a Chars.dquote
                           || Ascii.eqb a Chars.squote)
                 "`" c "`" eq_refl eq_refl Hf Hl).
      rewrite Hdot.
      destruct c as [|a c]; [discriminate|].
      unfold Str.startswith.
      destruct (prefix "`" (String a c)) eqn:E; [|reflexivity].
      apply StrFacts.prefix_split in E.
      cbn [String.length Str.drop append] in E.
      injection E as ->. cbv in Hf. discriminate.
    + intros _. split; [reflexivity|].
      change ("`" ++ c ++ "`") with (String "`" (c ++ "`")).
      destruct c as [|a c]; [discriminate|].
      change (last_char (String "`" (String a c ++ "`")))
        with (last_char (String a c ++ "`")).
      apply NameFacts.last_char_app.
  - split; [|congruence].
    unfold SQLBuilder._clean_table_name.
    rewrite (StripFacts.strip_by_id _ c Hf Hl). now rewrite Hdot.
Qed.

(** X12.  [_get_table_alias] is idempotent; an alias holds no hyphen and
    no capital letter A to Z; and two view names that differ only in case,
    or in a hyphen for an underscore, get the same alias. *)
Theorem get_table_alias_normal (v : string) :
  SQLBuilder._get_table_alias (SQLBuilder._get_table_alias v)
  = SQLBuilder._get_table_alias v
  /\ Str.existsb (Ascii.eqb "-") (SQLBuilder._get_table_alias v) = false
  /\ Str.existsb Chars.is_upper_az (SQLBuilder._get_table_alias v) = false
  /\ SQLBuilder._get_table_alias (Str.lower v) = SQLBuilder._get_table_alias v
  /\ SQLBuilder._get_table_alias (Str.replace_char "-" "_" v)
     = SQLBuilder._get_table_alias v.
Proof.
  rewrite !NameFacts.get_table_alias_map.
  split; [|split; [|split; [|split]]].
  - rewrite NameFacts.map_map. apply NameFacts.map_ext. intros c.
    apply (NameFacts.alias_char_fixed c).
  - apply NameFacts.existsb_map. intros c.
    apply (NameFacts.alias_char_fixed c).
  - apply NameFacts.existsb_map. intros c.
    apply (NameFacts.alias_char_fixed c).
  - unfold Str.lower. rewrite NameFacts.map_map. apply NameFacts.map_ext.
    intros c. apply (NameFacts.alias_char_fixed c).
  - unfold Str.replace_char. rewrite NameFacts.map_map.
    apply NameFacts.map_ext. intros c.
    apply (NameFacts.alias_char_fixed c).
Qed.

(** X13.  Every term that [_extract_query_terms] returns is a piece of
    the request text in lower case: it starts with a letter or an
    underscore and goes on with word characters, has more than two
    characters and is not a stop word. *)
Theorem query_terms_are_words (query t : string) :
  In t (QueryPlanner._extract_query_terms query) ->
  2 < String.length t
  /\ ~ In t QueryPlanner.stop_words
  /\ Str.lower t = t
  /\ starts_with Chars.is_ident_start t = true
  /\ Str.forallb Chars.is_word t = true
  /\ exists pre post, Str.lower query = pre ++ t ++ post.
Proof.
  unfold QueryPlanner._extract_query_terms. intros H.
  apply filter_In in H as [Hin Hkeep].
  apply andb_true_iff in Hkeep as [Hstop Hlen].
  apply negb_true_iff in Hstop. apply Nat.ltb_lt in Hlen.
  apply FindallFacts.findall_from_in in Hin
    as (pre & post & c & Hq & Hm & Ht).
  destruct (ReFacts.match_here_text _ _ _ _ Hm) as [Hpost _].
  rewrite <- Ht in Hpost.
  assert (Hpart : Str.lower query = pre ++ t ++ Re.rest c).
  { rewrite Hq. now rewrite Hpost at 1. }
  apply FindallFacts.term_pattern_sound in Hm as (a & x & Htx & Ha & Hx).
  rewrite <- Ht in Htx.
  split; [exact Hlen|].
  split; [now apply FindallFacts.in_list_false|].
  split; [exact (FindallFacts.lower_part query pre t (Re.rest c) Hpart)|].
  rewrite Htx in *. split; [exact Ha|]. split.
  - simpl. rewrite Hx, andb_true_r.
    revert Ha. clear. destruct a as [[] [] [] [] [] [] [] []];
      vm_compute; congruence.
  - exists pre, (Re.rest c). exact Hpart.
Qed.

Lemma query_terms_are_words_witness :
  Str.lower "revenue" = "revenue"
  /\ exists pre post, Str.lower "Show REVENUE by status" = pre ++ "revenue" ++ post.
Proof.
  destruct (query_terms_are_words "Show REVENUE by status" "revenue")
    as (_ & _ & Hl & _ & _ & Hp).
  - vm_compute. left. reflexivity.
  - split; [exact Hl | exact Hp].
Defined.

(** X14.  Every key of the glossary that [_build_field_glossary] fills
    is a term in lower case of more than two characters.  Its entry is
    not empty, lists no field twice, and lists only available fields of
    explores of the index. *)
Theorem glossary_entries_are_indexed_fields
    (explores : Dict.t ExploreInfo) (term : string) (fs : list FieldInfo) :
  Dict.get term (GroundingIndex._build_field_glossary explores) = Some fs ->
  2 < String.length term
  /\ Str.lower term = term
  /\ fs <> []
  /\ NoDup fs
  /\ Forall (fun f => exists k ei,
                        In (k, ei) explores
                        /\ In f (Dict.values (available_fields ei)))
            fs.
Proof.
  intros Hget. apply DictMore.get_in in Hget.
  set (fields := fun f => exists k ei,
                            In (k, ei) explores
                            /\ In f (Dict.values (available_fields ei))).
  assert (Hok : glossary_ok fields
                  (GroundingIndex._build_field_glossary explores)).
  { rewrite GlossaryFacts.build_field_glossary_folds.
    assert (Hall : Forall (fun ei => Forall fields
                                       (Dict.values (available_fields ei)))
                          (Dict.values explores)).
    { apply Forall_forall. intros ei Hei.
      apply SelectFacts.in_values in Hei as (k & Hk).
      apply Forall_forall. intros f Hf. exists k, ei. auto. }
    assert (Hempty : glossary_ok fields Dict.empty) by (intros ? ? []).
    revert Hempty. generalize (@Dict.empty (list FieldInfo)).
    induction Hall as [|ei l Hei Hl IH]; intros g Hg; simpl; [exact Hg|].
    apply IH. now apply GlossaryFacts.fold_index_field_ok. }
  exact (Hok term fs Hget).
Qed.

Lemma glossary_entries_are_indexed_fields_witness :
  exists fs,
    Dict.get "revenue"
      (GroundingIndex._build_field_glossary
         (GroundingIndex.explores Fixtures.shop_index)) = Some fs
    /\ fs <> [] /\ NoDup fs.
Proof.
  assert (Hrun : { fs | Dict.get "revenue"
                          (GroundingIndex._build_field_glossary
                             (GroundingIndex.explores Fixtures.shop_index))
                        = Some fs }).
  { vm_compute. eexists. reflexivity. }
  destruct Hrun as (fs & Hfs). exists fs.
  destruct (glossary_entries_are_indexed_fields
              (GroundingIndex.explores Fixtures.shop_index) "revenue" fs Hfs)
    as (_ & _ & Hne & Hnd & _).
  split; [exact Hfs|]. split; [exact Hne | exact Hnd].
Defined.

(** X15.  Every available field of an explore can be found in the
    glossary under its name in lower case without the white space around
    it, when that name has more than two characters. *)
Theorem glossary_finds_field_by_name
    (explores : Dict.t ExploreInfo) (k : string) (ei : ExploreInfo)
    (f : FieldInfo) :
  In (k, ei) explores ->
  In f (Dict.values (available_fields ei)) ->
  2 < String.length (Str.strip (Str.lower (name f))) ->
  exists fs,
    Dict.get (Str.strip (Str.lower (name f)))
             (GroundingIndex._build_field_glossary explores) = Some fs
    /\ List.existsb (FieldInfo_eqb f) fs = true.
Proof.
  intros Hei Hf Hlen.
  change (glossary_has (GroundingIndex._build_field_glossary explores)
            (Str.strip (Str.lower (name f))) f).
  rewrite GlossaryFacts.build_field_glossary_folds.
  apply SelectFacts.values_in in Hei.
  generalize (@Dict.empty (list FieldInfo)).
  induction (Dict.values explores) as [|ei' l IH]; intros g;
    [destruct Hei|].
  simpl. destruct Hei as [->|Hei].
  - clear IH. generalize dependent g. intros g.
    assert (Hkeep : forall l' g',
               glossary_has g' (Str.strip (Str.lower (name f))) f ->
               glossary_has
                 (fold_left
                    (fun g ei =>
                       fold_left index_field
                                 (Dict.values (available_fields ei)) g)
                    l' g')
                 (Str.strip (Str.lower (name f))) f).
    { induction l' as [|e l' IH']; intros g' Hg'; simpl; [exact Hg'|].
      apply IH'. now apply GlossaryFacts.fold_index_field_keeps. }
    apply Hkeep. now apply GlossaryFacts.fold_index_field_has.
  - now apply IH.
Qed.

Lemma glossary_finds_field_by_name_witness :
  exists fs,
    Dict.get "count"
      (GroundingIndex._build_field_glossary
         [("shop.users",
           {| ei_name := "shop.users"; base_view := "users";
              available_fields := [("users.count", Fixtures.count_field)];
              join_graph := []; join_conditions := [] |})])
    = Some fs
    /\ List.existsb (FieldInfo_eqb Fixtures.count_field) fs = true.
Proof.
  refine (glossary_finds_field_by_name
            [("shop.users",
              {| ei_name := "shop.users"; base_view := "users";
                 available_fields := [("users.count", Fixtures.count_field)];
                 join_graph := []; join_conditions := [] |})]
            "shop.users" _ Fixtures.count_field _ _ _).
  - left. reflexivity.
  - left. reflexivity.
  - vm_compute. lia.
Defined.

(** X16.  Every keyword that [_extract_keywords] takes from a description
    is a run of three or more letters a to z in lower case that occurs in
    the description in lower case, and it is not a stop word. *)
Theorem keywords_are_lower_case_words (text t : string) :
  In t (GroundingIndex._extract_keywords text) ->
  3 <= String.length t
  /\ Str.forallb Chars.is_lower_az t = true
  /\ ~ In t GroundingIndex.keyword_stop_words
  /\ exists pre post, Str.lower text = pre ++ t ++ post.
Proof.
  unfold GroundingIndex._extract_keywords. intros H.
  apply filter_In in H as [Hin Hstop]. apply negb_true_iff in Hstop.
  apply FindallFacts.findall_from_in in Hin
    as (pre & post & c & Hq & Hm & Ht).
  destruct (ReFacts.match_here_text _ _ _ _ Hm) as [Hpost _].
  rewrite <- Ht in Hpost.
  assert (Hpart : Str.lower text = pre ++ t ++ Re.rest c).
  { rewrite Hq. now rewrite Hpost at 1. }
  apply FindallFacts.keyword_pattern_sound in Hm as [Hlen Hall].
  rewrite <- Ht in Hlen, Hall.
  pose proof (FindallFacts.lower_part text pre t (Re.rest c) Hpart) as Hlow.
  split; [exact Hlen|]. split.
  - clear - Hall Hlow. unfold Str.lower in Hlow.
    induction t as [|a t IH]; [reflexivity|].
    simpl in Hall, Hlow. apply andb_true_iff in Hall as [Ha Hall].
    injection Hlow as Hla Hlow. simpl. rewrite (IH Hall Hlow), andb_true_r.
    revert Ha Hla. clear. destruct a as [[] [] [] [] [] [] [] []];
      vm_compute; congruence.
  - split; [now apply FindallFacts.in_list_false|].
    exists pre, (Re.rest c). exact Hpart.
Qed.

Lemma keywords_are_lower_case_words_witness :
  Str.forallb Chars.is_lower_az "revenue" = true
  /\ exists pre post,
       Str.lower "Total Revenue of the order" = pre ++ "revenue" ++ post.
Proof.
  destruct (keywords_are_lower_case_words "Total Revenue of the order"
              "revenue") as (_ & Hl & _ & Hp).
  - vm_compute. right. left. reflexivity.
  - split; [exact Hl | exact Hp].
Defined.

(** X17.  The tables whose metadata is requested from the loader are
    exactly the bare table names of the views that name a table: each
    once, and without a dot.  [_get_table_metadata_for_view] looks the
    metadata of such a view up under the name that was requested. *)
Theorem referenced_tables_are_bare_names (p : LookMLProject) :
  NoDup (GroundingIndex._extract_referenced_tables p)
  /\ (forall t,
         In t (GroundingIndex._extract_referenced_tables p)
         <-> exists k view,
               In (k, view) (get_all_views p)
               /\ truthy (sql_table_name view) = true
               /\ t = GroundingIndex.bare_table_name
                        (or_empty (sql_table_name view)))
  /\ (forall t,
         In t (GroundingIndex._extract_referenced_tables p) ->
         Str.existsb (Ascii.eqb ".") t = false)
  /\ (forall k view tm,
         In (k, view) (get_all_views p) ->
         truthy (sql_table_name view) = true ->
         exists t,
           In t (GroundingIndex._extract_referenced_tables p)
           /\ GroundingIndex._get_table_metadata_for_view view tm
              = Dict.get t tm).
Proof.
  assert (Hin : forall t,
             In t (GroundingIndex._extract_referenced_tables p)
             <-> exists k view,
                   In (k, view) (get_all_views p)
                   /\ truthy (sql_table_name view) = true
                   /\ t = GroundingIndex.bare_table_name
                            (or_empty (sql_table_name view))).
  { intros t. unfold GroundingIndex._extract_referenced_tables.
    rewrite ViewFacts.in_referenced_tables. unfold PySet.empty. split.
    - intros [[]|(view & Hv & Ht & ->)].
      apply SelectFacts.in_values in Hv as (k & Hk). exists k, view. auto.
    - intros (k & view & Hk & Ht & ->). right. exists view.
      split; [now apply SelectFacts.values_in in Hk | auto]. }
  split; [|split; [exact Hin|split]].
  - unfold GroundingIndex._extract_referenced_tables.
    apply PySetFacts.fold_add_NoDup; [|constructor].
    intros s view Hs. destruct (truthy (sql_table_name view));
      [now apply PySetFacts.add_NoDup | exact Hs].
  - intros t Ht. apply Hin in Ht as (k & view & _ & _ & ->).
    apply ViewFacts.bare_table_name_no_dot.
  - intros k view tm Hk Ht. eexists. split.
    + apply Hin. exists k, view. split; [exact Hk|]. split; [exact Ht|].
      reflexivity.
    + unfold GroundingIndex._get_table_metadata_for_view. now rewrite Ht.
Qed.

(** X18.  In the dictionary of [get_all_fields] a measure takes the place
    of a dimension of the same name; a name of neither is not a key. *)
Theorem get_all_fields_measure_wins (v : LookMLView) (k : string) :
  NoDup (Dict.keys (dimensions v)) ->
  NoDup (Dict.keys (measures v)) ->
  Dict.get k (get_all_fields v)
  = match Dict.get k (measures v) with
    | Some m => Some (MeasureField m)
    | None => option_map DimensionField (Dict.get k (dimensions v))
    end.
Proof.
  intros Hd Hm. unfold get_all_fields, Dict.items.
  rewrite ViewFacts.get_update_NoDup.
  2:{ unfold Dict.keys. rewrite map_map. exact Hm. }
  rewrite ViewFacts.get_map_snd.
  destruct (Dict.get k (measures v)); [reflexivity|]. cbn [option_map].
  rewrite ViewFacts.get_update_NoDup.
  2:{ unfold Dict.keys. rewrite map_map. exact Hd. }
  rewrite ViewFacts.get_map_snd.
  now destruct (Dict.get k (dimensions v)).
Qed.

Lemma get_all_fields_measure_wins_witness :
  Dict.get "count" (get_all_fields Fixtures.users_view)
  = match Dict.get "count" (measures Fixtures.users_view) with
    | Some m => Some (MeasureField m)
    | None =>
        option_map DimensionField
          (Dict.get "count" (dimensions Fixtures.users_view))
    end.
Proof.
  apply (get_all_fields_measure_wins Fixtures.users_view "count").
  - vm_compute. repeat constructor; simpl; intuition discriminate.
  - vm_compute. repeat constructor; simpl; intuition discriminate.
Defined.

(** X19.  Looking a field of a view up in what [_process_view_fields]
    returns, under view.name: a measure of that name that is not hidden
    is found; otherwise a dimension of that name that is not hidden;
    otherwise nothing.  A hidden measure does not hide a dimension. *)
Theorem process_view_fields_lookup
    (view : LookMLView) (tm : option TableMetadata) (k : string) :
  NoDup (Dict.keys (dimensions view)) ->
  NoDup (Dict.keys (measures view)) ->
  let from_dimensions :=
    match Dict.get k (dimensions view) with
    | Some d =>
        if dim_hidden d then None
        else Some (GroundingIndex.dimension_field view tm k d)
    | None => None
    end in
  Dict.get (view_name_of view ++ "." ++ k)
           (GroundingIndex._process_view_fields view tm)
  = match Dict.get k (measures view) with
    | Some m =>
        if mea_hidden m then from_dimensions
        else Some (GroundingIndex.measure_field view k m)
    | None => from_dimensions
    end.
Proof.
  intros Hd Hm from_dimensions.
  unfold GroundingIndex._process_view_fields, Dict.items.
  assert (Happ : forall k', view_name_of view ++ "." ++ k'
                            = (view_name_of view ++ ".") ++ k').
  { intros k'. now rewrite StrFacts.append_assoc. }
  rewrite Happ.
  pose proof (ViewFacts.get_fold_fields (view_name_of view ++ ".")
                (fun m => mea_hidden m)
                (fun k' m => GroundingIndex.measure_field view k' m)
                k (measures view)) as Hmea.
  pose proof (ViewFacts.get_fold_fields (view_name_of view ++ ".")
                (fun d => dim_hidden d)
                (fun k' d => GroundingIndex.dimension_field view tm k' d)
                k (dimensions view)) as Hdim.
  rewrite Hmea; [|intros; apply Happ | exact Hm].
  rewrite Hdim; [|intros; apply Happ | exact Hd].
  reflexivity.
Qed.

Lemma process_view_fields_lookup_witness :
  Dict.get "users.count"
    (GroundingIndex._process_view_fields Fixtures.users_view None)
  = Some Fixtures.count_field.
Proof.
  refine (eq_trans
            (process_view_fields_lookup Fixtures.users_view None "count"
               _ _) _).
  - vm_compute. repeat constructor; simpl; intuition discriminate.
  - vm_compute. repeat constructor; simpl; intuition discriminate.
  - reflexivity.
Defined.

(** X20.  How [_resolve_field_references] reads an expression, from left
    to right.  Text without a dollar sign is copied.  A reference
    [${view.field}] is replaced by the mapping of [view.field], or else
    by the mapping of [field], or else is left as it is; a reference
    [${field}] is looked up under the current view in the same way. *)
Theorem resolve_field_references_lookup
    (current_view : string) (mappings : Dict.t string) :
  let resolve := fun e =>
    FieldMapper._resolve_field_references e current_view mappings in
  let lookup := fun view fld unchanged =>
    match Dict.get (view ++ "." ++ fld) mappings with
    | Some sql => sql
    | None =>
        match Dict.get fld mappings with
        | Some sql => sql
        | None => unchanged
        end
    end in
  (forall pre e,
      Str.existsb (Ascii.eqb "$") pre = false ->
      resolve (pre ++ e) = pre ++ resolve e)
  /\ (forall view fld post,
         view <> "" -> Str.forallb FieldMapper.not_dot_brace view = true ->
         fld <> "" -> Str.forallb FieldMapper.not_brace fld = true ->
         resolve ("${" ++ view ++ "." ++ fld ++ "}" ++ post)
         = lookup view fld ("${" ++ view ++ "." ++ fld ++ "}")
           ++ resolve post)
  /\ (forall fld post,
         fld <> "" -> Str.forallb FieldMapper.not_dot_brace fld = true ->
         resolve ("${" ++ fld ++ "}" ++ post)
         = lookup current_view fld ("${" ++ fld ++ "}") ++ resolve post).
Proof.
  intros resolve lookup. subst resolve lookup. cbv beta.
  unfold FieldMapper._resolve_field_references.
  split; [|split].
  - intros pre e Hpre. now apply FieldRefFacts.sub_field_plain.
  - intros view fld post Hv Hvall Hf Hfall.
    destruct (FieldRefFacts.match_qualified None view fld post
                Hv Hvall Hf Hfall) as (c & Hm & Ht & Hg1 & Hg2).
    assert (Hassoc : "${" ++ view ++ "." ++ fld ++ "}" ++ post
                     = ("${" ++ view ++ "." ++ fld ++ "}") ++ post).
    { cbn [append]. repeat (rewrite StrFacts.append_assoc; cbn [append]).
      reflexivity. }
    rewrite Hassoc in *.
    rewrite (FieldRefFacts.sub_field_here _ _ post c); auto;
      [|discriminate].
    f_equal. unfold FieldMapper.replace_field_ref, Re.fgroup.
    cbn [Re.f_caps Re.f_text]. unfold Re.group in Hg1, Hg2.
    rewrite Hg1, Hg2. cbn [truthy or_empty].
    destruct view; [congruence|]. reflexivity.
  - intros fld post Hf Hfall.
    destruct (FieldRefFacts.match_unqualified None fld post Hf Hfall)
      as (c & Hm & Ht & Hg1 & Hg2).
    assert (Hassoc : "${" ++ fld ++ "}" ++ post
                     = ("${" ++ fld ++ "}") ++ post).
    { cbn [append]. repeat (rewrite StrFacts.append_assoc; cbn [append]).
      reflexivity. }
    rewrite Hassoc in *.
    rewrite (FieldRefFacts.sub_field_here _ _ post c); auto;
      [|discriminate].
    f_equal. unfold FieldMapper.replace_field_ref, Re.fgroup.
    cbn [Re.f_caps Re.f_text]. unfold Re.group in Hg1, Hg2.
    rewrite Hg1, Hg2. reflexivity.
Qed.

(** X21.  [extract_column_name] returns a name exactly for the
    expressions [${TABLE}.column] with white space around them, where the
    column is a non-empty run of word characters.  What it returns is the
    text after the first dot of the expression as given: the column with
    the white space that follows it. *)
Theorem extract_column_name_spec (expression column : string) :
  FieldMapper.extract_column_name expression = Some column
  <-> exists l col r,
        expression = l ++ "${TABLE}." ++ col ++ r
        /\ Str.forallb Chars.is_space l = true
        /\ Str.forallb Chars.is_space r = true
        /\ col <> "" /\ Str.forallb Chars.is_word col = true
        /\ column = col ++ r.
Proof.
  unfold FieldMapper.extract_column_name,
    FieldMapper.is_simple_column_reference, Str.strip.
  split.
  - destruct (StrFacts.strip_by_spec Chars.is_space expression)
      as (l & r & He & Hl & Hr & _ & Hlast).
    destruct (Re.match_start FieldMapper.simple_pattern
                (Str.strip_by Chars.is_space expression)) as [m|] eqn:Hm;
      [|discriminate].
    apply ColumnFacts.simple_pattern_sound in Hm
      as (col & Hs & Hne & Hcol); [|exact Hlast].
    rewrite Hs in He. intros Hafter. exists l, col, r.
    repeat (split; [assumption|]).
    rewrite He in Hafter at 1.
    rewrite ColumnFacts.after_first_spaces in Hafter by exact Hl.
    change (("${TABLE}." ++ col) ++ r) with ("${TABLE}." ++ col ++ r)
      in Hafter.
    cbn in Hafter. congruence.
  - intros (l & col & r & -> & Hl & Hr & Hne & Hcol & ->).
    assert (Hstrip : Str.strip_by Chars.is_space
                       (l ++ "${TABLE}." ++ col ++ r)
                     = "${TABLE}." ++ col).
    { change (l ++ "${TABLE}." ++ col ++ r)
        with (l ++ ("${TABLE}." ++ col) ++ r).
      apply StripFacts.strip_by_wrapped; auto.
      rewrite ColumnFacts.last_char_append by exact Hne.
      now apply ColumnFacts.last_char_word. }
    rewrite Hstrip.
    destruct (Re.match_start FieldMapper.simple_pattern ("${TABLE}." ++ col))
      eqn:Hm.
    + rewrite ColumnFacts.after_first_spaces by exact Hl. reflexivity.
    + now apply ColumnFacts.simple_pattern_complete in Hm.
Qed.

(** X22.  [build_sql] compiles the SELECT list before the FROM clause
    registers any alias, on a mapper whose aliases were just cleared.  So
    the SELECT list of the SQL is the one compiled without aliases, and a
    field whose SQL is [${TABLE}.column] is selected as
    [table_name.column], with the table name of the field as it stands
    and not the alias that FROM declares. *)
Theorem select_list_is_compiled_without_aliases
    (idx : GroundingIndex.t) (plan : QueryPlan) :
  (forall m sql m',
      truthy (llm_generated_sql plan) = false ->
      SQLBuilder.build_sql idx plan m = (Ok sql, m') ->
      exists select_clause rest,
        SQLBuilder._build_select_clause (selected_fields plan)
                                        FieldMapper.init
        = (Ok select_clause, FieldMapper.init)
        /\ sql = "SELECT" ++ String Chars.newline "" ++ select_clause
                 ++ String Chars.newline "" ++ "FROM " ++ rest)
  /\ (forall f table column,
         sql_expression f = Some ("${TABLE}." ++ column) ->
         table_name f = Some table ->
         FieldMapper.has_backslash table = false ->
         Str.forallb Chars.is_word column = true ->
         SQLBuilder.select_item f FieldMapper.init
         = (Ok ("  " ++ table ++ "." ++ column ++ " AS " ++ name f),
            FieldMapper.init)).
Proof.
  split.
  - intros m sql m' Hllm. unfold SQLBuilder.build_sql. rewrite Hllm.
    destruct (GroundingIndex.get_explore_by_name idx (explore_name plan))
      as [ei|]; [|discriminate].
    unfold Build.bind at 1. unfold Build.write at 1.
    change (FieldMapper.clear_aliases m) with FieldMapper.init.
    unfold Build.bind at 1.
    pose proof (SelectClauseFacts.build_select_clause_reads
                  (selected_fields plan) FieldMapper.init) as Hread.
    destruct (SQLBuilder._build_select_clause (selected_fields plan)
                FieldMapper.init) as [[select_clause|e] m1];
      [|discriminate].
    simpl in Hread. subst m1.
    unfold Build.bind at 1.
    destruct (SQLBuilder._build_from_clause idx ei (required_joins plan) _)
      as [[from_clause|e] m2]; [|discriminate].
    unfold Build.bind at 1.
    destruct (SQLBuilder._build_where_clause (filters plan) m2)
      as [[where_clause|e] m3]; [|discriminate].
    unfold Build.bind at 1. unfold Build.lift at 1.
    destruct (SQLBuilder._build_limit_clause (limit plan))
      as [limit_clause|e]; [|discriminate].
    unfold Build.ret.
    set (tail := (SQLBuilder.optional_part "WHERE " where_clause
                  ++ SQLBuilder.optional_part "GROUP BY " _
                  ++ SQLBuilder.optional_part "" _)%list).
    intros H. exists select_clause.
    exists (from_clause
            ++ match tail with
               | [] => ""
               | _ => String Chars.newline ""
                      ++ Str.join (String Chars.newline "") tail
               end).
    split; [reflexivity|].
    assert (Hsql : Ok sql = fst (Ok sql, m')) by reflexivity.
    rewrite <- H in Hsql. cbn [fst] in Hsql. injection Hsql as Hsql.
    rewrite Hsql. unfold Str.join. cbn [app].
    destruct tail as [|x tail'].
    + cbn [String.concat append]. now rewrite StrFacts.append_empty_r.
    + cbn [String.concat append].
      repeat (rewrite StrFacts.append_assoc; cbn [append]). reflexivity.
  - intros f table column He Ht Hb Hcol.
    unfold SQLBuilder.select_item. rewrite He, Ht.
    cbn [truthy Str.is_empty append negb or_empty].
    unfold Build.bind, Build.read, Build.ret.
    unfold FieldMapper.resolve_lookml_expression.
    cbn [Str.is_empty append].
    unfold FieldMapper._resolve_table_references, FieldMapper.table_ref.
    cbn [FieldMapper.init FieldMapper.table_aliases Dict.get Dict.empty].
    unfold FieldMapper.has_backslash in Hb. unfold Template.sub.
    rewrite Hb. cbn [bind_outcome].
    assert (Hsub : Re.sub FieldMapper.table_pattern (fun _ => table)
                     ("${TABLE}" ++ String "." column)
                   = table ++ String "." column).
    { unfold FieldMapper.table_pattern.
      rewrite (SubFacts.sub_lit_here "$" "{TABLE}" table).
      f_equal. apply SubFacts.sub_lit_absent.
      apply (SelectClauseFacts.contains_needs_first "$" "{TABLE}").
      cbn [Str.existsb]. rewrite SelectClauseFacts.word_no_dollar by exact Hcol.
      reflexivity. }
    change (String "$" (String "{" (String "T" (String "A" (String "B"
              (String "L" (String "E" (String "}" (String "." column)))))))))
      with ("${TABLE}" ++ String "." column).
    rewrite Hsub.
    unfold FieldMapper._resolve_field_references.
    rewrite (ReFacts.sub_text FieldMapper.field_pattern).
    rewrite StrFacts.append_assoc. reflexivity.
Qed.

(** X23.  [_build_group_by_clause] returns no clause exactly when the
    plan has no aggregation or every selected field is a measure.
    Otherwise it lists the positions in the SELECT list, counted from 1,
    of the fields that are not measures, in increasing order. *)
Theorem group_by_lists_dimension_positions
    (fields : list FieldInfo) (has_aggregation : bool) :
  (SQLBuilder._build_group_by_clause fields has_aggregation = None
   <-> has_aggregation = false
       \/ List.forallb QueryPlanner.is_measure fields = true)
  /\ (forall clause,
         SQLBuilder._build_group_by_clause fields has_aggregation
         = Some clause ->
         clause
         = Str.join ", "
             (List.map (fun p => Str.of_Z (Z.of_nat (fst p)))
                (filter (fun p => negb (QueryPlanner.is_measure (snd p)))
                        (combine (seq 1 (List.length fields)) fields)))).
Proof.
  unfold SQLBuilder._build_group_by_clause.
  pose proof (SelectClauseFacts.group_by_fields_nil fields 1) as Hnil.
  pose proof (SelectClauseFacts.group_by_fields_closed fields 1) as Hclosed.
  destruct has_aggregation; cbn [negb].
  - destruct (SQLBuilder.group_by_fields 1 fields) as [|x positions] eqn:E.
    + split; [|discriminate]. split; [|reflexivity].
      intros _. right. now apply Hnil.
    + split.
      * split; [discriminate|]. intros [H|H]; [discriminate|].
        apply Hnil in H. discriminate.
      * intros clause [= <-]. now rewrite <- Hclosed.
  - split; [|discriminate]. split; [now left | reflexivity].
Qed.

(** X24.  Compiling a plan of [plan_query] over the index it was planned
    on never fails with "Explore not found".  When it fails, it is for
    one of three reasons.  The base view of the explore is not defined or
    names no table, and the error is the [ValueError] that says so.  Or
    [re.sub] rejects a replacement text, a table name or an alias with a
    backslash, as a template, with [re.error] or [IndexError].  Or the
    limit of the plan cannot be printed: it is then the default limit,
    which has more than 4300 digits, and the error is the [ValueError]
    of the conversion. *)
Theorem planned_sql_fails_only_on_base_view
    (set_order : PySet.t -> list string) (p : QueryPlanner.t)
    (query : string) (d : Z) (plan : QueryPlan)
    (m m' : FieldMapper.t) (e : exn) :
  QueryPlanner.plan_query set_order p query d = Ok (Some plan) ->
  SQLBuilder.build_sql (QueryPlanner.grounding_index p) plan m
  = (Raise e, m') ->
  template_error e
  \/ (exists ei,
         GroundingIndex.get_explore_by_name (QueryPlanner.grounding_index p)
                                            (explore_name plan) = Some ei
         /\ e = ValueError ("Base view " ++ base_view ei
                            ++ " not found or missing sql_table_name")
         /\ has_table
              (get_all_views
                 (GroundingIndex.lookml_project
                    (QueryPlanner.grounding_index p)))
              (base_view ei) = false)
  \/ (e = ValueError PyInt.too_long_to_print
      /\ limit plan = Some d
      /\ PyInt.max_str_digits < String.length (Str.of_Z (Z.abs d))).
Proof.
  intros Hplan.
  apply PlannerFacts.plan_query_inv in Hplan
    as (explore & fields & extracted & joins & Hsel & _ & _ & Hlim & _ & ->).
  apply SelectFacts.select_explore_in in Hsel.
  apply SelectFacts.in_keys_get in Hsel as (ei & Hei).
  unfold SQLBuilder.build_sql.
  cbn [llm_generated_sql truthy explore_name selected_fields required_joins
       filters limit].
  unfold GroundingIndex.get_explore_by_name. rewrite Hei.
  unfold Build.bind at 1. unfold Build.write at 1.
  unfold Build.bind at 1.
  destruct (SQLBuilder._build_select_clause fields _)
    as [[select_clause|e1] m1] eqn:E1.
  2:{ intros [= <- _]. left.
      now apply ErrorFacts.select_clause_raises in E1. }
  unfold Build.bind at 1.
  destruct (SQLBuilder._build_from_clause _ ei _ m1)
    as [[from_clause|e2] m2] eqn:E2.
  2:{ intros [= <- _].
      apply ErrorFacts.from_clause_raises in E2 as [E2|[-> Hbase]];
        [now left|].
      right. left. exists ei. auto. }
  unfold Build.bind at 1.
  destruct (SQLBuilder._build_where_clause _ m2)
    as [[where_clause|e3] m3] eqn:E3.
  2:{ intros [= <- _]. left.
      now apply ErrorFacts.where_clause_raises in E3. }
  unfold Build.bind at 1. unfold Build.lift at 1.
  destruct (SQLBuilder._build_limit_clause _) as [limit_clause|e4] eqn:E4;
    [discriminate|].
  intros [= <- _]. right. right.
  unfold SQLBuilder._build_limit_clause in E4.
  set (n := match extracted with
            | Some n => if (n =? 0)%Z then d else n
            | None => d
            end) in *.
  destruct (n =? 0)%Z; [discriminate|].
  destruct (PyInt.to_str n) as [digits|e5] eqn:T; cbn [bind_outcome] in E4;
    [discriminate|].
  injection E4 as <-. apply DecimalFacts.to_str_raises in T as [-> L].
  assert (Hn : n = d).
  { subst n. destruct extracted as [k|]; [|reflexivity].
    destruct (k =? 0)%Z; [reflexivity|].
    apply LimitRequestFacts.extracted_limit_prints in Hlim. lia. }
  rewrite Hn in *. auto.
Qed.

Lemma planned_sql_fails_only_on_base_view_witness :
  exists plan e m',
    QueryPlanner.plan_query Fixtures.insertion_order
      Broken.payments_planner "how much was paid" 100%Z
    = Ok (Some plan)
    /\ SQLBuilder.build_sql
         (QueryPlanner.grounding_index Broken.payments_planner)
         plan FieldMapper.init
       = (Raise e, m')
    /\ (template_error e
        \/ (exists ei,
               GroundingIndex.get_explore_by_name
                 (QueryPlanner.grounding_index Broken.payments_planner)
                 (explore_name plan) = Some ei
               /\ e = ValueError ("Base view " ++ base_view ei
                                  ++ " not found or missing sql_table_name")
               /\ has_table
                    (get_all_views
                       (GroundingIndex.lookml_project
                          (QueryPlanner.grounding_index
                             Broken.payments_planner)))
                    (base_view ei) = false)
        \/ (e = ValueError PyInt.too_long_to_print
            /\ limit plan = Some 100%Z
            /\ PyInt.max_str_digits
               < String.length (Str.of_Z (Z.abs 100)))).
Proof.
  assert (Hrun :
    { run : QueryPlan * exn * FieldMapper.t
    | QueryPlanner.plan_query Fixtures.insertion_order
        Broken.payments_planner "how much was paid" 100%Z
      = Ok (Some (fst (fst run)))
      /\ SQLBuilder.build_sql
           (QueryPlanner.grounding_index Broken.payments_planner)
           (fst (fst run)) FieldMapper.init
         = (Raise (snd (fst run)), snd run) }).
  { eexists (_, _, _). cbn [fst snd].
    split; [vm_compute; reflexivity | vm_compute; reflexivity]. }
  destruct Hrun as ([[plan e] m'] & Hplan & Hsql).
  cbn [fst snd] in *.
  exists plan, e, m'. split; [exact Hplan|]. split; [exact Hsql|].
  exact (planned_sql_fails_only_on_base_view Fixtures.insertion_order
           Broken.payments_planner "how much was paid" 100%Z plan
           FieldMapper.init m' e Hplan Hsql).
Defined.

(** X25.  [extract_referenced_fields] and [_resolve_field_references]
    scan an expression with one pattern.  A reference [${view.field}] is
    reported as [view.field] and a reference [${field}] as [field]; an
    expression without a dollar sign has no reference; and an expression
    in which no reference is found is returned unchanged by
    [_resolve_field_references], whatever the mappings. *)
Theorem referenced_fields_and_resolution :
  (forall view fld,
      view <> "" -> Str.forallb FieldMapper.not_dot_brace view = true ->
      fld <> "" -> Str.forallb FieldMapper.not_brace fld = true ->
      extract_referenced_fields ("${" ++ view ++ "." ++ fld ++ "}")
      = [view ++ "." ++ fld])
  /\ (forall fld,
         fld <> "" -> Str.forallb FieldMapper.not_dot_brace fld = true ->
         extract_referenced_fields ("${" ++ fld ++ "}") = [fld])
  /\ (forall e,
         Str.existsb (Ascii.eqb "$") e = false ->
         extract_referenced_fields e = [])
  /\ (forall e current_view mappings,
         extract_referenced_fields e = [] ->
         FieldMapper._resolve_field_references e current_view mappings = e).
Proof.
  assert (Hnone : forall e current_view mappings,
             extract_referenced_fields e = [] ->
             FieldMapper._resolve_field_references e current_view mappings
             = e).
  { intros e current_view mappings H.
    unfold extract_referenced_fields in H.
    assert (Hl : finditer FieldMapper.field_pattern e = []).
    { destruct (finditer FieldMapper.field_pattern e) as [|mt l];
        [reflexivity|]. exfalso.
      set (key := fun mt =>
                    if truthy (Re.fgroup 1 mt)
                    then or_empty (Re.fgroup 1 mt) ++ "."
                         ++ or_empty (Re.fgroup 2 mt)
                    else or_empty (Re.fgroup 2 mt)).
      assert (Hfold : fold_left (fun refs a => PySet.add (key a) refs)
                                (mt :: l) PySet.empty = []).
      { rewrite <- H. apply FinditerFacts.fold_left_pointwise.
        intros refs a. unfold key.
        now destruct (truthy (Re.fgroup 1 a)). }
      apply FinditerFacts.fold_add_nonempty in Hfold as [Hfold _].
      discriminate. }
    unfold FieldMapper._resolve_field_references, Re.sub.
    now rewrite (FinditerFacts.sub_from_no_match _ _ _ _ _ Hl). }
  split; [|split; [|split; [|exact Hnone]]].
  - intros view fld Hv Hvall Hf Hfall.
    destruct (FieldRefFacts.match_qualified None view fld "" Hv Hvall Hf Hfall)
      as (c & Hm & Ht & Hg1 & Hg2).
    unfold extract_referenced_fields.
    assert (Hassoc : "${" ++ view ++ "." ++ fld ++ "}"
                     = ("${" ++ view ++ "." ++ fld ++ "}") ++ "")
      by now rewrite StrFacts.append_empty_r.
    assert (Hm' : Re.match_here FieldMapper.field_pattern None
                    (("${" ++ view ++ "." ++ fld ++ "}") ++ "") = Some c)
      by (rewrite <- Hassoc; exact Hm).
    assert (Hne : "${" ++ view ++ "." ++ fld ++ "}" <> "") by discriminate.
    rewrite Hassoc.
    rewrite (FinditerFacts.finditer_here FieldMapper.field_pattern
               ("${" ++ view ++ "." ++ fld ++ "}") "" c Hne Hm' Ht).
    cbn [finditer_from fold_left]. unfold Re.fgroup. cbn [Re.f_caps].
    unfold Re.group in Hg1, Hg2. rewrite Hg1, Hg2.
    destruct view; [congruence|]. reflexivity.
  - intros fld Hf Hfall.
    destruct (FieldRefFacts.match_unqualified None fld "" Hf Hfall)
      as (c & Hm & Ht & Hg1 & Hg2).
    unfold extract_referenced_fields.
    assert (Hassoc : "${" ++ fld ++ "}" = ("${" ++ fld ++ "}") ++ "")
      by now rewrite StrFacts.append_empty_r.
    assert (Hm' : Re.match_here FieldMapper.field_pattern None
                    (("${" ++ fld ++ "}") ++ "") = Some c)
      by (rewrite <- Hassoc; exact Hm).
    assert (Hne : "${" ++ fld ++ "}" <> "") by discriminate.
    rewrite Hassoc.
    rewrite (FinditerFacts.finditer_here FieldMapper.field_pattern
               ("${" ++ fld ++ "}") "" c Hne Hm' Ht).
    cbn [finditer_from fold_left]. unfold Re.fgroup. cbn [Re.f_caps].
    unfold Re.group in Hg1, Hg2. rewrite Hg1, Hg2. reflexivity.
  - intros e He. unfold extract_referenced_fields.
    assert (Hl : forall pv, finditer_from FieldMapper.field_pattern pv e 0
                            = []).
    { induction e as [|a e IH]; intros pv; cbn [finditer_from].
      - now rewrite FieldRefFacts.field_pattern_needs_dollar.
      - cbn [Str.existsb] in He. apply orb_false_iff in He as [Ha He].
        rewrite FieldRefFacts.field_pattern_needs_dollar by exact Ha.
        now apply IH. }
    unfold finditer. now rewrite Hl.
Qed.
